(** * Orkio backend: the governed retrieval-augmented chat pipeline

    A shallow embedding of [src/utils/index.ts] (cosineSimilarity, chunkText,
    truncateText), [src/services/rag.ts] (processDocument, retrieveContext,
    retrieveContextWithPgVector) and the chat service that follows it
    (checkContract, checkModeRequirements, chat, chatWithDocument), with the
    properties the specification states about them.

    Conventions.
    - A JavaScript string is a [string]: the bytes of its UTF-8 form, one
      per character on ASCII text, where a length or a position is the same
      in both.  [toLowerCase] is computed on ASCII text; on other text it is
      what the engine's Unicode tables give, a parameter of the model
      ([unicode]).  [trim] removes tab, LF, VT, FF, CR and space.
    - Indices, sizes and token counts are integers ([Z]).
    - [cosineSimilarity] is evaluated on IEEE-754 binary64 numbers ([float]),
      the arithmetic the program runs on.  Where only the order of numbers
      matters (costs, similarity thresholds, ranking) a number is the exact
      rational [Q] a finite double denotes.  A sort whose comparator meets a
      NaN leaves the order the engine chooses, a parameter of the model
      ([sortOrder]).
    - Database tables are lists of rows in the order the store returns them.
      Calls to the embedding and completion provider are answered by an oracle
      and recorded in the world.  The numbers of a REAL column are the
      numbers the driver reports; the store's own addition on them is a
      parameter of the model ([realAdd]). *)

From Stdlib Require Import List String Ascii Bool Arith ZArith QArith Lia Lra Lqa.
From Stdlib Require Import Reals Qreals Floats Permutation Sorted DecimalString.
Import ListNotations.

Local Open Scope string_scope.
Local Open Scope list_scope.
Local Open Scope Z_scope.

(* ================================================================= *)
(** ** JavaScript built-ins used by the sources *)

Module JS.

Definition chars := list ascii.

Definition length (t : chars) : Z := Z.of_nat (List.length t).

(** Lower case on ASCII text: each of the letters A to Z becomes its small
    letter, every other character stays. *)
Definition toLowerChar (c : ascii) : ascii :=
  let n := nat_of_ascii c in
  if ((65 <=? n) && (n <=? 90))%nat then ascii_of_nat (n + 32) else c.

Fixpoint lowerAscii (s : string) : string :=
  match s with
  | EmptyString => EmptyString
  | String c s' => String (toLowerChar c) (lowerAscii s')
  end.

(** A text of ASCII characters only. *)
Fixpoint isAscii (s : string) : bool :=
  match s with
  | EmptyString => true
  | String c s' => (nat_of_ascii c <? 128)%nat && isAscii s'
  end.

(** [String.prototype.toLowerCase]. On ASCII text the letters are lowered one
    by one. On other text the result follows the Unicode case tables of the
    engine, which look at the context of a character (a capital sigma at the
    end of a word is lowered differently): it is [unicode s]. *)
Definition toLowerCase (unicode : string -> string) (s : string) : string :=
  if isAscii s then lowerAscii s else unicode s.

(** [s.startsWith(p)] and [s.includes(sub)]. *)
Fixpoint startsWith (s p : string) : bool :=
  match p, s with
  | EmptyString, _ => true
  | String _ _, EmptyString => false
  | String a p', String b s' => Ascii.eqb a b && startsWith s' p'
  end.

Fixpoint includes (s sub : string) : bool :=
  startsWith s sub ||
  match s with
  | EmptyString => false
  | String _ s' => includes s' sub
  end.

(** A relative index of [slice]: negative counts from the end, and the
    result is clamped to [0, len]. *)
Definition relIndex (len i : Z) : Z :=
  if i <? 0 then Z.max (len + i) 0 else Z.min i len.

(** [t.slice(s, e)] on strings and arrays. *)
Definition slice {A} (t : list A) (s e : Z) : list A :=
  let len := Z.of_nat (List.length t) in
  let from := relIndex len s in
  let to := relIndex len e in
  firstn (Z.to_nat (to - from)) (skipn (Z.to_nat from) t).

(** The largest index [k' <= k] with [t[k'] = c], or [-1]. *)
Fixpoint lastIndexUpTo (t : chars) (c : ascii) (k : nat) : Z :=
  match nth_error t k with
  | Some d =>
      if Ascii.eqb d c then Z.of_nat k
      else match k with O => -1 | S k' => lastIndexUpTo t c k' end
  | None => match k with O => -1 | S k' => lastIndexUpTo t c k' end
  end.

(** [t.lastIndexOf(c, fromIndex)] for a one-character search string: the
    search starts at [fromIndex] clamped to [0, len - 1]. *)
Definition lastIndexOf (t : chars) (c : ascii) (fromIndex : Z) : Z :=
  let len := length t in
  if len <? 1 then -1
  else lastIndexUpTo t c (Z.to_nat (Z.min (Z.max fromIndex 0) (len - 1))).

(** [String.prototype.trim]: tab, LF, VT, FF, CR and space. *)
Definition isWhitespace (c : ascii) : bool :=
  let n := nat_of_ascii c in
  (((9 <=? n) && (n <=? 13)) || (n =? 32))%nat.

Fixpoint trimStart (t : chars) : chars :=
  match t with
  | [] => []
  | c :: t' => if isWhitespace c then trimStart t' else t
  end.

Definition trimEnd (t : chars) : chars := rev (trimStart (rev t)).

Definition trim (t : chars) : chars := trimEnd (trimStart t).

(** [String(n)] for an integer. *)
Definition numberToString (n : Z) : string :=
  NilZero.string_of_int (Z.to_int n).

(** [xs.join(sep)]. *)
Fixpoint join (sep : string) (xs : list string) : string :=
  match xs with
  | [] => ""
  | [x] => x
  | x :: xs' => (x ++ sep ++ join sep xs')%string
  end.

End JS.

(* ================================================================= *)
(** ** src/utils/index.ts *)

(** *** cosineSimilarity *)

(** The body of the [for] loop: the three accumulators after the remaining
    components. The lengths are equal when the loop is entered. *)
Fixpoint cosineLoop (a b : list float) (dotProduct normA normB : float)
  : float * float * float :=
  match a, b with
  | x :: a', y :: b' =>
      cosineLoop a' b' (dotProduct + x * y)%float
                 (normA + x * x)%float (normB + y * y)%float
  | _, _ => (dotProduct, normA, normB)
  end.

Definition cosineSimilarity (a b : list float) : float :=
  if negb (List.length a =? List.length b)%nat then 0%float
  else
    let '(dotProduct, normA, normB) := cosineLoop a b 0 0 0 in
    if ((normA =? 0) || (normB =? 0))%float then 0%float
    else (dotProduct / (PrimFloat.sqrt normA * PrimFloat.sqrt normB))%float.

(** The same function read over the real numbers: every operation exact. *)
Fixpoint cosineLoopR (a b : list R) (dotProduct normA normB : R)
  : R * R * R :=
  match a, b with
  | x :: a', y :: b' =>
      cosineLoopR a' b' (dotProduct + x * y)%R
                  (normA + x * x)%R (normB + y * y)%R
  | _, _ => (dotProduct, normA, normB)
  end.

Definition cosineSimilarityR (a b : list R) : R :=
  if negb (List.length a =? List.length b)%nat then 0%R
  else
    let '(dotProduct, normA, normB) := cosineLoopR a b 0%R 0%R 0%R in
    if Req_dec_T normA 0%R then 0%R
    else if Req_dec_T normB 0%R then 0%R
    else (dotProduct / (R_sqrt.sqrt normA * R_sqrt.sqrt normB))%R.

(** A double that is a number: not NaN, which cosineSimilarity returns when
    a squared norm overflows, and not an infinity. *)
Definition isNumber (x : float) : bool :=
  match Prim2SF x with
  | S754_zero _ | S754_finite _ _ _ => true
  | _ => false
  end.

(** The rational a double denotes. An infinity reads as the power of two
    just beyond the doubles, 2^1024, with its sign: it compares with every
    number as the infinity does. NaN denotes no number and reads as 0; no
    comparison holds of a NaN, and where that matters, in the comparator of
    a sort, [isNumber] tells it apart. *)
Definition exactValue (x : float) : Q :=
  match Prim2SF x with
  | S754_finite s m e =>
      let magnitude :=
        if 0 <=? e then inject_Z (Zpos m * 2 ^ e)
        else Zpos m # Z.to_pos (2 ^ (- e)) in
      if s then (- magnitude)%Q else magnitude
  | S754_infinity s =>
      if s then (- inject_Z (2 ^ 1024))%Q else inject_Z (2 ^ 1024)
  | _ => 0%Q
  end.

(** [cosineSimilarity(a, b)] as the exact number it returns. *)
Definition similarityOfDoubles (a b : list float) : Q :=
  exactValue (cosineSimilarity a b).

(** *** chunkText *)

(** Where the window that starts at [start] ends: [start + chunkSize], or one
    past the last period or newline found searching backwards from there,
    when that break lies past the middle of the window
    ([breakPoint > start + chunkSize / 2]). *)
Definition windowEnd (text : JS.chars) (chunkSize start : Z) : Z :=
  let end_ := start + chunkSize in
  if end_ <? JS.length text then
    let lastPeriod := JS.lastIndexOf text "."%char end_ in
    let lastNewline := JS.lastIndexOf text "010"%char end_ in
    let breakPoint := Z.max lastPeriod lastNewline in
    if 2 * start + chunkSize <? 2 * breakPoint then breakPoint + 1 else end_
  else end_.

(** [start = end - overlap; if (start < 0) start = 0]. *)
Definition nextStart (overlap end_ : Z) : Z :=
  let start := end_ - overlap in
  if start <? 0 then 0 else start.

(** The [while] loop, one iteration per unit of fuel: [None] when the fuel
    runs out with [start < text.length] still true. *)
Fixpoint chunkLoop (fuel : nat) (text : JS.chars) (chunkSize overlap : Z)
    (start : Z) (chunks : list JS.chars) : option (list JS.chars) :=
  if start <? JS.length text then
    match fuel with
    | O => None
    | S fuel' =>
        let end_ := windowEnd text chunkSize start in
        chunkLoop fuel' text chunkSize overlap (nextStart overlap end_)
                  (chunks ++ [JS.trim (JS.slice text start end_)])
    end
  else Some chunks.

Definition nonEmpty (chunk : JS.chars) : bool := 0 <? JS.length chunk.

Definition chunkText (fuel : nat) (text : string) (chunkSize overlap : Z)
  : option (list string) :=
  option_map
    (fun chunks => map string_of_list_ascii (filter nonEmpty chunks))
    (chunkLoop fuel (list_ascii_of_string text) chunkSize overlap 0 []).

(** *** truncateText *)

Definition truncateText (text : string) (maxLength : Z) : string :=
  let t := list_ascii_of_string text in
  if JS.length t <=? maxLength then text
  else (string_of_list_ascii (JS.slice t 0 (maxLength - 3)) ++ "...")%string.

(* ================================================================= *)
(** ** Data model (src/types/index.ts, src/db/schema.ts) *)

Definition Vec := list float.

Inductive AgentMode := INTERNAL | HYBRID | FREE.

Inductive DocumentStatus := pending | processing | completed | failed.

Inductive Decision := DecisionAllowed | DecisionBlocked | DecisionModified.

Inductive Role := RoleSystem | RoleUser | RoleAssistant.

Record Agent := mkAgent {
  agent_id : string;
  agent_tenant_id : string;
  system_prompt : string;          (* null and the empty string are both falsy *)
  model : string;
  temperature : Q;
  mode : AgentMode;
  allowed_topics : list string;
  forbidden_topics : list string;
  cost_limit_daily : Q;
  cost_used_today : Q;
  kill_switch : bool;
  enable_rag : bool;
  is_active : bool
}.

Record Collection := mkCollection {
  collection_id : string;
  collection_tenant_id : string;
  is_global : bool
}.

Record Document := mkDocument {
  doc_id : string;
  doc_collection_id : string;
  doc_name : string;
  file_path : string;
  mime_type : string;
  status : DocumentStatus;
  error_message : option string;
  version : Z
}.

Record Embedding := mkEmbedding {
  emb_document_id : string;
  chunk_index : Z;
  chunk_text : string;
  embedding : Vec
}.

Record RAGEvidence := mkEvidence {
  document_id : string;
  document_name : string;
  document_version : Z;
  ev_chunk_text : string;
  ev_chunk_index : Z;
  similarity_score : Q
}.

Record LLMProvider := mkProvider {
  provider_tenant_id : string;
  base_url : string;
  api_key_encrypted : string;
  is_default : bool;
  provider_is_active : bool
}.

Record ChatMessage := mkMessage {
  msg_tenant_id : string;
  msg_user_id : string;
  msg_agent_id : string;
  conversation_id : string;
  role : Role;
  content : string;
  tokens_used : Z;
  msg_evidence : option (list RAGEvidence)
}.

Record DecisionLog := mkLog {
  log_tenant_id : string;
  log_user_id : string;
  log_agent_id : string;
  action : string;
  decision : Decision;
  log_reason : string;
  input_preview : string;
  output_preview : option string;
  metadata : option (Z * Z * AgentMode)   (* tokensUsed, evidenceCount, mode *)
}.

Record ChatResponse := mkResponse {
  response : string;
  conversationId : string;
  tokensUsed : Z;
  blocked : bool;                   (* absent reads as false *)
  blockReason : option string;
  evidence : option (list RAGEvidence)
}.

Record Db := mkDb {
  agents : list Agent;
  collections : list Collection;
  agent_collections : list (string * string);   (* agent_id, collection_id *)
  documents : list Document;
  embeddings : list Embedding;
  llm_providers : list LLMProvider;
  chat_messages : list ChatMessage;
  decision_logs : list DecisionLog
}.

(** *** The world outside the process *)

Record OpenAI := mkClient { apiKey : string; baseURL : string }.

Record CompletionRequest := mkRequest {
  req_model : string;
  req_messages : list (Role * string);
  req_temperature : Q;
  max_tokens : Z
}.

(** [choices[0]?.message?.content] and [usage?.total_tokens]. *)
Record Completion := mkCompletion {
  completion_content : option string;
  total_tokens : option Z
}.

Inductive ProviderCall :=
| EmbeddingCall (input : string)
| CompletionCall (client : OpenAI) (request : CompletionRequest).

Record World := mkWorld {
  db : Db;
  calls : list ProviderCall;       (* provider calls made so far, oldest first *)
  uuids : nat                      (* how many uuids were drawn *)
}.

(** What a call does: it returns, it throws an [Error] with a message, or it
    never returns. *)
Inductive Outcome (A : Type) :=
| Ok (a : A)
| Throw (message : string)
| Hang.
Arguments Ok {A} a.
Arguments Throw {A} message.
Arguments Hang {A}.

(** What an awaited call of a library or of the provider settles to. *)
Inductive Reply (A : Type) :=
| Resolved (a : A)
| Rejected (message : string).
Arguments Resolved {A} a.
Arguments Rejected {A} message.

(** The statements the store may reject: those whose rejection the sources
    handle (they sit in a [try] block), and the statements of an answered
    chat turn, which sit in none, so that a rejection ends the turn with what
    was written before it left in place. The two selects that open a turn,
    of the agent row and of the provider row, are taken to resolve. *)
Inductive Statement :=
| SelectDocument | MarkProcessing | DeleteEmbeddings
| InsertEmbedding (chunkIndex : Z) | MarkCompleted | MarkFailed
| SelectCollections | SelectEmbeddings
| CheckPgvector | VectorSearch
| InsertDecisionLog
| SelectHistory | UpdateCost | InsertUserMessage | InsertAssistantMessage.

Record Env := mkEnv {
  (** [openai.embeddings.create]: the vector, or the error's message. *)
  embed : string -> Reply Vec;
  (** [openai.chat.completions.create]. *)
  complete : OpenAI -> CompletionRequest -> Reply Completion;
  (** [decrypt] of a stored key. *)
  decrypt : string -> Reply string;
  (** [process.env.OPENAI_API_KEY]. *)
  OPENAI_API_KEY : string;
  (** The [n]-th value of [uuidv4()]. *)
  uuidv4 : nat -> string;
  (** [fs.readFileSync(path, 'utf-8')], [mammoth.extractRawText] and
      [pdfParse] on a stored file. *)
  readFileSync : string -> Reply string;
  mammoth : string -> Reply string;
  pdfParse : string -> Reply string;
  (** The message a statement is rejected with, if it is. *)
  rejects : Statement -> option string;
  (** Whether the [vector] extension is installed, and its cosine distance
      operator [<=>]. *)
  pgvector : bool;
  cosineDistance : Vec -> Vec -> Q;
  (** [s.toLowerCase()] on a text that is not ASCII. *)
  unicode : string -> string;
  (** [cost_used_today + $1] on the REAL column: the number the column holds,
      as the driver reports it, after the store added the second number to
      the first. *)
  realAdd : Q -> Q -> Q;
  (** [Array.prototype.sort] with the comparator [b.similarity -
      a.similarity] on an array in which a similarity is not a number. The
      comparator is then no order, and the order of the result is the
      engine's own: for the similarities in array order, the rank the engine
      gives each position. *)
  sortOrder : list float -> list nat
}.

Definition M (A : Type) : Type := World -> Outcome A * World.

Definition ret {A} (a : A) : M A := fun w => (Ok a, w).

Definition throw {A} (message : string) : M A := fun w => (Throw message, w).

Definition bind {A B} (m : M A) (k : A -> M B) : M B :=
  fun w =>
    match m w with
    | (Ok a, w') => k a w'
    | (Throw e, w') => (Throw e, w')
    | (Hang, w') => (Hang, w')
    end.

(** [try { m } catch (error) { handler(error.message) }]. *)
Definition tryCatch {A} (m : M A) (handler : string -> M A) : M A :=
  fun w =>
    match m w with
    | (Throw e, w') => handler e w'
    | r => r
    end.

Declare Scope monad_scope.
Delimit Scope monad_scope with monad.
Notation "x <- m ;; k" := (bind m (fun x => k))
  (at level 61, m at next level, right associativity) : monad_scope.
Notation "m ;; k" := (bind m (fun _ => k))
  (at level 61, right associativity) : monad_scope.
Local Open Scope monad_scope.

Definition getDb : M Db := fun w => (Ok (db w), w).

Definition modifyDb (f : Db -> Db) : M unit :=
  fun w => (Ok tt, mkWorld (f (db w)) (calls w) (uuids w)).

Definition recordCall (c : ProviderCall) : M unit :=
  fun w => (Ok tt, mkWorld (db w) (calls w ++ [c]) (uuids w)).

Definition await {A} (r : Reply A) : M A :=
  match r with
  | Resolved a => ret a
  | Rejected message => throw message
  end.

Definition hang {A} : M A := fun w => (Hang, w).

(** Comparison of numbers. *)
Definition Qltb (x y : Q) : bool := negb (Qle_bool y x).

(** The literals [0.3] and [0.5]: the doubles nearest to them, as exact
    numbers. No double lies between the double [0.3] and 3/10. *)
Definition SIMILARITY_FLOOR : Q :=
  Eval vm_compute in exactValue 0x1.3333333333333p-2.
Definition CONFIDENCE_FLOOR : Q := 1 # 2.

Definition statusIsCompleted (s : DocumentStatus) : bool :=
  match s with completed => true | _ => false end.

(** The type of the column [embeddings.embedding]: src/db/migrate.ts
    creates it as [embedding JSONB NOT NULL], with or without the [vector]
    extension. *)
Inductive ColumnType := JSONB | VECTOR.

Definition EMBEDDING_COLUMN : ColumnType := JSONB.

(* ================================================================= *)
(** ** src/services/rag.ts: retrieval *)

(** A scored fragment: a row of [scoredChunks], or of the vector search. *)
Record ScoredChunk := mkScored {
  documentId : string;
  documentName : string;
  documentVersion : Z;
  chunkIndex : Z;
  chunkText_ : string;
  similarity : Q
}.

(** A row of the join of [embeddings] with [documents]. *)
Record EmbeddingRow := mkRow {
  row_embedding : Embedding;
  row_document_name : string;
  row_document_version : Z
}.

(** [SELECT DISTINCT c.id FROM collections c LEFT JOIN agent_collections ac
     ON c.id = ac.collection_id
     WHERE c.tenant_id = $1 AND (ac.agent_id = $2 OR c.is_global = true)]. *)
Definition selectCollectionIds (d : Db) (tenantId agentId : string)
  : list string :=
  map collection_id
    (filter (fun c =>
       String.eqb (collection_tenant_id c) tenantId &&
       (existsb (fun ac => String.eqb (snd ac) (collection_id c) &&
                           String.eqb (fst ac) agentId)
                (agent_collections d)
        || is_global c))
     (collections d)).

(** [SELECT e.*, d.name, d.version FROM embeddings e JOIN documents d
     ON e.document_id = d.id
     WHERE d.collection_id = ANY($1) AND d.status = 'completed']. *)
Definition selectEmbeddings (d : Db) (collectionIds : list string)
  : list EmbeddingRow :=
  flat_map (fun e =>
    match find (fun doc => String.eqb (doc_id doc) (emb_document_id e))
               (documents d) with
    | Some doc =>
        if existsb (String.eqb (doc_collection_id doc)) collectionIds
           && statusIsCompleted (status doc)
        then [mkRow e (doc_name doc) (version doc)]
        else []
    | None => []
    end) (embeddings d).

(** [scoredChunks.sort((a, b) => b.similarity - a.similarity)]: the sort is
    stable, so a chunk goes before the first chunk that is not strictly more
    similar. *)
Fixpoint insertBySimilarity (c : ScoredChunk) (l : list ScoredChunk)
  : list ScoredChunk :=
  match l with
  | [] => [c]
  | d :: l' =>
      if Qltb (similarity c) (similarity d)
      then d :: insertBySimilarity c l'
      else c :: l
  end.

Definition sortBySimilarity (l : list ScoredChunk) : list ScoredChunk :=
  fold_right insertBySimilarity [] l.

(** An array put in the order of given ranks: every element goes by the
    rank given for its position (rank 0 where none is given), elements of
    one rank in the order they had. It is a rearrangement of the array, and
    every rearrangement is that of some ranks. *)
Fixpoint withRanks {A} (ranks : list nat) (l : list A) : list (nat * A) :=
  match l with
  | [] => []
  | x :: l' => (hd 0%nat ranks, x) :: withRanks (tl ranks) l'
  end.

Fixpoint insertByRank {A} (x : nat * A) (l : list (nat * A))
  : list (nat * A) :=
  match l with
  | [] => [x]
  | y :: l' =>
      if (fst y <? fst x)%nat then y :: insertByRank x l' else x :: l
  end.

Definition arrange {A} (ranks : list nat) (l : list A) : list A :=
  map snd (fold_right insertByRank [] (withRanks ranks l)).

(** [`[Source: ${documentName} v${documentVersion}]\n${chunkText}`] joined
    with a rule. *)
Definition sourceBlock (c : ScoredChunk) : string :=
  ("[Source: " ++ documentName c ++ " v"
   ++ JS.numberToString (documentVersion c) ++ "]"
   ++ String "010" (chunkText_ c))%string.

Definition RULE : string :=
  String "010" (String "010" ("---" ++ String "010" (String "010" "")))%string.

Definition buildContext (relevantChunks : list ScoredChunk) : string :=
  JS.join RULE (map sourceBlock relevantChunks).

Definition toEvidence (c : ScoredChunk) : RAGEvidence :=
  mkEvidence (documentId c) (documentName c) (documentVersion c)
             (chunkText_ c) (chunkIndex c) (similarity c).

(** The tail both retrieval paths share: the floor, then context and
    evidence. *)
Definition relevantOf (chunks : list ScoredChunk) : list ScoredChunk :=
  filter (fun c => Qltb SIMILARITY_FLOOR (similarity c)) chunks.

Definition contextAndEvidence (relevantChunks : list ScoredChunk)
  : string * list RAGEvidence :=
  match relevantChunks with
  | [] => ("", [])
  | _ => (buildContext relevantChunks, map toEvidence relevantChunks)
  end.

(** A row of [scoredChunks]: the fragment with
    [cosineSimilarity(queryEmbedding, embedding)]. *)
Definition scoreChunk (queryEmbedding : Vec) (row : EmbeddingRow)
  : ScoredChunk :=
  let e := row_embedding row in
  mkScored (emb_document_id e) (row_document_name row)
           (row_document_version row) (chunk_index e) (chunk_text e)
           (similarityOfDoubles queryEmbedding (embedding e)).

Section Services.

Variable env : Env.

(** A statement the source runs inside a [try] block. *)
Definition statement (st : Statement) : M unit :=
  match rejects env st with
  | Some message => throw message
  | None => ret tt
  end.

(** *** generateEmbedding *)
Definition generateEmbedding (text : string) : M Vec :=
  let input :=
    string_of_list_ascii (JS.slice (list_ascii_of_string text) 0 8000) in
  recordCall (EmbeddingCall input) ;;
  match embed env input with
  | Resolved v => ret v
  | Rejected e => throw ("Failed to generate embedding: " ++ e)%string
  end.

(** *** retrieveContext *)

(** [rows.map(...)] and [scoredChunks.sort(...)]: the rows scored and sorted.
    When every similarity is a number the comparator is an order and the
    sort is [sortBySimilarity]; otherwise the order is the engine's. *)
Definition sortChunks (queryEmbedding : Vec) (rows : list EmbeddingRow)
  : list ScoredChunk :=
  let similarities :=
    map (fun row => cosineSimilarity queryEmbedding
                      (embedding (row_embedding row))) rows in
  let scoredChunks := map (scoreChunk queryEmbedding) rows in
  if forallb isNumber similarities then sortBySimilarity scoredChunks
  else arrange (sortOrder env similarities) scoredChunks.

Definition retrieveContext (query agentId tenantId : string) (topK : Z)
  : M (string * list RAGEvidence) :=
  tryCatch
    (queryEmbedding <- generateEmbedding query ;;
     statement SelectCollections ;;
     d <- getDb ;;
     let collectionIds := selectCollectionIds d tenantId agentId in
     match collectionIds with
     | [] => ret ("", [])
     | _ =>
         statement SelectEmbeddings ;;
         let rows := selectEmbeddings d collectionIds in
         match rows with
         | [] => ret ("", [])
         | _ =>
             let sorted := sortChunks queryEmbedding rows in
             let topChunks := JS.slice sorted 0 topK in
             ret (contextAndEvidence (relevantOf topChunks))
         end
     end)
    (fun _ => ret ("", [])).

(** *** retrieveContextWithPgVector *)

(** A row of the vector search: the chunk with
    [1 - (e.embedding::vector <=> $1::vector) AS similarity]. *)
Definition pgRow (queryEmbedding : Vec) (row : EmbeddingRow) : ScoredChunk :=
  let e := row_embedding row in
  mkScored (emb_document_id e) (row_document_name row)
           (row_document_version row) (chunk_index e) (chunk_text e)
           (1 - cosineDistance env queryEmbedding (embedding e))%Q.

(** [ORDER BY e.embedding::vector <=> $1::vector], ascending; rows at the
    same distance keep the order of the table. *)
Fixpoint insertByDistance (queryEmbedding : Vec) (r : EmbeddingRow)
    (l : list EmbeddingRow) : list EmbeddingRow :=
  match l with
  | [] => [r]
  | r0 :: l' =>
      if Qltb (cosineDistance env queryEmbedding (embedding (row_embedding r0)))
              (cosineDistance env queryEmbedding (embedding (row_embedding r)))
      then r0 :: insertByDistance queryEmbedding r l'
      else r :: l
  end.

Definition orderByDistance (queryEmbedding : Vec) (l : list EmbeddingRow)
  : list EmbeddingRow :=
  fold_right (insertByDistance queryEmbedding) [] l.

(** [e.embedding::vector]: the server has a cast to [vector] from a column
    of that type and from none of JSONB, so that the statement is rejected
    when the column is JSONB. *)
Definition castToVector (column : ColumnType) : M unit :=
  match column with
  | VECTOR => ret tt
  | JSONB => throw "cannot cast type jsonb to vector"
  end.

(** The vector search statement: it casts the column [embeddings.embedding]
    and the parameter to [vector]; then the same join and filter as
    [selectEmbeddings], [ORDER BY] the distance, [LIMIT $3]. The server
    rejects a negative limit. *)
Definition vectorSearch (d : Db) (queryEmbedding : Vec)
    (collectionIds : list string) (topK : Z) : M (list ScoredChunk) :=
  statement VectorSearch ;;
  castToVector EMBEDDING_COLUMN ;;
  if topK <? 0 then throw "LIMIT must not be negative"
  else
    ret (map (pgRow queryEmbedding)
           (firstn (Z.to_nat topK)
              (orderByDistance queryEmbedding
                 (selectEmbeddings d collectionIds)))).

Definition retrieveContextWithPgVector (query agentId tenantId : string)
    (topK : Z) : M (string * list RAGEvidence) :=
  tryCatch
    (statement CheckPgvector ;;
     if negb (pgvector env)
     then retrieveContext query agentId tenantId topK
     else
       queryEmbedding <- generateEmbedding query ;;
       statement SelectCollections ;;
       d <- getDb ;;
       let collectionIds := selectCollectionIds d tenantId agentId in
       match collectionIds with
       | [] => ret ("", [])
       | _ =>
           rows <- vectorSearch d queryEmbedding collectionIds topK ;;
           ret (contextAndEvidence (relevantOf rows))
       end)
    (fun _ => retrieveContext query agentId tenantId topK).

End Services.

(* ================================================================= *)
(** ** The chat service: governance checks *)

Record CheckResult := mkCheck { allowed : bool; reason : option string }.

Definition QUOTE : string := String "034" "".

(** [messageLower.includes(topic.toLowerCase())]. *)
Definition mentions (env : Env) (messageLower topic : string) : bool :=
  JS.includes messageLower (JS.toLowerCase (unicode env) topic).

(** *** checkContract *)
Definition checkContract (env : Env) (message : string) (agent : Agent)
  : CheckResult :=
  let messageLower := JS.toLowerCase (unicode env) message in
  match find (mentions env messageLower) (forbidden_topics agent) with
  | Some topic =>
      mkCheck false
        (Some ("Message contains forbidden topic: " ++ QUOTE ++ topic ++ QUOTE)%string)
  | None =>
      match allowed_topics agent with
      | [] => mkCheck true None
      | allowedTopics =>
          if existsb (mentions env messageLower) allowedTopics
          then mkCheck true None
          else mkCheck false (Some "Message does not match any allowed topics")
      end
  end.

(** [Math.max(...xs)]: [None] is [-Infinity], the maximum of no number. *)
Definition mathMax (xs : list Q) : option Q :=
  fold_left (fun acc x =>
    match acc with
    | None => Some x
    | Some m => if Qltb m x then Some x else Some m
    end) xs None.

(** *** checkModeRequirements *)
Definition checkModeRequirements (mode : AgentMode) (evidence : list RAGEvidence)
  : CheckResult :=
  match mode with
  | INTERNAL =>
      match evidence with
      | [] =>
          mkCheck false
            (Some "INTERNAL mode requires document evidence. No relevant documents found.")
      | _ =>
          let maxSimilarity := mathMax (map similarity_score evidence) in
          let low := match maxSimilarity with
                     | None => true
                     | Some m => Qltb m CONFIDENCE_FLOOR
                     end in
          if low
          then mkCheck false
                 (Some "INTERNAL mode requires high-confidence evidence. Available evidence has low similarity scores.")
          else mkCheck true None
      end
  | _ => mkCheck true None
  end.

(* ================================================================= *)
(** ** The chat service: chat and chatWithDocument *)

(** [s || fallback] on strings. *)
Definition orElse (s fallback : string) : string :=
  if String.eqb s "" then fallback else s.

Definition selectActiveAgent (d : Db) (agentId tenantId : string) : list Agent :=
  filter (fun a => String.eqb (agent_id a) agentId &&
                   String.eqb (agent_tenant_id a) tenantId &&
                   is_active a) (agents d).

(** An agent row with another [cost_used_today]. *)
Definition withCost (cost : Q) (a : Agent) : Agent :=
  mkAgent (agent_id a) (agent_tenant_id a) (system_prompt a) (model a)
          (temperature a) (mode a) (allowed_topics a) (forbidden_topics a)
          (cost_limit_daily a) cost
          (kill_switch a) (enable_rag a) (is_active a).

(** [UPDATE agents SET cost_used_today = cost_used_today + $1 WHERE id = $2]:
    the sum is the store's, on its REAL column. *)
Definition addCost (env : Env) (agentId : string) (cost : Q) (a : Agent)
  : Agent :=
  if String.eqb (agent_id a) agentId
  then withCost (realAdd env (cost_used_today a) cost) a
  else a.

Definition updateAgents (f : Agent -> Agent) (d : Db) : Db :=
  mkDb (map f (agents d)) (collections d) (agent_collections d) (documents d)
       (embeddings d) (llm_providers d) (chat_messages d) (decision_logs d).

Definition insertMessage (m : ChatMessage) (d : Db) : Db :=
  mkDb (agents d) (collections d) (agent_collections d) (documents d)
       (embeddings d) (llm_providers d) (chat_messages d ++ [m]) (decision_logs d).

Definition insertLog (l : DecisionLog) (d : Db) : Db :=
  mkDb (agents d) (collections d) (agent_collections d) (documents d)
       (embeddings d) (llm_providers d) (chat_messages d) (decision_logs d ++ [l]).

(** [SELECT role, content FROM chat_messages WHERE conversation_id = $1
     ORDER BY created_at ASC LIMIT 20]. *)
Definition selectHistory (d : Db) (conversation : string) : list (Role * string) :=
  map (fun m => (role m, content m))
    (firstn 20 (filter (fun m => String.eqb (conversation_id m) conversation)
                       (chat_messages d))).

Definition INTERNAL_NOTE : string :=
  String "010" (String "010" "IMPORTANT: You must ONLY answer based on the provided context. If the context does not contain relevant information, say so clearly.").

Definition HYBRID_NOTE : string :=
  String "010" (String "010" "Prefer using information from the provided context when available, but you may supplement with your general knowledge when appropriate.").

Definition CONTEXT_HEADER : string :=
  (String "010" (String "010" "## Knowledge Base Context")
   ++ String "010" "Use the following information to answer the user's question. Always cite your sources by mentioning the document name."
   ++ String "010" (String "010" ""))%string.

Definition buildSystemPrompt (agent : Agent) (context : string) : string :=
  let p0 := orElse (system_prompt agent) "You are a helpful AI assistant." in
  let p1 := if String.eqb context "" then p0
            else (p0 ++ CONTEXT_HEADER ++ context)%string in
  match mode agent with
  | INTERNAL => (p1 ++ INTERNAL_NOTE)%string
  | HYBRID => (p1 ++ HYBRID_NOTE)%string
  | FREE => p1
  end.

Definition requestFor (agent : Agent) (messages : list (Role * string))
  : CompletionRequest :=
  mkRequest (orElse (model agent) "gpt-4o") messages
            (if Qeq_bool (temperature agent) 0 then 7 # 10 else temperature agent)
            2000.

(** The double nearest to an integer: a token count as the program holds
    it. *)
Definition floatOfZ (n : Z) : float :=
  SF2Prim (binary_normalize prec emax n 0 false).

(** [(tokensUsed / 1000) * 0.01], on doubles; the literal is the double
    nearest to 0.01. *)
Definition estimateCost (tokensUsed : Z) : Q :=
  exactValue ((floatOfZ tokensUsed / 1000) * 0x1.47ae147ae147bp-7)%float.

Definition reasonText (c : CheckResult) : string :=
  match reason c with Some r => r | None => "" end.

Section Chat.

Variable env : Env.

(** The decision logger swallows a failed insert. *)
Definition logDecision (tenantId userId agentId action : string)
    (decision : Decision) (reason inputPreview : string)
    (outputPreview : option string) (metadata : option (Z * Z * AgentMode))
  : M unit :=
  tryCatch
    (statement env InsertDecisionLog ;;
     modifyDb (insertLog (mkLog tenantId userId agentId action decision reason
                                inputPreview outputPreview metadata)))
    (fun _ => ret tt).

Definition getLLMClient (tenantId : string) : M OpenAI :=
  d <- getDb ;;
  match find (fun p => String.eqb (provider_tenant_id p) tenantId &&
                       is_default p && provider_is_active p)
             (llm_providers d) with
  | Some provider =>
      apiKey <- await (decrypt env (api_key_encrypted provider)) ;;
      ret (mkClient apiKey (base_url provider))
  | None => ret (mkClient (OPENAI_API_KEY env) "")
  end.

(** [openai.chat.completions.create(request)]. *)
Definition createCompletion (openai : OpenAI) (request : CompletionRequest)
  : M Completion :=
  recordCall (CompletionCall openai request) ;;
  await (complete env openai request).

Definition newUuid : M string :=
  fun w => (Ok (uuidv4 env (uuids w)), mkWorld (db w) (calls w) (S (uuids w))).

(** [conversationId || uuidv4()]. *)
Definition orUuid (conversationId : option string) : M string :=
  match conversationId with
  | Some c => if String.eqb c "" then newUuid else ret c
  | None => newUuid
  end.

Definition responseOf (completion : Completion) : string :=
  match completion_content completion with
  | Some c => orElse c "No response generated."
  | None => "No response generated."
  end.

Definition tokensOf (completion : Completion) : Z :=
  match total_tokens completion with Some n => n | None => 0 end.

(** [if (conversationId) { ... pool.query(SELECT role, content ...) ... }]:
    the history of the conversation, when the caller names one; the select
    sits in no [try] block. *)
Definition getHistory (conversationId : option string)
  : M (list (Role * string)) :=
  match conversationId with
  | Some c =>
      if String.eqb c "" then ret []
      else
        statement env SelectHistory ;;
        d <- getDb ;;
        ret (selectHistory d c)
  | None => ret []
  end.

(** *** chat *)
Definition chat (message agentId userId tenantId : string)
    (conversationId : option string) : M ChatResponse :=
  d <- getDb ;;
  match selectActiveAgent d agentId tenantId with
  | [] => throw "Agent not found or inactive"
  | agent :: _ =>
    (* Check kill switch *)
    if kill_switch agent then
      logDecision tenantId userId agentId "chat" DecisionBlocked
                  "Agent kill switch is enabled" message None None ;;
      convId <- orUuid conversationId ;;
      ret (mkResponse
             "This agent is currently disabled. Please contact an administrator."
             convId 0 true (Some "Agent kill switch is enabled") None)
    (* Check daily cost limit *)
    else if Qle_bool (cost_limit_daily agent) (cost_used_today agent) then
      logDecision tenantId userId agentId "chat" DecisionBlocked
                  "Daily cost limit exceeded" message None None ;;
      convId <- orUuid conversationId ;;
      ret (mkResponse
             "This agent has reached its daily usage limit. Please try again tomorrow."
             convId 0 true (Some "Daily cost limit exceeded") None)
    else
    (* Check contract (allowed/forbidden topics) *)
    let contractCheck := checkContract env message agent in
    if negb (allowed contractCheck) then
      logDecision tenantId userId agentId "chat" DecisionBlocked
                  (reasonText contractCheck) message None None ;;
      convId <- orUuid conversationId ;;
      ret (mkResponse
             "I cannot respond to this request as it falls outside my allowed scope."
             convId 0 true (reason contractCheck) None)
    else
    (* Retrieve RAG context if enabled *)
    ragResult <- (if enable_rag agent
                  then retrieveContext env message agentId tenantId 5
                  else ret ("", [])) ;;
    let context := fst ragResult in
    let evidence := snd ragResult in
    (* Check mode requirements *)
    let modeCheck := checkModeRequirements (mode agent) evidence in
    if negb (allowed modeCheck) then
      logDecision tenantId userId agentId "chat" DecisionBlocked
                  (reasonText modeCheck) message None None ;;
      convId <- orUuid conversationId ;;
      ret (mkResponse
             "I cannot answer this question as I don't have sufficient information in my knowledge base."
             convId 0 true (reason modeCheck) (Some []))
    else
    let systemPrompt := buildSystemPrompt agent context in
    convId <- orUuid conversationId ;;
    history <- getHistory conversationId ;;
    let messages :=
      [(RoleSystem, systemPrompt)] ++ history ++ [(RoleUser, message)] in
    (* Call LLM *)
    openai <- getLLMClient tenantId ;;
    completion <- createCompletion openai (requestFor agent messages) ;;
    let response := responseOf completion in
    let tokensUsed := tokensOf completion in
    let estimatedCost := estimateCost tokensUsed in
    (* Update agent cost *)
    statement env UpdateCost ;;
    modifyDb (updateAgents (addCost env agentId estimatedCost)) ;;
    (* Save messages to database *)
    statement env InsertUserMessage ;;
    modifyDb (insertMessage
      (mkMessage tenantId userId agentId convId RoleUser message 0 None)) ;;
    statement env InsertAssistantMessage ;;
    modifyDb (insertMessage
      (mkMessage tenantId userId agentId convId RoleAssistant response
                 tokensUsed (Some evidence))) ;;
    logDecision tenantId userId agentId "chat" DecisionAllowed
      ("Response generated with "
       ++ JS.numberToString (Z.of_nat (List.length evidence))
       ++ " evidence sources")%string
      (truncateText message 200) (Some (truncateText response 200))
      (Some (tokensUsed, Z.of_nat (List.length evidence), mode agent)) ;;
    ret (mkResponse response convId tokensUsed false None (Some evidence))
  end.

(** *** chatWithDocument *)
Definition sliceString (s : string) (from to : Z) : string :=
  string_of_list_ascii (JS.slice (list_ascii_of_string s) from to).

Definition chatWithDocument (message documentContent agentId userId tenantId
    : string) : M ChatResponse :=
  d <- getDb ;;
  match selectActiveAgent d agentId tenantId with
  | [] => throw "Agent not found or inactive"
  | agent :: _ =>
    (* Check kill switch *)
    if kill_switch agent then
      convId <- newUuid ;;
      ret (mkResponse "This agent is currently disabled." convId 0 true
                      (Some "Agent kill switch is enabled") None)
    else
    let systemPrompt :=
      (orElse (system_prompt agent) "You are a helpful AI assistant."
       ++ String "010" (String "010" "## Uploaded Document Content")
       ++ String "010" (sliceString documentContent 0 10000))%string in
    openai <- getLLMClient tenantId ;;
    completion <- createCompletion openai
      (requestFor agent [(RoleSystem, systemPrompt); (RoleUser, message)]) ;;
    let response := responseOf completion in
    let tokensUsed := tokensOf completion in
    convId <- newUuid ;;
    ret (mkResponse response convId tokensUsed false None
           (Some [mkEvidence "uploaded" "Uploaded Document" 1
                    (sliceString documentContent 0 500 ++ "...")%string
                    0 1]))
  end.

End Chat.

(* ================================================================= *)
(** ** src/services/rag.ts: ingestion *)

(** [path.extname]: from the last period of the base name on, unless that
    period is its first character. *)
Definition extname (filePath : string) : string :=
  let p := list_ascii_of_string filePath in
  let slash := JS.lastIndexOf p "/"%char (JS.length p) in
  let base := skipn (Z.to_nat (slash + 1)) p in
  let dot := JS.lastIndexOf base "."%char (JS.length base) in
  if dot <=? 0 then "" else string_of_list_ascii (skipn (Z.to_nat dot) base).

Definition updateDocument (documentId : string) (f : Document -> Document)
    (d : Db) : Db :=
  mkDb (agents d) (collections d) (agent_collections d)
       (map (fun doc => if String.eqb (doc_id doc) documentId then f doc else doc)
            (documents d))
       (embeddings d) (llm_providers d) (chat_messages d) (decision_logs d).

Definition setStatus (s : DocumentStatus) (doc : Document) : Document :=
  mkDocument (doc_id doc) (doc_collection_id doc) (doc_name doc) (file_path doc)
             (mime_type doc) s (error_message doc) (version doc).

Definition setFailed (message : string) (doc : Document) : Document :=
  mkDocument (doc_id doc) (doc_collection_id doc) (doc_name doc) (file_path doc)
             (mime_type doc) failed (Some message) (version doc).

Definition deleteEmbeddings (documentId : string) (d : Db) : Db :=
  mkDb (agents d) (collections d) (agent_collections d) (documents d)
       (filter (fun e => negb (String.eqb (emb_document_id e) documentId))
               (embeddings d))
       (llm_providers d) (chat_messages d) (decision_logs d).

Definition insertEmbedding (e : Embedding) (d : Db) : Db :=
  mkDb (agents d) (collections d) (agent_collections d) (documents d)
       (embeddings d ++ [e])
       (llm_providers d) (chat_messages d) (decision_logs d).

Definition isBlank (text : string) : bool :=
  String.eqb text "" ||
  (JS.length (JS.trim (list_ascii_of_string text)) =? 0).

Section Ingestion.

Variable env : Env.

(** *** extractText *)
Definition extractText (filePath mimeType : string) : M string :=
  let ext := JS.toLowerCase (unicode env) (extname filePath) in
  tryCatch
    (if String.eqb ext ".txt" || String.eqb ext ".md"
        || String.eqb mimeType "text/plain"
        || String.eqb mimeType "text/markdown"
     then await (readFileSync env filePath)
     else if String.eqb ext ".docx"
             || String.eqb mimeType
                  "application/vnd.openxmlformats-officedocument.wordprocessingml.document"
     then await (mammoth env filePath)
     else if String.eqb ext ".pdf" || String.eqb mimeType "application/pdf"
     then await (pdfParse env filePath)
     else await (readFileSync env filePath))
    (fun e => throw ("Failed to extract text from document: " ++ e)%string).

(** The [for] loop over the chunks: a chunk whose embedding or insert
    fails is skipped. *)
Fixpoint storeChunks (documentId : string) (i : Z) (chunks : list string)
  : M unit :=
  match chunks with
  | [] => ret tt
  | chunk :: rest =>
      tryCatch
        (embedding <- generateEmbedding env chunk ;;
         statement env (InsertEmbedding i) ;;
         modifyDb (insertEmbedding (mkEmbedding documentId i chunk embedding)))
        (fun _ => ret tt) ;;
      storeChunks documentId (i + 1) rest
  end.

(** *** processDocument

    [chunkSize] and [chunkOverlap] are [parseInt(process.env.CHUNK_SIZE ||
    '500')] and [parseInt(process.env.CHUNK_OVERLAP || '100')]; [fuel]
    bounds the iterations of the chunker, and the call hangs when the
    chunker does not end within it. *)

(** The [try] block. *)
Definition processDocumentTry (fuel : nat) (chunkSize chunkOverlap : Z)
    (documentId : string) : M unit :=
  statement env SelectDocument ;;
  d <- getDb ;;
  match filter (fun doc => String.eqb (doc_id doc) documentId)
               (documents d) with
  | [] => throw "Document not found"
  | doc :: _ =>
      statement env MarkProcessing ;;
      modifyDb (updateDocument documentId (setStatus processing)) ;;
      text <- extractText (file_path doc) (mime_type doc) ;;
      if isBlank text
      then throw "No text content extracted from document"
      else
        match chunkText fuel text chunkSize chunkOverlap with
        | None => hang
        | Some chunks =>
            statement env DeleteEmbeddings ;;
            modifyDb (deleteEmbeddings documentId) ;;
            storeChunks documentId 0 chunks ;;
            statement env MarkCompleted ;;
            modifyDb (updateDocument documentId (setStatus completed))
        end
  end.

(** The [catch] block. *)
Definition processDocumentCatch (documentId message : string) : M unit :=
  statement env MarkFailed ;;
  modifyDb (updateDocument documentId (setFailed message)) ;;
  throw message.

Definition processDocument (fuel : nat) (chunkSize chunkOverlap : Z)
    (documentId : string) : M unit :=
  tryCatch (processDocumentTry fuel chunkSize chunkOverlap documentId)
           (processDocumentCatch documentId).

End Ingestion.

(** The databases and oracles of the worked examples. *)
Module Example.

(** The cosine distance of the index: one minus the similarity that
    cosineSimilarity computes on doubles. *)
Definition distance0 (q e : Vec) : Q := (1 - similarityOfDoubles q e)%Q.

(** A text given by the bytes of its UTF-8 form. *)
Definition utf8 (bytes : list nat) : string :=
  string_of_list_ascii (map ascii_of_nat bytes).

(** Two Greek words in capitals: [PHOS] is phi, omega, sigma (U+03A6, U+03A9,
    U+03A3), light; [PHOSPHOROS] is the same three letters followed by phi,
    omicron, rho, omicron, sigma (U+03A6, U+039F, U+03A1, U+039F, U+03A3). *)
Definition PHOS : string := utf8 [206; 166; 206; 169; 206; 163]%nat.

Definition PHOSPHOROS : string :=
  utf8 [206; 166; 206; 169; 206; 163;
        206; 166; 206; 159; 206; 161; 206; 159; 206; 163]%nat.

(** Their lower case. A capital sigma becomes the small sigma (U+03C3), and
    the final sigma (U+03C2) where it ends a word: the third letter of
    [PHOS] is lowered one way in [PHOS] and the other way in
    [PHOSPHOROS]. *)
Definition phosLowered : string := utf8 [207; 134; 207; 137; 207; 130]%nat.

Definition phosphorosLowered : string :=
  utf8 [207; 134; 207; 137; 207; 131;
        207; 134; 206; 191; 207; 129; 206; 191; 207; 130]%nat.

(** The lower case of a text that is not ASCII, as far as the examples need
    it. *)
Definition unicode0 (s : string) : string :=
  if String.eqb s PHOS then phosLowered
  else if String.eqb s PHOSPHOROS then phosphorosLowered
  else s.

(** A provider that answers every call (every text is embedded as the first
    unit vector), a store that rejects nothing and adds exactly, the
    extension installed, with that distance, and an engine whose sort leaves
    an array it cannot order as it is. *)
Definition env0 : Env :=
  mkEnv (fun _ => Resolved [1; 0; 0; 0]%float)
        (fun _ _ => Resolved (mkCompletion (Some "ok") (Some 1000)))
        (fun k => Resolved k) "sk-env" (fun _ => "uuid")
        (fun _ => Resolved "Alpha. Beta.") (fun _ => Resolved "docx text")
        (fun _ => Resolved "pdf text")
        (fun _ => None)
        true
        distance0
        unicode0
        Qplus
        (fun _ => []).

(** One tenant, one agent linked to one collection, one completed
    document with three fragments of norm 10, whose similarities to the
    first unit vector are the doubles 0.3, 0.9 and 0.6. *)
Definition agent0 : Agent :=
  mkAgent "agent" "tenant" "" "" 0 HYBRID [] [] 10 0 false true true.

Definition fragments0 : list Embedding :=
  [mkEmbedding "doc" 0 "at the floor" [3; 9; 3; 1]%float;
   mkEmbedding "doc" 1 "close" [9; 3; 3; 1]%float;
   mkEmbedding "doc" 2 "fair" [6; 8; 0; 0]%float].

Definition db0 : Db :=
  mkDb [agent0] [mkCollection "kb" "tenant" false] [("agent", "kb")]
       [mkDocument "doc" "kb" "guide.txt" "/uploads/guide.txt" "text/plain"
                   completed None 1]
       fragments0 [] [] [].

Definition world0 : World := mkWorld db0 [] 0.

(** The same store with the agent's kill switch on. *)
Definition killed : Agent :=
  mkAgent "agent" "tenant" "" "" 0 HYBRID [] [] 10 0 true true true.

Definition worldKilled : World :=
  mkWorld (mkDb [killed] [] [] [] [] [] [] []) [] 0.

(** An INTERNAL agent that has spent exactly its daily limit and forbids
    the topic of the message sent to it below. *)
Definition spent : Agent :=
  mkAgent "agent" "tenant" "" "" 0 INTERNAL ["billing"] ["secrets"] 10 10
          false true true.

Definition worldSpent : World :=
  mkWorld (mkDb [spent] [] [] [] [] [] [] []) [] 0.

(** An agent that forbids the topic [PHOS]. *)
Definition hellenist : Agent :=
  mkAgent "agent" "tenant" "" "" 0 FREE [] [PHOS] 10 0 false true true.

(** The store rejects the update to [completed], and nothing else. *)
Definition envCompletedRejected : Env :=
  mkEnv (embed env0) (complete env0) (decrypt env0) (OPENAI_API_KEY env0)
        (uuidv4 env0) (readFileSync env0) (mammoth env0) (pdfParse env0)
        (fun st => match st with
                   | MarkCompleted => Some "deadlock detected"
                   | _ => None
                   end)
        (pgvector env0) (cosineDistance env0) (unicode env0) (realAdd env0)
        (sortOrder env0).

(** The stored file cannot be read. *)
Definition envUnreadable : Env :=
  mkEnv (embed env0) (complete env0) (decrypt env0) (OPENAI_API_KEY env0)
        (uuidv4 env0) (fun _ => Rejected "ENOENT") (mammoth env0)
        (pdfParse env0) (rejects env0)
        (pgvector env0) (cosineDistance env0) (unicode env0) (realAdd env0)
        (sortOrder env0).

(** A document just uploaded: pending, no fragment stored. *)
Definition worldPending : World :=
  mkWorld (mkDb [agent0] [mkCollection "kb" "tenant" false] [("agent", "kb")]
             [mkDocument "doc" "kb" "guide.txt" "/uploads/guide.txt"
                         "text/plain" pending None 1]
             [] [] [] []) [] 0.

End Example.

(* ================================================================= *)
(** * Vocabulary of the properties *)

(** [sub] occurs in [s]. *)
Definition Substring (sub s : string) : Prop :=
  exists pre post, s = (pre ++ sub ++ post)%string.

(** An ASCII capital letter and its small letter. *)
Definition capitalOf (small capital : ascii) : Prop :=
  (65 <= nat_of_ascii capital <= 90)%nat
  /\ nat_of_ascii small = (nat_of_ascii capital + 32)%nat.

(** Two characters are the same, letter case aside. *)
Definition sameLetter (c d : ascii) : Prop :=
  c = d \/ capitalOf c d \/ capitalOf d c.

(** Two texts are the same, letter case aside. *)
Definition EqualIgnoringCase (s t : string) : Prop :=
  Forall2 sameLetter (list_ascii_of_string s) (list_ascii_of_string t).

(** The message contains the topic, letter case aside: a piece of the
    message is the topic but for the case of its letters. *)
Definition ContainsIgnoringCase (message topic : string) : Prop :=
  exists pre piece post,
    message = (pre ++ piece ++ post)%string /\ EqualIgnoringCase piece topic.

(** The lower-cased message contains the lower-cased topic: what
    checkContract tests. *)
Definition Mentions (env : Env) (message topic : string) : Prop :=
  Substring (JS.toLowerCase (unicode env) topic)
            (JS.toLowerCase (unicode env) message).

Definition forbiddenReason (topic : string) : string :=
  ("Message contains forbidden topic: " ++ QUOTE ++ topic ++ QUOTE)%string.

(** The rule of checkContract, for a reading [contains] of "the message
    contains the topic": the first forbidden topic of the list that the
    message contains blocks it and is cited, whatever the allowed topics
    are; with no forbidden topic contained and some topic allowed, the
    message is blocked with the generic reason unless it contains an allowed
    topic; otherwise it is allowed. *)
Definition contractRule (contains : string -> string -> Prop)
    (check : CheckResult) (message : string) (agent : Agent) : Prop :=
  (Exists (contains message) (forbidden_topics agent) ->
   exists before topic after,
     forbidden_topics agent = before ++ topic :: after
     /\ contains message topic
     /\ Forall (fun t => ~ contains message t) before
     /\ check = mkCheck false (Some (forbiddenReason topic)))
  /\ (Forall (fun t => ~ contains message t) (forbidden_topics agent) ->
      allowed_topics agent <> [] ->
      Forall (fun t => ~ contains message t) (allowed_topics agent) ->
      check = mkCheck false (Some "Message does not match any allowed topics"))
  /\ (Forall (fun t => ~ contains message t) (forbidden_topics agent) ->
      allowed_topics agent = []
      \/ Exists (contains message) (allowed_topics agent) ->
      check = mkCheck true None).

(** The claim of C3 about forbidden topics, as stated: a message that
    contains a forbidden topic, letter case aside, is blocked. *)
Definition blocksWhatItContains (env : Env) (message : string) (agent : Agent)
  : Prop :=
  Exists (ContainsIgnoringCase message) (forbidden_topics agent) ->
  allowed (checkContract env message agent) = false.

(** [m] is the largest number of [xs]. *)
Definition isMaximum (m : Q) (xs : list Q) : Prop :=
  In m xs /\ forall x, In x xs -> (x <= m)%Q.

Definition NO_EVIDENCE : string :=
  "INTERNAL mode requires document evidence. No relevant documents found.".

Definition LOW_CONFIDENCE : string :=
  "INTERNAL mode requires high-confidence evidence. Available evidence has low similarity scores.".

Definition KILL_RESPONSE : string :=
  "This agent is currently disabled. Please contact an administrator.".

Definition LIMIT_RESPONSE : string :=
  "This agent has reached its daily usage limit. Please try again tomorrow.".

(** The request chatWithDocument sends for an agent. *)
Definition documentRequest (agent : Agent) (message documentContent : string)
  : CompletionRequest :=
  requestFor agent
    [(RoleSystem,
      (orElse (system_prompt agent) "You are a helpful AI assistant."
       ++ String "010" (String "010" "## Uploaded Document Content")
       ++ String "010" (sliceString documentContent 0 10000))%string);
     (RoleUser, message)].

Definition uploadedEvidence (documentContent : string) : RAGEvidence :=
  mkEvidence "uploaded" "Uploaded Document" 1
             (sliceString documentContent 0 500 ++ "...")%string 0 1.

(** [a] ranks no lower than [b]. *)
Definition atLeastAsSimilar (a b : ScoredChunk) : Prop :=
  (similarity b <= similarity a)%Q.

(** The text sent to the embedding provider for a query. *)
Definition queryInput (query : string) : string :=
  string_of_list_ascii (JS.slice (list_ascii_of_string query) 0 8000).

(** The scored candidate fragments of an agent: the fragments of completed
    documents in the collections linked to the agent or global in the
    tenant, each with its similarity to the query vector. *)
Definition candidates (d : Db) (tenantId agentId : string)
    (queryEmbedding : Vec) : list ScoredChunk :=
  map (scoreChunk queryEmbedding)
      (selectEmbeddings d (selectCollectionIds d tenantId agentId)).

(** What the linear scan returns from the sorted candidates: the first
    [topK], then the floor. *)
Definition retrievedFrom (sorted : list ScoredChunk) (topK : Z)
  : string * list RAGEvidence :=
  contextAndEvidence (relevantOf (JS.slice sorted 0 topK)).

(** What it returns from the scored candidates when their scores are
    numbers. *)
Definition retrieved (scored : list ScoredChunk) (topK : Z)
  : string * list RAGEvidence :=
  retrievedFrom (sortBySimilarity scored) topK.

(** The candidates as the sort of retrieveContext leaves them. *)
Definition sortedCandidates (env : Env) (d : Db) (tenantId agentId : string)
    (queryEmbedding : Vec) : list ScoredChunk :=
  sortChunks env queryEmbedding
             (selectEmbeddings d (selectCollectionIds d tenantId agentId)).

(** The claim that a result at or above the floor survives, as stated. *)
Definition survivesAtFloor (env : Env) (w : World)
    (query agentId tenantId : string) (topK : Z) : Prop :=
  forall queryEmbedding c,
    embed env (queryInput query) = Resolved queryEmbedding ->
    In c (JS.slice (sortBySimilarity
                      (candidates (db w) tenantId agentId queryEmbedding))
                   0 topK) ->
    (SIMILARITY_FLOOR <= similarity c)%Q ->
    exists context evidence,
      fst (retrieveContext env query agentId tenantId topK w)
      = Ok (context, evidence)
      /\ In (toEvidence c) evidence.

(** The claim that the evidence list has at most [topK] items, as stated. *)
Definition atMostTopK (env : Env) (w : World)
    (query agentId tenantId : string) (topK : Z) : Prop :=
  forall context evidence,
    fst (retrieveContext env query agentId tenantId topK w)
    = Ok (context, evidence) ->
    Z.of_nat (List.length evidence) <= topK.

(** The similarity of every candidate fragment to the query vector is a
    number. With a NaN among them the comparator of the sort is not an
    order, and the ranking is whatever the engine's sort makes of it. *)
Definition scoresAreNumbers (d : Db) (tenantId agentId : string)
    (queryEmbedding : Vec) : Prop :=
  Forall (fun row =>
            isNumber (cosineSimilarity queryEmbedding
                        (embedding (row_embedding row))) = true)
         (selectEmbeddings d (selectCollectionIds d tenantId agentId)).

(** The database with another fragment table. *)
Definition withEmbeddings (es : list Embedding) (d : Db) : Db :=
  mkDb (agents d) (collections d) (agent_collections d) (documents d) es
       (llm_providers d) (chat_messages d) (decision_logs d).

(** The fragments of other documents. *)
Definition othersOf (documentId : string) (es : list Embedding)
  : list Embedding :=
  filter (fun e => negb (String.eqb (emb_document_id e) documentId)) es.

(** The database after the fragments of a document were replaced by
    [written], its status set to [processing] before. *)
Definition replaced (documentId : string) (written : list Embedding) (d : Db)
  : Db :=
  withEmbeddings (othersOf documentId (embeddings d) ++ written)
                 (updateDocument documentId (setStatus processing) d).

(** The claim of C6 about the fragments, read two ways: after a failed
    attempt no fragment of the document is in the store that was not there
    before the attempt; after a failed attempt no fragment of the document
    is in the store. *)
Definition attemptFragmentsDeleted (env : Env) (fuel : nat)
    (chunkSize chunkOverlap : Z) (documentId : string) (w : World) : Prop :=
  forall message w',
    processDocument env fuel chunkSize chunkOverlap documentId w
    = (Throw message, w') ->
    forall e, In e (embeddings (db w')) -> emb_document_id e = documentId ->
              In e (embeddings (db w)).

Definition storedFragmentsDeleted (env : Env) (fuel : nat)
    (chunkSize chunkOverlap : Z) (documentId : string) (w : World) : Prop :=
  forall message w',
    processDocument env fuel chunkSize chunkOverlap documentId w
    = (Throw message, w') ->
    forall e, In e (embeddings (db w')) -> emb_document_id e <> documentId.

(** The windows [(start, end)] the loop of chunkText visits, in order:
    the loop itself, recording the bounds instead of the trimmed slice. *)
Fixpoint chunkWindows (fuel : nat) (text : JS.chars) (chunkSize overlap : Z)
    (start : Z) : option (list (Z * Z)) :=
  if start <? JS.length text then
    match fuel with
    | O => None
    | S fuel' =>
        let end_ := windowEnd text chunkSize start in
        option_map (cons (start, end_))
          (chunkWindows fuel' text chunkSize overlap (nextStart overlap end_))
    end
  else Some [].

(** The fragment cut from a window. *)
Definition fragmentOf (text : JS.chars) (w : Z * Z) : JS.chars :=
  JS.trim (JS.slice text (fst w) (snd w)).

(** Reassembly of a text from its fragments: a prefix is cut off each
    fragment, as many characters as [cuts] says, and the rests are
    concatenated. *)
Fixpoint reassemble (cuts : list nat) (fragments : list string)
    {struct fragments} : string :=
  match fragments, cuts with
  | f :: fragments', k :: cuts' =>
      (string_of_list_ascii (skipn k (list_ascii_of_string f))
       ++ reassemble cuts' fragments')%string
  | _, _ => ""
  end.

(** The claims of C7, as stated: the fragments, with some prefix cut off
    each, concatenate to the text; and where the window holds a break point
    past its middle, the fragment has at most [chunkSize] characters. *)
Definition reconstructs (fuel : nat) (text : string) (chunkSize overlap : Z)
  : Prop :=
  forall chunks,
    chunkText fuel text chunkSize overlap = Some chunks ->
    exists cuts, reassemble cuts chunks = text.

Definition hasBreakInside (text : JS.chars) (chunkSize s : Z) : Prop :=
  exists k,
    2 * s + chunkSize < 2 * k /\ k < s + chunkSize
    /\ (nth_error text (Z.to_nat k) = Some "."%char
        \/ nth_error text (Z.to_nat k) = Some "010"%char).

Definition boundedWhereBreakExists (fuel : nat) (text : string)
    (chunkSize overlap : Z) : Prop :=
  forall ws s e,
    chunkWindows fuel (list_ascii_of_string text) chunkSize overlap 0 = Some ws ->
    In (s, e) ws ->
    hasBreakInside (list_ascii_of_string text) chunkSize s ->
    JS.length (fragmentOf (list_ascii_of_string text) (s, e)) <= chunkSize.

(** Every component is a zero: [x === 0], which both zeros of the doubles
    satisfy. *)
Definition allZero (a : list float) : bool :=
  forallb (fun x => (x =? 0)%float) a.

(** An operation on doubles that did not round: its result is a number, and
    that number is the exact product, sum, root or quotient of the numbers
    it was given. *)
Definition exactProduct (x y : float) : bool :=
  isNumber (x * y)
  && Qeq_bool (exactValue (x * y)) (exactValue x * exactValue y).

Definition exactSum (x y : float) : bool :=
  isNumber (x + y)
  && Qeq_bool (exactValue (x + y)) (exactValue x + exactValue y).

Definition exactRoot (x : float) : bool :=
  isNumber (PrimFloat.sqrt x)
  && Qle_bool 0 (exactValue (PrimFloat.sqrt x))
  && Qeq_bool (exactValue (PrimFloat.sqrt x) * exactValue (PrimFloat.sqrt x))
              (exactValue x).

Definition exactQuotient (x y : float) : bool :=
  isNumber (x / y)
  && Qeq_bool (exactValue (x / y) * exactValue y) (exactValue x).

(** No operation of the loop of cosineSimilarity rounds. *)
Fixpoint exactLoop (a b : list float) (dotProduct normA normB : float)
  : bool :=
  match a, b with
  | x :: a', y :: b' =>
      exactProduct x y && exactSum dotProduct (x * y)
      && exactProduct x x && exactSum normA (x * x)
      && exactProduct y y && exactSum normB (y * y)
      && exactLoop a' b' (dotProduct + x * y)%float
                   (normA + x * x)%float (normB + y * y)%float
  | _, _ => true
  end.

(** An evaluation of cosineSimilarity in which nothing rounds: the
    components are numbers, and so is every intermediate result, each the
    exact result of its operation. *)
Definition exactRun (a b : list float) : bool :=
  forallb isNumber a && forallb isNumber b
  && exactLoop a b 0 0 0
  && (let '(dotProduct, normA, normB) := cosineLoop a b 0 0 0 in
      ((normA =? 0) || (normB =? 0))%float
      || (exactRoot normA && exactRoot normB
          && exactProduct (PrimFloat.sqrt normA) (PrimFloat.sqrt normB)
          && exactQuotient dotProduct
               (PrimFloat.sqrt normA * PrimFloat.sqrt normB))).

(** The real number a double denotes. *)
Definition realOf (x : float) : R := Q2R (exactValue x).

(* ================================================================= *)
(** * More of the sources *)

(** ** src/utils/index.ts: sanitizeFilename *)

Definition isLower (c : ascii) : bool :=
  let n := nat_of_ascii c in ((97 <=? n) && (n <=? 122))%nat.

Definition isUpper (c : ascii) : bool :=
  let n := nat_of_ascii c in ((65 <=? n) && (n <=? 90))%nat.

Definition isDigit (c : ascii) : bool :=
  let n := nat_of_ascii c in ((48 <=? n) && (n <=? 57))%nat.

(** The class [[a-zA-Z0-9.-]]. *)
Definition isFilenameChar (c : ascii) : bool :=
  isLower c || isUpper c || isDigit c
  || Ascii.eqb c "."%char || Ascii.eqb c "-"%char.

(** [.replace(/[^a-zA-Z0-9.-]/g, '_')]. *)
Definition replaceUnsafe (t : JS.chars) : JS.chars :=
  map (fun c => if isFilenameChar c then c else "_"%char) t.

(** [.replace(/_+/g, '_')]: every run of underscores becomes one
    underscore; of a run, the last underscore is the one kept. *)
Fixpoint squeezeUnderscores (t : JS.chars) : JS.chars :=
  match t with
  | [] => []
  | c :: t' =>
      if Ascii.eqb c "_"%char then
        match t' with
        | d :: _ =>
            if Ascii.eqb d "_"%char then squeezeUnderscores t'
            else c :: squeezeUnderscores t'
        | [] => [c]
        end
      else c :: squeezeUnderscores t'
  end.

Definition sanitizeFilename (filename : string) : string :=
  string_of_list_ascii
    (JS.slice (squeezeUnderscores
                 (replaceUnsafe (list_ascii_of_string filename))) 0 200).

(** ** src/utils/index.ts: encrypt and decrypt *)

(** A buffer is a list of bytes. A text is taken as the bytes of its UTF-8
    encoding, one byte per character, which is so for ASCII. *)
Definition Buffer := list ascii.

(** [buffer.toString('hex')]: two lower-case digits per byte. *)
Definition hexDigit (n : nat) : ascii :=
  nth n (list_ascii_of_string "0123456789abcdef") "0"%char.

Definition toHex (b : Buffer) : JS.chars :=
  flat_map (fun c => [hexDigit (nat_of_ascii c / 16);
                      hexDigit (nat_of_ascii c mod 16)]) b.

(** [Buffer.from(text, 'hex')]: decoding stops at the first pair that is not
    two hexadecimal digits. *)
Definition hexValue (c : ascii) : option nat :=
  let n := nat_of_ascii c in
  if isDigit c then Some (n - 48)%nat
  else if ((97 <=? n) && (n <=? 102))%nat then Some (n - 87)%nat
  else if ((65 <=? n) && (n <=? 70))%nat then Some (n - 55)%nat
  else None.

Fixpoint fromHex (t : JS.chars) : Buffer :=
  match t with
  | a :: b :: t' =>
      match hexValue a, hexValue b with
      | Some x, Some y => ascii_of_nat (16 * x + y) :: fromHex t'
      | _, _ => []
      end
  | _ => []
  end.

(** [text.split(sep)] for a one-character separator. *)
Fixpoint split (sep : ascii) (t : JS.chars) : list JS.chars :=
  match t with
  | [] => [[]]
  | c :: t' =>
      if Ascii.eqb c sep then [] :: split sep t'
      else
        match split sep t' with
        | part :: parts => (c :: part) :: parts
        | [] => [[c]]
        end
  end.

Definition KEY_ERROR : string := "ENCRYPTION_KEY must be at least 32 characters".

Section Cipher.

(** AES-256-GCM as the crypto module provides it: sealing a text under a
    key and an initialisation vector gives the cipher text and the
    authentication tag, opening gives the text back, and either fails with
    the module's message (a key that is not 32 bytes long, a tag that does
    not fit). *)
Variable seal : Buffer -> Buffer -> Buffer -> Reply (Buffer * Buffer).
Variable unseal : Buffer -> Buffer -> Buffer -> Buffer -> Reply Buffer.

(** [Buffer.from(key.slice(0, 32))]. *)
Definition keyBuffer (key : string) : Buffer :=
  JS.slice (list_ascii_of_string key) 0 32.

(** [!key || key.length < 32], the key being [process.env.ENCRYPTION_KEY]. *)
Definition keyTooShort (ENCRYPTION_KEY : option string) : bool :=
  match ENCRYPTION_KEY with
  | None => true
  | Some key => JS.length (list_ascii_of_string key) <? 32
  end.

(** [encrypt(text)], with the vector [crypto.randomBytes(16)] drew. *)
Definition encrypt (ENCRYPTION_KEY : option string) (iv : Buffer)
    (text : string) : Reply string :=
  match ENCRYPTION_KEY with
  | None => Rejected KEY_ERROR
  | Some key =>
      if keyTooShort (Some key) then Rejected KEY_ERROR
      else
        match seal (keyBuffer key) iv (list_ascii_of_string text) with
        | Resolved (encrypted, authTag) =>
            Resolved (string_of_list_ascii
                        (toHex iv ++ [":"%char] ++ toHex authTag ++ [":"%char]
                         ++ toHex encrypted))
        | Rejected e => Rejected e
        end
  end.

(** [decrypt(encryptedText)]. *)
Definition decryptText (ENCRYPTION_KEY : option string)
    (encryptedText : string) : Reply string :=
  match ENCRYPTION_KEY with
  | None => Rejected KEY_ERROR
  | Some key =>
      if keyTooShort (Some key) then Rejected KEY_ERROR
      else
        match split ":"%char (list_ascii_of_string encryptedText) with
        | [ivHex; authTagHex; encrypted] =>
            match unseal (keyBuffer key) (fromHex ivHex) (fromHex authTagHex)
                         (fromHex encrypted) with
            | Resolved text => Resolved (string_of_list_ascii text)
            | Rejected e => Rejected e
            end
        | _ => Rejected "Invalid encrypted text format"
        end
  end.

End Cipher.

(** ** src/middleware/auth.ts (unnamed/part_001) *)

(** The claims of a token. The role is whatever the token says. *)
Record JWTPayload := mkPayload {
  jwt_userId : string;
  jwt_email : string;
  jwt_role : string;
  jwt_tenantId : string
}.

(** What the middleware reads and sets of a request. *)
Record Request := mkReq {
  authorization : option string;       (* req.headers.authorization *)
  user : option JWTPayload;            (* req.user *)
  req_tenantId : option string         (* req.tenantId *)
}.

(** A middleware answers the request, with a status and an error, or calls
    [next()] with the request as it has made it. *)
Inductive Handled :=
| Responded (status : Z) (error : string)
| Next (req : Request).

Section Middleware.

(** [jwt.verify(token, process.env.JWT_SECRET)]. *)
Variable verify : string -> Reply JWTPayload.

Definition authenticate (req : Request) : Handled :=
  match authorization req with
  | None => Responded 401 "No token provided"
  | Some authHeader =>
      if negb (JS.startsWith authHeader "Bearer ")
      then Responded 401 "No token provided"
      else
        let token :=
          nth 1 (split " "%char (list_ascii_of_string authHeader)) [] in
        match verify (string_of_list_ascii token) with
        | Resolved decoded =>
            Next (mkReq (authorization req) (Some decoded)
                        (Some (jwt_tenantId decoded)))
        | Rejected _ => Responded 401 "Invalid or expired token"
        end
  end.

Definition authorize (allowedRoles : list string) (req : Request) : Handled :=
  match user req with
  | None => Responded 401 "Not authenticated"
  | Some u =>
      if negb (existsb (String.eqb (jwt_role u)) allowedRoles)
      then Responded 403 "Insufficient permissions"
      else Next req
  end.

(** Nothing is checked here: the source leaves it to the route. *)
Definition requireApproval (req : Request) : Handled := Next req.

Definition tenantIsolation (req : Request) : Handled :=
  match user req, req_tenantId req with
  | Some _, Some tenant =>
      if String.eqb tenant "" then Responded 401 "Tenant context required"
      else Next req
  | _, _ => Responded 401 "Tenant context required"
  end.

(** Middlewares in a row, as a route lists them: the first that answers
    ends the request. *)
Fixpoint inOrder (middlewares : list (Request -> Handled)) (req : Request)
  : Handled :=
  match middlewares with
  | [] => Next req
  | m :: rest =>
      match m req with
      | Next req' => inOrder rest req'
      | answered => answered
      end
  end.

End Middleware.

(** ** src/services/logging.ts (unnamed/part_005): the statement of
       getDecisionLogs *)

(** A parameter handed to [pool.query] besides the statement. *)
Inductive SqlValue :=
| SqlText (s : string)
| SqlDate (time : Z)
| SqlNumber (n : Z).

(** The filters of getDecisionLogs. An absent number stands for
    [undefined] and for [NaN], which [parseInt] yields in the routes. *)
Record DecisionLogFilters := mkFilters {
  filter_userId : option string;
  filter_agentId : option string;
  filter_decision : option string;
  filter_startDate : option Z;
  filter_endDate : option Z;
  filter_limit : option Z;
  filter_offset : option Z
}.

(** [if (value)] on a string, on a number and on a Date. *)
Definition truthyText (s : option string) : option SqlValue :=
  match s with
  | Some s => if String.eqb s "" then None else Some (SqlText s)
  | None => None
  end.

Definition truthyNumber (n : option Z) : option SqlValue :=
  match n with
  | Some n => if n =? 0 then None else Some (SqlNumber n)
  | None => None
  end.

Definition truthyDate (d : option Z) : option SqlValue := option_map SqlDate d.

(** The three variables the function builds its statement in. *)
Record SqlStatement := mkSql {
  query : string;
  params : list SqlValue;
  paramIndex : Z
}.

(** [if (value) { query += `${clause}$${paramIndex++}`; params.push(value) }]. *)
Definition addFilter (clause : string) (value : option SqlValue)
    (st : SqlStatement) : SqlStatement :=
  match value with
  | Some v =>
      mkSql (query st ++ clause ++ "$"
                   ++ JS.numberToString (paramIndex st))%string
                  (params st ++ [v]) (paramIndex st + 1)
  | None => st
  end.

(** [query += text]. *)
Definition addText (text : string) (st : SqlStatement) : SqlStatement :=
  mkSql (query st ++ text)%string (params st) (paramIndex st).

Definition NL : string := String "010" "".

Definition DECISION_LOGS_SELECT : string :=
  (NL ++ "    SELECT dl.*, u.email as user_email, a.name as agent_name"
   ++ NL ++ "    FROM decision_logs dl"
   ++ NL ++ "    JOIN users u ON dl.user_id = u.id"
   ++ NL ++ "    JOIN agents a ON dl.agent_id = a.id"
   ++ NL ++ "    WHERE dl.tenant_id = $1"
   ++ NL ++ "  ")%string.

(** The statement and the parameters getDecisionLogs hands to the pool. *)
Definition getDecisionLogsStatement (tenantId : string)
    (filters : DecisionLogFilters) : SqlStatement :=
  let st := mkSql DECISION_LOGS_SELECT [SqlText tenantId] 2 in
  let st := addFilter " AND dl.user_id = "
                      (truthyText (filter_userId filters)) st in
  let st := addFilter " AND dl.agent_id = "
                      (truthyText (filter_agentId filters)) st in
  let st := addFilter " AND dl.decision = "
                      (truthyText (filter_decision filters)) st in
  let st := addFilter " AND dl.created_at >= "
                      (truthyDate (filter_startDate filters)) st in
  let st := addFilter " AND dl.created_at <= "
                      (truthyDate (filter_endDate filters)) st in
  let st := addText " ORDER BY dl.created_at DESC" st in
  let st := addFilter " LIMIT " (truthyNumber (filter_limit filters)) st in
  addFilter " OFFSET " (truthyNumber (filter_offset filters)) st.

(** ** src/services/logging.ts (unnamed/part_005): logAdminAction, and the
       kill switch route of the agents router (in src/routes/logs.ts, from
       line 415) *)

(** A value of a JSON body, or no value at the key. *)
Inductive JsonValue :=
| JsonAbsent
| JsonNull
| JsonBool (b : bool)
| JsonNumber (n : Q)
| JsonString (s : string)
| JsonStructure.                      (* an array or an object *)

(** [value ? _ : _] and [value === true]. *)
Definition truthy (value : JsonValue) : bool :=
  match value with
  | JsonAbsent | JsonNull => false
  | JsonBool b => b
  | JsonNumber n => negb (Qeq_bool n 0)
  | JsonString s => negb (String.eqb s "")
  | JsonStructure => true
  end.

Definition isTrue (value : JsonValue) : bool :=
  match value with JsonBool true => true | _ => false end.

(** A header that may be sent once or several times. *)
Inductive HeaderValue :=
| OneValue (s : string)
| Values (l : list string).

(** What a route behind authenticate reads of a request. *)
Record AdminRequest := mkAdminRequest {
  admin : JWTPayload;                    (* req.user *)
  admin_tenantId : string;               (* req.tenantId *)
  params_id : string;                    (* req.params.id *)
  ip : option string;                    (* req.ip *)
  forwardedFor : option HeaderValue;     (* req.headers['x-forwarded-for'] *)
  userAgent : option string              (* req.headers['user-agent'] *)
}.

Record AdminActionLog := mkAdminAction {
  action_tenant_id : string;
  admin_id : string;
  admin_action : string;
  target_type : string;
  target_id : option string;
  changes : list (string * JsonValue);
  ip_address : option string;
  user_agent : string
}.

(** The server: the world of the services, and the table of admin actions,
    which only the routes write. *)
Record Server := mkServer {
  world : World;
  admin_action_logs : list AdminActionLog
}.

(** The statements of the route and of its logger. *)
Inductive RouteStatement := UpdateAgent | InsertAdminAction.

(** What a route answers: [res.status(status).json({ success, message })],
    the text being the message or the error. *)
Record Response := mkRes {
  res_status : Z;
  res_success : bool;
  res_text : string
}.

(** [req.ip || req.headers['x-forwarded-for'] || 'unknown'], then the first
    value if it is not a string; an array is truthy, empty or not. *)
Definition ipAddressOf (req : AdminRequest) : option string :=
  let fallback :=
    match forwardedFor req with
    | Some (OneValue s) => if String.eqb s "" then Some "unknown" else Some s
    | Some (Values l) => hd_error l
    | None => Some "unknown"
    end in
  match ip req with
  | Some address => if String.eqb address "" then fallback else Some address
  | None => fallback
  end.

Definition userAgentOf (req : AdminRequest) : string :=
  match userAgent req with
  | Some agent => orElse agent "unknown"
  | None => "unknown"
  end.

(** [UPDATE agents SET kill_switch = $1 WHERE id = $2 AND tenant_id = $3
     RETURNING *]. *)
Definition isAgentOf (agentId tenantId : string) (a : Agent) : bool :=
  String.eqb (agent_id a) agentId && String.eqb (agent_tenant_id a) tenantId.

Definition setKillSwitch (value : bool) (a : Agent) : Agent :=
  mkAgent (agent_id a) (agent_tenant_id a) (system_prompt a) (model a)
          (temperature a) (mode a) (allowed_topics a) (forbidden_topics a)
          (cost_limit_daily a) (cost_used_today a) value (enable_rag a)
          (is_active a).

Definition updateAgentOf (agentId tenantId : string) (f : Agent -> Agent)
    (d : Db) : Db :=
  updateAgents (fun a => if isAgentOf agentId tenantId a then f a else a) d.

Definition withDb (d : Db) (s : Server) : Server :=
  mkServer (mkWorld d (calls (world s)) (uuids (world s)))
           (admin_action_logs s).

Section Routes.

(** Whether the pool rejects a statement. *)
Variable refuses : RouteStatement -> bool.

(** The admin logger swallows a failed insert. *)
Definition logAdminAction (req : AdminRequest) (action targetType : string)
    (targetId : option string) (changes : list (string * JsonValue))
    (s : Server) : Server :=
  if refuses InsertAdminAction then s
  else
    mkServer (world s)
      (admin_action_logs s
       ++ [mkAdminAction (admin_tenantId req) (jwt_userId (admin req)) action
                         targetType targetId changes (ipAddressOf req)
                         (userAgentOf req)]).

(** [POST /:id/kill-switch], behind authenticate and authorize; [enabled] is
    [req.body.enabled]. *)
Definition killSwitchRoute (req : AdminRequest) (enabled : JsonValue)
    (s : Server) : Response * Server :=
  if refuses UpdateAgent then (mkRes 500 false "Internal server error", s)
  else
    let d := db (world s) in
    match filter (isAgentOf (params_id req) (admin_tenantId req)) (agents d) with
    | [] => (mkRes 404 false "Agent not found", s)
    | _ =>
        let s1 :=
          withDb (updateAgentOf (params_id req) (admin_tenantId req)
                                (setKillSwitch (isTrue enabled)) d) s in
        let s2 :=
          logAdminAction req "toggle_kill_switch" "agent" (Some (params_id req))
                         [("enabled", enabled)] s1 in
        (mkRes 200 true
               ("Kill switch "
                ++ (if truthy enabled then "enabled" else "disabled"))%string,
         s2)
    end.

End Routes.

(** ** The seed script (unnamed/part_002): slugify *)

(** The class [[a-z0-9]]. *)
Definition isSlugChar (c : ascii) : bool := isLower c || isDigit c.

(** [.replace(/[^a-z0-9]+/g, '-')]: every run of other characters becomes
    one hyphen, written where the run ends. *)
Fixpoint hyphenate (t : JS.chars) : JS.chars :=
  match t with
  | [] => []
  | c :: t' =>
      if isSlugChar c then c :: hyphenate t'
      else
        match t' with
        | d :: _ =>
            if isSlugChar d then "-"%char :: hyphenate t' else hyphenate t'
        | [] => ["-"%char]
        end
  end.

(** [.replace(/(^-|-$)/g, '')]: a hyphen at the start goes, and a hyphen at
    the end of what is left. *)
Definition dropLeadingHyphen (t : JS.chars) : JS.chars :=
  match t with
  | c :: t' => if Ascii.eqb c "-"%char then t' else t
  | [] => []
  end.

Definition dropTrailingHyphen (t : JS.chars) : JS.chars :=
  rev (dropLeadingHyphen (rev t)).

Definition slugify (env : Env) (input : string) : string :=
  string_of_list_ascii
    (dropTrailingHyphen
       (dropLeadingHyphen
          (hyphenate
             (JS.trim (list_ascii_of_string
                         (JS.toLowerCase (unicode env) input)))))).

(* ================================================================= *)
(** * Vocabulary of the further properties *)

(** ** A chat turn, step by step *)

(** The world after [logDecision]: the row appended, unless the insert is
    rejected. *)
Definition logged (env : Env) (row : DecisionLog) (w : World) : World :=
  match rejects env InsertDecisionLog with
  | Some _ => w
  | None => mkWorld (insertLog row (db w)) (calls w) (uuids w)
  end.

(** The world after one more uuid was drawn. *)
Definition drawn (w : World) : World :=
  mkWorld (db w) (calls w) (S (uuids w)).

(** [conversationId || uuidv4()], and the world after it. *)
Definition conversationOf (env : Env) (conversationId : option string)
    (w : World) : string * World :=
  match conversationId with
  | Some c => if String.eqb c "" then (uuidv4 env (uuids w), drawn w) else (c, w)
  | None => (uuidv4 env (uuids w), drawn w)
  end.

(** The row a blocked turn logs: the whole message is its input preview. *)
Definition blockedRow (tenantId userId agentId why message : string)
  : DecisionLog :=
  mkLog tenantId userId agentId "chat" DecisionBlocked why message None None.

(** A blocked turn: the decision is logged, then the response returned. *)
Definition refuse (env : Env) (tenantId userId agentId message : string)
    (conversationId : option string) (text : string) (check : CheckResult)
    (evidence : option (list RAGEvidence)) (w : World)
  : Outcome ChatResponse * World :=
  let w1 := logged env (blockedRow tenantId userId agentId (reasonText check)
                                   message) w in
  let cw := conversationOf env conversationId w1 in
  (Ok (mkResponse text (fst cw) 0 true (reason check) evidence), snd cw).

(** The world after the embedding provider was asked for [input]. *)
Definition asked (input : string) (w : World) : World :=
  mkWorld (db w) (calls w ++ [EmbeddingCall input]) (uuids w).

(** The history a turn sends along. *)
Definition historyOf (conversationId : option string) (d : Db)
  : list (Role * string) :=
  match conversationId with
  | Some c => if String.eqb c "" then [] else selectHistory d c
  | None => []
  end.

(** Whether the caller names a conversation, whose history the turn then
    reads. *)
Definition namesConversation (conversationId : option string) : bool :=
  match conversationId with
  | Some c => negb (String.eqb c "")
  | None => false
  end.

(** The default provider of a tenant, if it has one. *)
Definition defaultProvider (d : Db) (tenantId : string) : option LLMProvider :=
  find (fun p => String.eqb (provider_tenant_id p) tenantId &&
                 is_default p && provider_is_active p)
       (llm_providers d).

(** What getLLMClient settles to. *)
Definition clientOf (env : Env) (d : Db) (tenantId : string) : Reply OpenAI :=
  match defaultProvider d tenantId with
  | Some provider =>
      match decrypt env (api_key_encrypted provider) with
      | Resolved key => Resolved (mkClient key (base_url provider))
      | Rejected e => Rejected e
      end
  | None => Resolved (mkClient (OPENAI_API_KEY env) "")
  end.

(** The request of a turn that reached the provider. *)
Definition chatRequest (agent : Agent) (context : string)
    (conversationId : option string) (d : Db) (message : string)
  : CompletionRequest :=
  requestFor agent
    ([(RoleSystem, buildSystemPrompt agent context)]
     ++ historyOf conversationId d ++ [(RoleUser, message)]).

Definition userMessage (tenantId userId agentId convId message : string)
  : ChatMessage :=
  mkMessage tenantId userId agentId convId RoleUser message 0 None.

Definition assistantMessage (tenantId userId agentId convId answer : string)
    (tokens : Z) (evidence : list RAGEvidence) : ChatMessage :=
  mkMessage tenantId userId agentId convId RoleAssistant answer tokens
            (Some evidence).

(** The database after the cost of an answered turn was added. *)
Definition charged (env : Env) (agentId : string) (tokens : Z) (d : Db) : Db :=
  updateAgents (addCost env agentId (estimateCost tokens)) d.

(** The database after an answered turn was stored: the cost added, then
    the two messages appended. *)
Definition recorded (env : Env)
    (tenantId userId agentId convId message answer : string)
    (tokens : Z) (evidence : list RAGEvidence) (d : Db) : Db :=
  insertMessage
    (assistantMessage tenantId userId agentId convId answer tokens evidence)
    (insertMessage (userMessage tenantId userId agentId convId message)
       (charged env agentId tokens d)).

(** The row an answered turn logs: both previews cut to 200 characters. *)
Definition allowedRow (tenantId userId agentId message answer : string)
    (tokens : Z) (evidence : list RAGEvidence) (agentMode : AgentMode)
  : DecisionLog :=
  mkLog tenantId userId agentId "chat" DecisionAllowed
    ("Response generated with "
     ++ JS.numberToString (Z.of_nat (List.length evidence))
     ++ " evidence sources")%string
    (truncateText message 200) (Some (truncateText answer 200))
    (Some (tokens, Z.of_nat (List.length evidence), agentMode)).

(** The world with another database. *)
Definition withDatabase (d : Db) (w : World) : World :=
  mkWorld d (calls w) (uuids w).

(** The three writes of an answered turn, one after the other and in no
    transaction: the first that the store rejects ends the turn, and what
    was written before it stays. Then the decision is logged and the
    response returned. *)
Definition stored (env : Env) (agent : Agent) (found : list RAGEvidence)
    (message agentId userId tenantId convId : string)
    (completion : Completion) (w : World) : Outcome ChatResponse * World :=
  let text := responseOf completion in
  let tokens := tokensOf completion in
  let d1 := charged env agentId tokens (db w) in
  let d2 := insertMessage (userMessage tenantId userId agentId convId message)
                          d1 in
  match rejects env UpdateCost with
  | Some e => (Throw e, w)
  | None =>
      match rejects env InsertUserMessage with
      | Some e => (Throw e, withDatabase d1 w)
      | None =>
          match rejects env InsertAssistantMessage with
          | Some e => (Throw e, withDatabase d2 w)
          | None =>
              (Ok (mkResponse text convId tokens false None (Some found)),
               logged env
                 (allowedRow tenantId userId agentId message text tokens found
                             (mode agent))
                 (withDatabase
                    (recorded env tenantId userId agentId convId message text
                              tokens found (db w)) w))
          end
      end
  end.

(** A turn that passed the four checks: the history is read, the client
    built, the provider asked, and the answer stored and logged. *)
Definition answer (env : Env) (agent : Agent) (rag : string * list RAGEvidence)
    (message agentId userId tenantId : string)
    (conversationId : option string) (w : World)
  : Outcome ChatResponse * World :=
  let cw := conversationOf env conversationId w in
  let convId := fst cw in
  let w1 := snd cw in
  match (if namesConversation conversationId
         then rejects env SelectHistory else None) with
  | Some e => (Throw e, w1)
  | None =>
      match clientOf env (db w1) tenantId with
      | Rejected e => (Throw e, w1)
      | Resolved openai =>
          let request :=
            chatRequest agent (fst rag) conversationId (db w1) message in
          let w2 := mkWorld (db w1)
                            (calls w1 ++ [CompletionCall openai request])
                            (uuids w1) in
          match complete env openai request with
          | Rejected e => (Throw e, w2)
          | Resolved completion =>
              stored env agent (snd rag) message agentId userId tenantId
                     convId completion w2
          end
      end
  end.

(** What retrieval hands to a turn. *)
Definition ragOf (env : Env) (agent : Agent) (message agentId tenantId : string)
    (w : World) : string * list RAGEvidence :=
  if enable_rag agent then
    match fst (retrieveContext env message agentId tenantId 5 w) with
    | Ok r => r
    | _ => ("", [])
    end
  else ("", []).

Definition KILL_CHECK : CheckResult :=
  mkCheck false (Some "Agent kill switch is enabled").

Definition LIMIT_CHECK : CheckResult :=
  mkCheck false (Some "Daily cost limit exceeded").

Definition SCOPE_RESPONSE : string :=
  "I cannot respond to this request as it falls outside my allowed scope.".

Definition KNOWLEDGE_RESPONSE : string :=
  "I cannot answer this question as I don't have sufficient information in my knowledge base.".

(** A whole turn on an agent row. *)
Definition turn (env : Env) (agent : Agent)
    (message agentId userId tenantId : string)
    (conversationId : option string) (w : World)
  : Outcome ChatResponse * World :=
  if kill_switch agent then
    refuse env tenantId userId agentId message conversationId
           KILL_RESPONSE KILL_CHECK None w
  else if Qle_bool (cost_limit_daily agent) (cost_used_today agent) then
    refuse env tenantId userId agentId message conversationId
           LIMIT_RESPONSE LIMIT_CHECK None w
  else if negb (allowed (checkContract env message agent)) then
    refuse env tenantId userId agentId message conversationId
           SCOPE_RESPONSE (checkContract env message agent) None w
  else
    let rag := ragOf env agent message agentId tenantId w in
    let w1 := if enable_rag agent then asked (queryInput message) w else w in
    if negb (allowed (checkModeRequirements (mode agent) (snd rag))) then
      refuse env tenantId userId agentId message conversationId
             KNOWLEDGE_RESPONSE (checkModeRequirements (mode agent) (snd rag))
             (Some []) w1
    else answer env agent rag message agentId userId tenantId conversationId w1.

(** The same oracles with the insert into the decision log rejected. *)
Definition withLogRejected (env : Env) (message : string) : Env :=
  mkEnv (embed env) (complete env) (decrypt env) (OPENAI_API_KEY env)
        (uuidv4 env) (readFileSync env) (mammoth env) (pdfParse env)
        (fun st => match st with
                   | InsertDecisionLog => Some message
                   | _ => rejects env st
                   end)
        (pgvector env) (cosineDistance env) (unicode env) (realAdd env)
        (sortOrder env).

(** ** Ingestion, step by step *)

(** The rows the loop over the chunks stores, [i] being the index of the
    first chunk: a chunk whose embedding or insert fails leaves no row. *)
Fixpoint fragmentsOf (env : Env) (documentId : string) (i : Z)
    (chunks : list string) : list Embedding :=
  match chunks with
  | [] => []
  | chunk :: rest =>
      match embed env (queryInput chunk), rejects env (InsertEmbedding i) with
      | Resolved v, None => [mkEmbedding documentId i chunk v]
      | _, _ => []
      end ++ fragmentsOf env documentId (i + 1) rest
  end.

(** The embedding calls of the loop: one per chunk, in order. *)
Definition embeddingCalls (chunks : list string) : list ProviderCall :=
  map (fun chunk => EmbeddingCall (queryInput chunk)) chunks.

(** The rows of a document in the table. *)
Definition selectDocument (d : Db) (documentId : string) : list Document :=
  filter (fun doc => String.eqb (doc_id doc) documentId) (documents d).

(** What extractText settles to for a stored file. *)
Definition extracted (env : Env) (filePath mimeType : string) : Outcome string :=
  fst (extractText env filePath mimeType (mkWorld (mkDb [] [] [] [] [] [] [] []) [] 0)).

(** The database after a document was processed into [chunks]. *)
Definition processed (env : Env) (documentId : string) (chunks : list string)
    (d : Db) : Db :=
  updateDocument documentId (setStatus completed)
    (replaced documentId (fragmentsOf env documentId 0 chunks) d).

(** The index of a fragment precedes that of the next. *)
Definition indexBefore (a b : Embedding) : Prop := chunk_index a < chunk_index b.

(** ** Statements and their placeholders *)

(** The placeholders [$n] of a statement, in the order they occur:
    [current] is the number read so far after a dollar sign. *)
Fixpoint placeholdersFrom (t : JS.chars) (current : option Z) : list Z :=
  match t with
  | [] => match current with Some n => [n] | None => [] end
  | c :: t' =>
      if isDigit c then
        placeholdersFrom t'
          (option_map (fun n => 10 * n + Z.of_nat (nat_of_ascii c - 48)) current)
      else
        match current with Some n => [n] | None => [] end
        ++ placeholdersFrom t'
             (if Ascii.eqb c "$"%char then Some 0 else None)
  end.

Definition placeholders (statement : string) : list Z :=
  placeholdersFrom (list_ascii_of_string statement) None.

(** Which filters are given: the seven conditions of the function. *)
Definition given (value : option SqlValue) : bool :=
  match value with Some _ => true | None => false end.

Definition filtersGiven (filters : DecisionLogFilters) : list bool :=
  [given (truthyText (filter_userId filters));
   given (truthyText (filter_agentId filters));
   given (truthyText (filter_decision filters));
   given (truthyDate (filter_startDate filters));
   given (truthyDate (filter_endDate filters));
   given (truthyNumber (filter_limit filters));
   given (truthyNumber (filter_offset filters))].

(** The filters with another limit. *)
Definition withLimit (limit : option Z) (filters : DecisionLogFilters)
  : DecisionLogFilters :=
  mkFilters (filter_userId filters) (filter_agentId filters)
            (filter_decision filters) (filter_startDate filters)
            (filter_endDate filters) limit (filter_offset filters).

(** ** Further worked examples *)
Module Scenario.

(** An agent of any mode that forbids one topic. *)
Definition guarded : Agent :=
  mkAgent "agent" "tenant" "" "" 0 FREE [] ["secrets"] 10 0 false true true.

Definition worldGuarded : World :=
  mkWorld (mkDb [guarded] [] [] [] [] [] [] []) [] 0.

(** An INTERNAL agent with retrieval disabled. *)
Definition sealed : Agent :=
  mkAgent "agent" "tenant" "" "" 0 INTERNAL [] [] 10 0 false false true.

Definition worldSealed : World :=
  mkWorld (mkDb [sealed] [] [] [] [] [] [] []) [] 0.

(** The completion provider rejects every request. *)
Definition envProviderDown : Env :=
  mkEnv (embed Example.env0) (fun _ _ => Rejected "quota exceeded")
        (decrypt Example.env0) (OPENAI_API_KEY Example.env0)
        (uuidv4 Example.env0) (readFileSync Example.env0)
        (mammoth Example.env0) (pdfParse Example.env0) (rejects Example.env0)
        (pgvector Example.env0) (cosineDistance Example.env0)
        (unicode Example.env0) (realAdd Example.env0)
        (sortOrder Example.env0).

(** The embedding provider rejects every request. *)
Definition envEmbeddingDown : Env :=
  mkEnv (fun _ => Rejected "rate limited") (complete Example.env0)
        (decrypt Example.env0) (OPENAI_API_KEY Example.env0)
        (uuidv4 Example.env0) (readFileSync Example.env0)
        (mammoth Example.env0) (pdfParse Example.env0) (rejects Example.env0)
        (pgvector Example.env0) (cosineDistance Example.env0)
        (unicode Example.env0) (realAdd Example.env0)
        (sortOrder Example.env0).

(** A query embedded as [2, 0, 0, 0] and a fragment [2^1023, 0, 0, 0]: the
    dot product overflows, and so does the squared norm of the fragment, so
    that the similarity is Infinity / Infinity, NaN. The two other
    fragments score 0.9 and 0.6. *)
Definition fragmentsOverflow : list Embedding :=
  [mkEmbedding "doc" 0 "overflow" [0x1p1023; 0; 0; 0]%float;
   mkEmbedding "doc" 1 "close" [9; 3; 3; 1]%float;
   mkEmbedding "doc" 2 "fair" [6; 8; 0; 0]%float].

Definition worldOverflow : World :=
  mkWorld (withEmbeddings fragmentsOverflow Example.db0) [] 0.

(** The engine of [env0] leaves an array it cannot order as it is; another
    engine moves its first element behind the others. *)
Definition envDoubled (order : list float -> list nat) : Env :=
  mkEnv (fun _ => Resolved [2; 0; 0; 0]%float) (complete Example.env0)
        (decrypt Example.env0) (OPENAI_API_KEY Example.env0)
        (uuidv4 Example.env0) (readFileSync Example.env0)
        (mammoth Example.env0) (pdfParse Example.env0) (rejects Example.env0)
        (pgvector Example.env0) (cosineDistance Example.env0)
        (unicode Example.env0) (realAdd Example.env0)
        order.

(** The store rejects the insert of the user's message. *)
Definition envMessagesRejected : Env :=
  mkEnv (embed Example.env0) (complete Example.env0)
        (decrypt Example.env0) (OPENAI_API_KEY Example.env0)
        (uuidv4 Example.env0) (readFileSync Example.env0)
        (mammoth Example.env0) (pdfParse Example.env0)
        (fun st => match st with
                   | InsertUserMessage => Some "disk full"
                   | _ => None
                   end)
        (pgvector Example.env0) (cosineDistance Example.env0)
        (unicode Example.env0) (realAdd Example.env0)
        (sortOrder Example.env0).

End Scenario.

(** ** Pieces of a text *)

(** No two neighbours of [t] are both the character [c]. *)
Fixpoint noRun (c : ascii) (t : JS.chars) : Prop :=
  match t with
  | a :: (b :: _) as t' => ~ (a = c /\ b = c) /\ noRun c t'
  | _ => True
  end.

(** [piece] occurs in [t], as a run of consecutive characters. *)
Definition Infix (piece t : JS.chars) : Prop :=
  exists before after, t = before ++ piece ++ after.

(* ================================================================= *)
(** * Properties *)

(** ** Strings *)

Lemma startsWith_spec (s p : string) :
  JS.startsWith s p = true <-> exists post, s = (p ++ post)%string.
Proof.
  revert s; induction p as [|a p IH]; intros s; simpl.
  - split; [intros _; now exists s | intros _; now destruct s].
  - destruct s as [|b s].
    + split; [discriminate | intros [post H]; discriminate].
    + simpl. rewrite andb_true_iff, IH, Ascii.eqb_eq. split.
      * intros [-> [post ->]]. now exists post.
      * intros [post H]. injection H as -> ->. split; [reflexivity | now exists post].
Qed.

Lemma includes_spec (s sub : string) :
  JS.includes s sub = true <-> Substring sub s.
Proof.
  induction s as [|c s IH]; cbn [JS.includes].
  - rewrite orb_false_r, startsWith_spec. split.
    + intros [post H]. exists "", post. exact H.
    + intros [pre [post H]]. destruct pre; simpl in H.
      * now exists post.
      * discriminate.
  - rewrite orb_true_iff, startsWith_spec, IH. split.
    + intros [[post H] | [pre [post H]]].
      * exists "", post. exact H.
      * exists (String c pre), post. simpl. now rewrite H.
    + intros [pre [post H]]. destruct pre as [|c' pre]; simpl in H.
      * left. now exists post.
      * right. injection H as _ H. now exists pre, post.
Qed.

Lemma mentions_spec (env : Env) (message topic : string) :
  mentions env (JS.toLowerCase (unicode env) message) topic = true
  <-> Mentions env message topic.
Proof. apply includes_spec. Qed.

(** *** Letter case on ASCII text *)

Lemma toLowerChar_cases (c : ascii) :
  ((65 <= nat_of_ascii c <= 90)%nat
   /\ nat_of_ascii (JS.toLowerChar c) = (nat_of_ascii c + 32)%nat)
  \/ (~ (65 <= nat_of_ascii c <= 90)%nat /\ JS.toLowerChar c = c).
Proof.
  unfold JS.toLowerChar. pose proof (nat_ascii_bounded c) as Hc.
  destruct ((65 <=? nat_of_ascii c) && (nat_of_ascii c <=? 90))%nat eqn:E.
  - apply andb_true_iff in E. destruct E as [H1 H2].
    apply Nat.leb_le in H1, H2. left. split; [lia|].
    apply nat_ascii_embedding. lia.
  - right. split; [|reflexivity]. intros [H1 H2].
    apply Nat.leb_le in H1, H2. rewrite H1, H2 in E. discriminate.
Qed.

Lemma nat_of_ascii_inj (c d : ascii) : nat_of_ascii c = nat_of_ascii d -> c = d.
Proof.
  intros H. rewrite <- (ascii_nat_embedding c), <- (ascii_nat_embedding d).
  now rewrite H.
Qed.

(** Two characters have the same lower case exactly when they are the same
    letter. *)
Lemma toLowerChar_sameLetter (c d : ascii) :
  JS.toLowerChar c = JS.toLowerChar d <-> sameLetter c d.
Proof.
  unfold sameLetter, capitalOf.
  destruct (toLowerChar_cases c) as [[Hc Hlc] | [Hc Hlc]],
           (toLowerChar_cases d) as [[Hd Hld] | [Hd Hld]].
  - split.
    + intros H. left. apply nat_of_ascii_inj.
      apply (f_equal nat_of_ascii) in H. lia.
    + intros [-> | [[_ H] | [_ H]]]; [reflexivity | lia | lia].
  - rewrite Hld. split.
    + intros <-. right; right. split; [exact Hc | exact Hlc].
    + intros [-> | [[H _] | [_ H]]]; [tauto | tauto |].
      apply nat_of_ascii_inj. lia.
  - rewrite Hlc. split.
    + intros ->. right; left. split; [exact Hd | exact Hld].
    + intros [-> | [[_ H] | [H _]]]; [tauto | | tauto].
      apply nat_of_ascii_inj. lia.
  - rewrite Hlc, Hld. split; [now left|].
    intros [-> | [[H _] | [H _]]]; [reflexivity | tauto | tauto].
Qed.

Lemma lowerAscii_equal (s t : string) :
  JS.lowerAscii s = JS.lowerAscii t <-> EqualIgnoringCase s t.
Proof.
  unfold EqualIgnoringCase. revert t.
  induction s as [|c s IH]; intros [|d t]; cbn [JS.lowerAscii list_ascii_of_string].
  - split; [constructor | reflexivity].
  - split; [discriminate | intros H; inversion H].
  - split; [discriminate | intros H; inversion H].
  - split.
    + intros [= Hc Hs]. constructor; [now apply toLowerChar_sameLetter|].
      now apply IH.
    + intros H. inversion H as [|? ? ? ? Hc Hs]; subst.
      apply toLowerChar_sameLetter in Hc. apply IH in Hs. now rewrite Hc, Hs.
Qed.

Lemma lowerAscii_app (s t : string) :
  JS.lowerAscii (s ++ t) = (JS.lowerAscii s ++ JS.lowerAscii t)%string.
Proof.
  induction s as [|c s IH]; [reflexivity|]. cbn. now rewrite IH.
Qed.

Lemma lowerAscii_split (m x y : string) :
  JS.lowerAscii m = (x ++ y)%string ->
  exists m1 m2,
    m = (m1 ++ m2)%string /\ JS.lowerAscii m1 = x /\ JS.lowerAscii m2 = y.
Proof.
  revert m; induction x as [|c x IH]; intros m H.
  - exists "", m. now repeat split.
  - destruct m as [|d m]; [discriminate|]. cbn in H. injection H as Hc H.
    destruct (IH m H) as (m1 & m2 & -> & H1 & H2).
    exists (String d m1), m2. cbn. now rewrite Hc, H1.
Qed.

(** On lowered ASCII text, containment is containment letter case aside. *)
Lemma lowerAscii_contains (message topic : string) :
  Substring (JS.lowerAscii topic) (JS.lowerAscii message)
  <-> ContainsIgnoringCase message topic.
Proof.
  unfold Substring, ContainsIgnoringCase. split.
  - intros (pre & post & H).
    destruct (lowerAscii_split _ _ _ H) as (m1 & rest & -> & H1 & Hrest).
    destruct (lowerAscii_split _ _ _ Hrest) as (piece & m3 & -> & H2 & H3).
    exists m1, piece, m3. split; [reflexivity|]. now apply lowerAscii_equal.
  - intros (pre & piece & post & -> & Heq).
    apply lowerAscii_equal in Heq.
    exists (JS.lowerAscii pre), (JS.lowerAscii post).
    now rewrite !lowerAscii_app, Heq.
Qed.

(** On ASCII text, what checkContract tests is containment letter case
    aside. *)
Lemma Mentions_ascii (env : Env) (message topic : string) :
  JS.isAscii message = true -> JS.isAscii topic = true ->
  Mentions env message topic <-> ContainsIgnoringCase message topic.
Proof.
  intros Hm Ht. unfold Mentions, JS.toLowerCase. rewrite Hm, Ht.
  apply lowerAscii_contains.
Qed.

Lemma find_none_forall {A} (f : A -> bool) (l : list A) :
  find f l = None <-> Forall (fun x => f x = false) l.
Proof.
  induction l as [|x l IH]; simpl.
  - split; [constructor | reflexivity].
  - destruct (f x) eqn:E.
    + split; [discriminate | intros H; inversion H; congruence].
    + rewrite IH. split; [now constructor | intros H; now inversion H].
Qed.

Lemma find_first {A} (f : A -> bool) (l : list A) (x : A) :
  find f l = Some x ->
  exists before after,
    l = before ++ x :: after /\ f x = true /\ Forall (fun y => f y = false) before.
Proof.
  induction l as [|y l IH]; simpl; [discriminate|].
  destruct (f y) eqn:E.
  - intros [= ->]. exists [], l. repeat split; [exact E | constructor].
  - intros H. destruct (IH H) as (b & a & -> & Hx & Hb).
    exists (y :: b), a. repeat split; [exact Hx | now constructor].
Qed.

(** checkContract follows its rule, read on the lowered texts. *)
Lemma contractRule_checkContract (env : Env) (message : string) (agent : Agent) :
  contractRule (Mentions env) (checkContract env message agent) message agent.
Proof.
  set (lowered := JS.toLowerCase (unicode env) message).
  assert (Hnone : Forall (fun t => ~ Mentions env message t)
                         (forbidden_topics agent) ->
                  find (mentions env lowered) (forbidden_topics agent) = None).
  { intros H. apply find_none_forall. eapply Forall_impl; [|exact H].
    intros t Ht. simpl in Ht. unfold lowered. rewrite <- mentions_spec in Ht.
    now destruct (mentions env _ t). }
  unfold contractRule, checkContract. fold lowered. split; [|split].
  - intros Hex.
    destruct (find (mentions env lowered) (forbidden_topics agent))
      as [topic|] eqn:Hfind.
    + destruct (find_first _ _ _ Hfind) as (b & a & Hl & Hm & Hb).
      exists b, topic, a. repeat split; trivial.
      * now apply mentions_spec.
      * eapply Forall_impl; [|exact Hb]. intros t Ht. simpl in Ht.
        rewrite <- mentions_spec. fold lowered. congruence.
    + exfalso. apply find_none_forall in Hfind.
      apply Exists_exists in Hex. destruct Hex as (t & Hin & Ht).
      rewrite Forall_forall in Hfind. specialize (Hfind t Hin).
      apply mentions_spec in Ht. fold lowered in Ht. congruence.
  - intros Hf Hne Ha. rewrite (Hnone Hf).
    destruct (allowed_topics agent) as [|t0 l] eqn:El; [congruence|].
    replace (existsb (mentions env lowered) (t0 :: l)) with false;
      [reflexivity|].
    symmetry. apply not_true_is_false. intros Hex.
    apply existsb_exists in Hex. destruct Hex as (t & Hin & Ht).
    rewrite Forall_forall in Ha. apply (Ha t Hin). now apply mentions_spec.
  - intros Hf Ha. rewrite (Hnone Hf).
    destruct (allowed_topics agent) as [|t0 l] eqn:El; [reflexivity|].
    destruct Ha as [Ha | Ha]; [discriminate|].
    replace (existsb (mentions env lowered) (t0 :: l)) with true;
      [reflexivity|].
    symmetry. apply existsb_exists. apply Exists_exists in Ha.
    destruct Ha as (t & Hin & Ht). exists t. split; [exact Hin|].
    now apply mentions_spec.
Qed.

(** A rule holds for every reading that agrees, on the topics of the agent,
    with a reading for which it holds. *)
Lemma contractRule_same (contains contains' : string -> string -> Prop)
    (check : CheckResult) (message : string) (agent : Agent) :
  (forall t, In t (forbidden_topics agent) \/ In t (allowed_topics agent) ->
             (contains message t <-> contains' message t)) ->
  contractRule contains check message agent ->
  contractRule contains' check message agent.
Proof.
  intros Hsame (H1 & H2 & H3).
  assert (Hex : forall l, (forall t, In t l -> contains message t <-> contains' message t) ->
                  Exists (contains' message) l -> Exists (contains message) l).
  { intros l Hl H. apply Exists_exists in H. destruct H as (t & Hin & Ht).
    apply Exists_exists. exists t. split; [exact Hin | now apply Hl]. }
  assert (Hall : forall l, (forall t, In t l -> contains message t <-> contains' message t) ->
                  Forall (fun t => ~ contains' message t) l ->
                  Forall (fun t => ~ contains message t) l).
  { intros l Hl H. rewrite Forall_forall in *. intros t Hin Ht.
    apply (H t Hin). now apply Hl. }
  assert (Hf : forall t, In t (forbidden_topics agent) ->
                 contains message t <-> contains' message t)
    by (intros t Ht; apply Hsame; now left).
  assert (Ha : forall t, In t (allowed_topics agent) ->
                 contains message t <-> contains' message t)
    by (intros t Ht; apply Hsame; now right).
  split; [|split].
  - intros H. destruct (H1 (Hex _ Hf H)) as (b & topic & a & Hl & Ht & Hb & Hc).
    exists b, topic, a. split; [exact Hl|].
    assert (Hin : In topic (forbidden_topics agent))
      by (rewrite Hl; apply in_or_app; right; now left).
    split; [now apply Hf|]. split; [|exact Hc].
    rewrite Forall_forall in *. intros t Hin' Ht'. apply (Hb t Hin').
    apply Hf; [|exact Ht']. rewrite Hl. apply in_or_app. now left.
  - intros Hno Hne Hnone. apply H2; [now apply Hall | exact Hne | now apply Hall].
  - intros Hno Hyes. apply H3; [now apply Hall|].
    destruct Hyes as [Hyes | Hyes]; [now left | right; now apply Hex].
Qed.

Lemma forallb_isAscii (l : list string) (t : string) :
  forallb JS.isAscii l = true -> In t l -> JS.isAscii t = true.
Proof. intros H Hin. rewrite forallb_forall in H. now apply H. Qed.

(** C3, as stated, fails on text that is not ASCII. The word [PHOSPHOROS]
    contains the forbidden topic [PHOS] letter for letter. Lowered, the
    sigma that ends [PHOS] is the final sigma, and the same sigma inside
    [PHOSPHOROS] is not: the lowered message does not contain the lowered
    topic, and checkContract allows the message. *)
Lemma checkContract_misses_final_sigma :
  Substring Example.PHOS Example.PHOSPHOROS
  /\ JS.toLowerCase (unicode Example.env0) Example.PHOS = Example.phosLowered
  /\ JS.toLowerCase (unicode Example.env0) Example.PHOSPHOROS
     = Example.phosphorosLowered
  /\ checkContract Example.env0 Example.PHOSPHOROS Example.hellenist
     = mkCheck true None
  /\ ~ blocksWhatItContains Example.env0 Example.PHOSPHOROS Example.hellenist.
Proof.
  assert (Hsub : Substring Example.PHOS Example.PHOSPHOROS).
  { exists "", (Example.utf8 [206; 166; 206; 159; 206; 161; 206; 159; 206; 163]%nat).
    reflexivity. }
  split; [exact Hsub|]. split; [reflexivity|]. split; [reflexivity|].
  split; [reflexivity|].
  intros H. assert (Hblocked : true = false); [|discriminate].
  apply H. constructor. destruct Hsub as (pre & post & Hsub).
  exists pre, Example.PHOS, post. split; [exact Hsub|].
  unfold EqualIgnoringCase.
  induction (list_ascii_of_string Example.PHOS); constructor; [now left | assumption].
Qed.

(** C3, amended. checkContract follows its rule on the lowered texts: the
    first forbidden topic of the list whose lower case occurs in the lower
    case of the message blocks it and is cited, whatever the allowed topics
    are (so a message that also matches an allowed topic is blocked); with
    no forbidden topic matched and some topic allowed, it blocks with the
    generic reason unless an allowed topic is matched; otherwise it allows.
    For a message and topics of ASCII text, a topic is matched exactly when
    the message contains it, letter case aside. *)
Theorem checkContract_forbidden_first_then_allowed
    (env : Env) (message : string) (agent : Agent) :
  contractRule (Mentions env) (checkContract env message agent) message agent
  /\ (JS.isAscii message = true ->
      forallb JS.isAscii (forbidden_topics agent) = true ->
      forallb JS.isAscii (allowed_topics agent) = true ->
      contractRule ContainsIgnoringCase (checkContract env message agent)
                   message agent).
Proof.
  split; [apply contractRule_checkContract|].
  intros Hm Hf Ha.
  apply (contractRule_same (Mentions env)); [|apply contractRule_checkContract].
  intros t [Ht | Ht]; apply Mentions_ascii; trivial.
  - exact (forallb_isAscii _ _ Hf Ht).
  - exact (forallb_isAscii _ _ Ha Ht).
Qed.

Example checkContract_forbidden_beats_allowed :
  checkContract Example.env0 "Tell me about POLITICS and cooking"
    (mkAgent "a" "t" "" "" 0 FREE ["cooking"] ["sports"; "Politics"; "tell"]
             10 0 false true true)
  = mkCheck false (Some (forbiddenReason "Politics")).
Proof. reflexivity. Qed.

(** ** Numbers *)

Lemma Qltb_lt (x y : Q) : Qltb x y = true <-> (x < y)%Q.
Proof.
  unfold Qltb. rewrite negb_true_iff. split.
  - intros H. apply Qnot_le_lt. intros Hle.
    apply Qle_bool_iff in Hle. congruence.
  - intros H. apply not_true_is_false. intros Hle.
    apply Qle_bool_iff in Hle. now apply (Qlt_not_le x y).
Qed.

Lemma Qltb_ge (x y : Q) : Qltb x y = false <-> (y <= x)%Q.
Proof.
  unfold Qltb. rewrite negb_false_iff. apply Qle_bool_iff.
Qed.

Lemma mathMax_fold (xs : list Q) (m0 : Q) :
  exists m,
    fold_left (fun acc x =>
      match acc with
      | None => Some x
      | Some m => if Qltb m x then Some x else Some m
      end) xs (Some m0) = Some m
    /\ (m = m0 \/ In m xs) /\ (m0 <= m)%Q /\ forall x, In x xs -> (x <= m)%Q.
Proof.
  revert m0; induction xs as [|x xs IH]; intros m0; simpl.
  - exists m0. repeat split; [now left | apply Qle_refl | contradiction].
  - destruct (Qltb m0 x) eqn:E.
    + apply Qltb_lt in E. destruct (IH x) as (m & Hm & Hin & Hle & Hall).
      exists m. repeat split; trivial.
      * right. destruct Hin as [-> | Hin]; [now left | now right].
      * apply Qle_trans with x; [now apply Qlt_le_weak | exact Hle].
      * intros y [<- | Hy]; [exact Hle | now apply Hall].
    + apply Qltb_ge in E. destruct (IH m0) as (m & Hm & Hin & Hle & Hall).
      exists m. repeat split; trivial.
      * destruct Hin as [-> | Hin]; [now left | right; now right].
      * intros y [<- | Hy]; [now apply Qle_trans with m0 | now apply Hall].
Qed.

Lemma mathMax_isMaximum (x : Q) (xs : list Q) :
  exists m, mathMax (x :: xs) = Some m /\ isMaximum m (x :: xs).
Proof.
  unfold mathMax; simpl. destruct (mathMax_fold xs x) as (m & Hm & Hin & Hle & Hall).
  exists m. split; [exact Hm|]. split.
  - destruct Hin as [-> | Hin]; [now left | now right].
  - intros y [<- | Hy]; [exact Hle | now apply Hall].
Qed.

(** C2. checkModeRequirements allows every call in mode FREE or HYBRID. In
    mode INTERNAL it blocks an empty evidence list with the no-evidence
    reason; it blocks a non-empty list whose largest similarity score is
    below 0.5 with the low-confidence reason, a different one; and it allows
    exactly when some item scores at least 0.5. *)
Theorem checkModeRequirements_gate (evidence : list RAGEvidence) :
  checkModeRequirements FREE evidence = mkCheck true None
  /\ checkModeRequirements HYBRID evidence = mkCheck true None
  /\ checkModeRequirements INTERNAL [] = mkCheck false (Some NO_EVIDENCE)
  /\ (forall m, isMaximum m (map similarity_score evidence) ->
        (m < CONFIDENCE_FLOOR)%Q ->
        checkModeRequirements INTERNAL evidence
        = mkCheck false (Some LOW_CONFIDENCE))
  /\ (forall m, isMaximum m (map similarity_score evidence) ->
        (CONFIDENCE_FLOOR <= m)%Q ->
        checkModeRequirements INTERNAL evidence = mkCheck true None)
  /\ (allowed (checkModeRequirements INTERNAL evidence) = true
      <-> exists e, In e evidence /\ (1 # 2 <= similarity_score e)%Q)
  /\ NO_EVIDENCE <> LOW_CONFIDENCE.
Proof.
  assert (Hmax : forall e es,
    exists m, mathMax (map similarity_score (e :: es)) = Some m
              /\ isMaximum m (map similarity_score (e :: es))).
  { intros e es. apply mathMax_isMaximum. }
  assert (Hsame : forall m m' xs, isMaximum m xs -> isMaximum m' xs -> (m == m')%Q).
  { intros m m' xs [Hin Hall] [Hin' Hall']. apply Qle_antisym; auto. }
  repeat split; try reflexivity; try discriminate.
  - intros m Hm Hlt. destruct evidence as [|e es]; [destruct Hm as [[] _]|].
    unfold checkModeRequirements. destruct (Hmax e es) as (m' & -> & Hm').
    replace (Qltb m' CONFIDENCE_FLOOR) with true; [reflexivity|].
    symmetry. apply Qltb_lt. now rewrite <- (Hsame m m' _ Hm Hm').
  - intros m Hm Hge. destruct evidence as [|e es]; [destruct Hm as [[] _]|].
    unfold checkModeRequirements. destruct (Hmax e es) as (m' & -> & Hm').
    replace (Qltb m' CONFIDENCE_FLOOR) with false; [reflexivity|].
    symmetry. apply Qltb_ge. now rewrite <- (Hsame m m' _ Hm Hm').
  - destruct evidence as [|e es]; [discriminate|].
    unfold checkModeRequirements. destruct (Hmax e es) as (m' & -> & Hin & Hall).
    destruct (Qltb m' CONFIDENCE_FLOOR) eqn:E; [discriminate|]. intros _.
    apply Qltb_ge in E. apply in_map_iff in Hin. destruct Hin as (e' & <- & Hin).
    exists e'. split; [exact Hin | exact E].
  - intros (e0 & Hin & Hge). destruct evidence as [|e es]; [contradiction|].
    unfold checkModeRequirements. destruct (Hmax e es) as (m' & -> & _ & Hall).
    replace (Qltb m' CONFIDENCE_FLOOR) with false; [reflexivity|].
    symmetry. apply Qltb_ge. apply Qle_trans with (similarity_score e0); [exact Hge|].
    apply Hall. now apply in_map.
Qed.

(** ** Governance of a chat turn *)

(** The decision logger returns normally, makes no provider call and draws
    no uuid, whether or not the insert is rejected. *)
Lemma logDecision_returns env t u a act dec r i o m (w : World) :
  exists d', logDecision env t u a act dec r i o m w
             = (Ok tt, mkWorld d' (calls w) (uuids w)).
Proof.
  unfold logDecision, tryCatch, bind, statement, modifyDb, throw, ret.
  destruct w as [d c n].
  destruct (rejects env InsertDecisionLog); eexists; reflexivity.
Qed.

Lemma orUuid_returns env c (w : World) :
  exists convId n, orUuid env c w = (Ok convId, mkWorld (db w) (calls w) n).
Proof.
  unfold orUuid, newUuid, ret. destruct w as [d cs n].
  destruct c as [c|]; [destruct (String.eqb c "")|];
    eexists; eexists; reflexivity.
Qed.

(** C1. A chat turn on an active agent whose kill switch is on returns a
    blocked response that cites the kill switch, with no token used and no
    provider call made, whatever the message; with the kill switch off and
    [cost_used_today >= cost_limit_daily] (equality included) it returns a
    blocked response that cites the daily cost limit, again before any
    provider call. Both are returned responses, not thrown errors. *)
Theorem chat_blocks_on_kill_switch_then_cost_limit
    (env : Env) (w : World) (message agentId userId tenantId : string)
    (conversationId : option string) (agent : Agent) (others : list Agent) :
  selectActiveAgent (db w) agentId tenantId = agent :: others ->
  (kill_switch agent = true ->
     exists convId w',
       chat env message agentId userId tenantId conversationId w
       = (Ok (mkResponse KILL_RESPONSE convId 0 true
                (Some "Agent kill switch is enabled") None), w')
       /\ calls w' = calls w)
  /\ (kill_switch agent = false ->
      (cost_limit_daily agent <= cost_used_today agent)%Q ->
      exists convId w',
        chat env message agentId userId tenantId conversationId w
        = (Ok (mkResponse LIMIT_RESPONSE convId 0 true
                 (Some "Daily cost limit exceeded") None), w')
        /\ calls w' = calls w).
Proof.
  intros Hagent. split.
  - intros Hkill. unfold chat, bind at 1, getDb. rewrite Hagent, Hkill.
    unfold bind.
    destruct (logDecision_returns env tenantId userId agentId "chat"
                DecisionBlocked "Agent kill switch is enabled" message None None w)
      as (d' & ->).
    destruct (orUuid_returns env conversationId (mkWorld d' (calls w) (uuids w)))
      as (convId & n & ->).
    exists convId; eexists; split; reflexivity.
  - intros Hkill Hcost. unfold chat, bind at 1, getDb. rewrite Hagent, Hkill.
    apply Qle_bool_iff in Hcost. rewrite Hcost. unfold bind.
    destruct (logDecision_returns env tenantId userId agentId "chat"
                DecisionBlocked "Daily cost limit exceeded" message None None w)
      as (d' & ->).
    destruct (orUuid_returns env conversationId (mkWorld d' (calls w) (uuids w)))
      as (convId & n & ->).
    exists convId; eexists; split; reflexivity.
Qed.

Lemma chat_blocks_on_kill_switch_then_cost_limit_witness :
  (exists convId w',
     chat Example.env0 "anything at all" "agent" "user" "tenant" None
          Example.worldKilled
     = (Ok (mkResponse KILL_RESPONSE convId 0 true
              (Some "Agent kill switch is enabled") None), w')
     /\ calls w' = calls Example.worldKilled)
  /\ (exists convId w',
        chat Example.env0 "hello" "agent" "user" "tenant" None
             Example.worldSpent
        = (Ok (mkResponse LIMIT_RESPONSE convId 0 true
                 (Some "Daily cost limit exceeded") None), w')
        /\ calls w' = calls Example.worldSpent).
Proof.
  split.
  - exact (proj1 (chat_blocks_on_kill_switch_then_cost_limit
                    Example.env0 Example.worldKilled "anything at all" "agent"
                    "user" "tenant" None Example.killed [] eq_refl) eq_refl).
  - exact (proj2 (chat_blocks_on_kill_switch_then_cost_limit
                    Example.env0 Example.worldSpent "hello" "agent"
                    "user" "tenant" None Example.spent [] eq_refl)
                 eq_refl (Qle_refl 10)).
Defined.

(** C10. chatWithDocument checks the kill switch and nothing else, and
    writes nothing. On an active agent whose kill switch is on it returns
    the blocked response without any provider call. On one whose kill
    switch is off, whatever the agent's spent and allowed cost, its topics
    and its mode are, it builds the client of the tenant and sends the
    completion request: what the provider answers is what the turn returns
    (and when the tenant's stored key cannot be decrypted, that error is
    thrown before the call). In every case the database is left as it was,
    so no decision is logged and [cost_used_today] is not incremented. *)
Theorem chatWithDocument_checks_only_kill_switch
    (env : Env) (w : World)
    (message documentContent agentId userId tenantId : string)
    (agent : Agent) (others : list Agent) :
  selectActiveAgent (db w) agentId tenantId = agent :: others ->
  let request := documentRequest agent message documentContent in
  let run := chatWithDocument env message documentContent agentId userId tenantId w in
  db (snd run) = db w
  /\ (kill_switch agent = true ->
      fst run = Ok (mkResponse "This agent is currently disabled."
                               (uuidv4 env (uuids w)) 0 true
                               (Some "Agent kill switch is enabled") None)
      /\ calls (snd run) = calls w)
  /\ (kill_switch agent = false ->
      match clientOf env (db w) tenantId with
      | Rejected e => fst run = Throw e /\ calls (snd run) = calls w
      | Resolved openai =>
          calls (snd run) = calls w ++ [CompletionCall openai request]
          /\ fst run =
             match complete env openai request with
             | Resolved completion =>
                 Ok (mkResponse (responseOf completion) (uuidv4 env (uuids w))
                       (tokensOf completion) false None
                       (Some [uploadedEvidence documentContent]))
             | Rejected e => Throw e
             end
      end).
Proof.
  intros Hagent request run.
  assert (Hrun : run =
    if kill_switch agent then
      (Ok (mkResponse "This agent is currently disabled."
                      (uuidv4 env (uuids w)) 0 true
                      (Some "Agent kill switch is enabled") None),
       mkWorld (db w) (calls w) (S (uuids w)))
    else
      match clientOf env (db w) tenantId with
      | Rejected e => (Throw e, w)
      | Resolved openai =>
          match complete env openai request with
          | Resolved completion =>
              (Ok (mkResponse (responseOf completion) (uuidv4 env (uuids w))
                     (tokensOf completion) false None
                     (Some [uploadedEvidence documentContent])),
               mkWorld (db w) (calls w ++ [CompletionCall openai request])
                       (S (uuids w)))
          | Rejected e =>
              (Throw e,
               mkWorld (db w) (calls w ++ [CompletionCall openai request])
                       (uuids w))
          end
      end).
  { subst run. unfold chatWithDocument, bind at 1, getDb. rewrite Hagent.
    destruct (kill_switch agent); [reflexivity|].
    fold (documentRequest agent message documentContent). fold request.
    unfold bind at 1, getLLMClient, bind at 1, getDb, clientOf, defaultProvider.
    destruct (find _ (llm_providers (db w))) as [provider|].
    - unfold bind at 1, await.
      destruct (decrypt env (api_key_encrypted provider)) as [key | e];
        [|reflexivity].
      unfold ret at 1, ret at 1.
      unfold bind, createCompletion, recordCall, await, newUuid, throw, ret;
        cbn.
      destruct (complete env _ request); reflexivity.
    - unfold ret at 1.
      unfold bind, createCompletion, recordCall, await, newUuid, throw, ret;
        cbn.
      destruct (complete env _ request); reflexivity. }
  rewrite Hrun. destruct (kill_switch agent).
  - split; [reflexivity|]. split; [|discriminate]. intros _. split; reflexivity.
  - destruct (clientOf env (db w) tenantId) as [openai | e].
    + destruct (complete env openai request);
        (split; [reflexivity|]); (split; [discriminate|]); intros _;
        split; reflexivity.
    + split; [reflexivity|]. split; [discriminate|]. intros _.
      split; reflexivity.
Qed.

Lemma chatWithDocument_checks_only_kill_switch_witness :
  (let run := chatWithDocument Example.env0 "tell me the secrets" "file text"
                               "agent" "user" "tenant" Example.worldKilled in
   fst run = Ok (mkResponse "This agent is currently disabled." "uuid" 0 true
                            (Some "Agent kill switch is enabled") None)
   /\ calls (snd run) = [])
  /\ (let run := chatWithDocument Example.env0 "tell me the secrets" "file text"
                                  "agent" "user" "tenant" Example.worldSpent in
      calls (snd run)
      = [CompletionCall (mkClient "sk-env" "")
           (documentRequest Example.spent "tell me the secrets" "file text")]
      /\ fst run = Ok (mkResponse "ok" "uuid" 1000 false None
                         (Some [uploadedEvidence "file text"]))
      /\ db (snd run) = db Example.worldSpent).
Proof.
  split.
  - destruct (chatWithDocument_checks_only_kill_switch
                Example.env0 Example.worldKilled "tell me the secrets"
                "file text" "agent" "user" "tenant" Example.killed [] eq_refl)
      as (_ & H & _).
    exact (H eq_refl).
  - destruct (chatWithDocument_checks_only_kill_switch
                Example.env0 Example.worldSpent "tell me the secrets"
                "file text" "agent" "user" "tenant" Example.spent [] eq_refl)
      as (Hdb & _ & H).
    destruct (H eq_refl) as [Hcalls Hout].
    split; [exact Hcalls|]. split; [exact Hout | exact Hdb].
Defined.

(** On the same agent and message, chat stops at the cost limit. *)
Example chat_stops_where_chatWithDocument_goes_on :
  fst (chat Example.env0 "tell me the secrets" "agent" "user" "tenant" None
            Example.worldSpent)
  = Ok (mkResponse LIMIT_RESPONSE "uuid" 0 true
          (Some "Daily cost limit exceeded") None).
Proof. reflexivity. Qed.

(** Building the client makes no provider call and changes nothing. *)
Lemma getLLMClient_pure (env : Env) (tenantId : string) (w : World) :
  snd (getLLMClient env tenantId w) = w.
Proof.
  unfold getLLMClient, bind, getDb, await, throw, ret.
  destruct (find _ (llm_providers (db w))); [|reflexivity].
  destruct (decrypt env _); reflexivity.
Qed.

(** ** Retrieval *)

Lemma insertBySimilarity_perm (c : ScoredChunk) (l : list ScoredChunk) :
  Permutation (insertBySimilarity c l) (c :: l).
Proof.
  induction l as [|d l IH]; simpl; [reflexivity|].
  destruct (Qltb (similarity c) (similarity d)); [|reflexivity].
  rewrite IH. apply perm_swap.
Qed.

Lemma sortBySimilarity_perm (l : list ScoredChunk) :
  Permutation (sortBySimilarity l) l.
Proof.
  induction l as [|c l IH]; simpl; [reflexivity|].
  rewrite insertBySimilarity_perm. now constructor.
Qed.

Lemma insertBySimilarity_ranked (c : ScoredChunk) (l : list ScoredChunk) :
  StronglySorted atLeastAsSimilar l ->
  StronglySorted atLeastAsSimilar (insertBySimilarity c l).
Proof.
  induction 1 as [|d l Hs IH Hd]; simpl; [repeat constructor|].
  destruct (Qltb (similarity c) (similarity d)) eqn:E.
  - constructor; [exact IH|].
    rewrite Forall_forall. intros x Hx.
    apply (Permutation_in _ (insertBySimilarity_perm c l)) in Hx.
    destruct Hx as [<- | Hx].
    + apply Qltb_lt in E. now apply Qlt_le_weak.
    + rewrite Forall_forall in Hd. now apply Hd.
  - apply Qltb_ge in E. constructor; [now constructor|].
    constructor; [exact E|].
    rewrite Forall_forall in *. intros x Hx.
    unfold atLeastAsSimilar in *. apply Qle_trans with (similarity d); auto.
Qed.

Lemma sortBySimilarity_ranked (l : list ScoredChunk) :
  StronglySorted atLeastAsSimilar (sortBySimilarity l).
Proof.
  induction l as [|c l IH]; simpl; [constructor|].
  now apply insertBySimilarity_ranked.
Qed.

Lemma in_firstn {A} (x : A) (n : nat) (l : list A) :
  In x (firstn n l) -> In x l.
Proof.
  revert l; induction n as [|n IH]; intros [|y l]; simpl; try tauto.
  intros [H | H]; [now left | right; now apply IH].
Qed.

Lemma StronglySorted_firstn {A} (R : A -> A -> Prop) (n : nat) (l : list A) :
  StronglySorted R l -> StronglySorted R (firstn n l).
Proof.
  intros H; revert n; induction H as [|x l Hs IH Hx]; intros [|n]; simpl;
    try constructor.
  - apply IH.
  - rewrite Forall_forall in *. intros y Hy. apply Hx.
    eapply in_firstn; eauto.
Qed.

Lemma StronglySorted_filter_keeps {A} (R : A -> A -> Prop) (f : A -> bool)
    (l : list A) :
  StronglySorted R l -> StronglySorted R (filter f l).
Proof.
  induction 1 as [|x l Hs IH Hx]; simpl; [constructor|].
  destruct (f x); [|exact IH]. constructor; [exact IH|].
  rewrite Forall_forall in *. intros y Hy. apply Hx.
  apply filter_In in Hy. tauto.
Qed.

Lemma StronglySorted_map_evidence (l : list ScoredChunk) :
  StronglySorted atLeastAsSimilar l ->
  StronglySorted (fun e1 e2 => (similarity_score e2 <= similarity_score e1)%Q)
                 (map toEvidence l).
Proof.
  induction 1 as [|x l Hs IH Hx]; simpl; constructor; [exact IH|].
  rewrite Forall_forall in *. intros e He.
  apply in_map_iff in He. destruct He as (c & <- & Hc). now apply Hx.
Qed.

(** [l.slice(0, k)] keeps the first [k] elements when [k] is not negative. *)
Lemma slice_from_start {A} (l : list A) (k : Z) :
  0 <= k -> JS.slice l 0 k = firstn (Z.to_nat k) l.
Proof.
  intros Hk. unfold JS.slice, JS.relIndex.
  replace (0 <? 0) with false by reflexivity.
  replace (k <? 0) with false by (symmetry; apply Z.ltb_ge; lia).
  rewrite (Z.min_l 0) by lia. simpl skipn. rewrite Z.sub_0_r.
  destruct (Z.le_ge_cases k (Z.of_nat (List.length l))) as [H | H].
  - now rewrite Z.min_l.
  - rewrite Z.min_r by lia. rewrite Nat2Z.id.
    rewrite firstn_all. symmetry. apply firstn_all2. lia.
Qed.

Lemma selectEmbeddings_no_collection (d : Db) : selectEmbeddings d [] = [].
Proof.
  unfold selectEmbeddings.
  induction (embeddings d) as [|e l IH]; [reflexivity|].
  cbn [flat_map]. rewrite IH. now destruct (find _ (documents d)).
Qed.

Lemma contextAndEvidence_evidence (l : list ScoredChunk) :
  snd (contextAndEvidence l) = map toEvidence l.
Proof. now destruct l. Qed.

Lemma contextAndEvidence_context (l : list ScoredChunk) :
  fst (contextAndEvidence l) = buildContext l.
Proof. now destruct l. Qed.

Lemma slice_nil {A} (s e : Z) : JS.slice (@nil A) s e = [].
Proof. unfold JS.slice. rewrite skipn_nil. apply firstn_nil. Qed.

Lemma insertByRank_perm {A} (x : nat * A) (l : list (nat * A)) :
  Permutation (insertByRank x l) (x :: l).
Proof.
  induction l as [|y l IH]; simpl; [reflexivity|].
  destruct (fst y <? fst x)%nat; [|reflexivity].
  rewrite IH. apply perm_swap.
Qed.

Lemma withRanks_items {A} (ranks : list nat) (l : list A) :
  map snd (withRanks ranks l) = l.
Proof.
  revert ranks; induction l as [|x l IH]; intros ranks; simpl;
    [reflexivity | now rewrite IH].
Qed.

(** Whatever the ranks, the array is rearranged, nothing more. *)
Lemma arrange_perm {A} (ranks : list nat) (l : list A) :
  Permutation (arrange ranks l) l.
Proof.
  unfold arrange. rewrite <- (withRanks_items ranks l) at 2.
  apply Permutation_map.
  induction (withRanks ranks l) as [|x r IH]; simpl; [reflexivity|].
  rewrite insertByRank_perm. now constructor.
Qed.

Lemma sortChunks_perm (env : Env) (queryEmbedding : Vec)
    (rows : list EmbeddingRow) :
  Permutation (sortChunks env queryEmbedding rows)
              (map (scoreChunk queryEmbedding) rows).
Proof.
  unfold sortChunks. destruct (forallb isNumber _);
    [apply sortBySimilarity_perm | apply arrange_perm].
Qed.

(** When the scores are numbers the candidates are ranked by the sort. *)
Lemma sortedCandidates_numbers (env : Env) (d : Db)
    (tenantId agentId : string) (queryEmbedding : Vec) :
  scoresAreNumbers d tenantId agentId queryEmbedding ->
  sortedCandidates env d tenantId agentId queryEmbedding
  = sortBySimilarity (candidates d tenantId agentId queryEmbedding).
Proof.
  unfold scoresAreNumbers, sortedCandidates, sortChunks, candidates.
  intros H.
  replace (forallb isNumber _) with true; [reflexivity|].
  symmetry. apply forallb_forall. intros x Hx.
  apply in_map_iff in Hx. destruct Hx as (row & <- & Hrow).
  rewrite Forall_forall in H. now apply H.
Qed.

Lemma sortedCandidates_perm (env : Env) (d : Db)
    (tenantId agentId : string) (queryEmbedding : Vec) :
  Permutation (sortedCandidates env d tenantId agentId queryEmbedding)
              (candidates d tenantId agentId queryEmbedding).
Proof. apply sortChunks_perm. Qed.

(** What retrieveContext returns, case by case. It never throws. *)
Lemma retrieveContext_run (env : Env) (w : World)
    (query agentId tenantId : string) (topK : Z) :
  fst (retrieveContext env query agentId tenantId topK w) =
  Ok match embed env (queryInput query) with
     | Rejected _ => ("", [])
     | Resolved queryEmbedding =>
         match rejects env SelectCollections with
         | Some _ => ("", [])
         | None =>
             match selectCollectionIds (db w) tenantId agentId with
             | [] => ("", [])
             | _ =>
                 match rejects env SelectEmbeddings with
                 | Some _ => ("", [])
                 | None =>
                     retrievedFrom
                       (sortedCandidates env (db w) tenantId agentId
                                         queryEmbedding) topK
                 end
             end
         end
     end.
Proof.
  unfold retrieveContext, tryCatch, bind at 1, generateEmbedding, bind at 1,
    recordCall. fold (queryInput query).
  destruct (embed env (queryInput query)) as [qv | e]; [|reflexivity].
  unfold ret at 1, bind at 1, statement.
  destruct (rejects env SelectCollections); [reflexivity|].
  unfold ret at 1, bind at 1, getDb; cbn [db].
  unfold sortedCandidates.
  destruct (selectCollectionIds (db w) tenantId agentId) as [|c cs];
    [reflexivity|].
  unfold bind at 1. destruct (rejects env SelectEmbeddings); [reflexivity|].
  unfold ret at 1.
  destruct (selectEmbeddings (db w) (c :: cs)) as [|r rs]; [|reflexivity].
  unfold retrievedFrom, sortChunks, sortBySimilarity.
  cbn [map forallb fold_right]. now rewrite slice_nil.
Qed.

(** What holds of the result in whatever order the candidates were left. *)
Lemma retrievedFrom_properties (sorted : list ScoredChunk) (topK : Z) :
  0 <= topK ->
  let evidence := snd (retrievedFrom sorted topK) in
  Forall (fun e => (SIMILARITY_FLOOR < similarity_score e)%Q) evidence
  /\ Z.of_nat (List.length evidence) <= topK
  /\ (StronglySorted atLeastAsSimilar sorted ->
      StronglySorted
        (fun e1 e2 => (similarity_score e2 <= similarity_score e1)%Q) evidence)
  /\ (evidence = [] -> fst (retrievedFrom sorted topK) = "").
Proof.
  intros Hk evidence. subst evidence. unfold retrievedFrom.
  rewrite contextAndEvidence_evidence, contextAndEvidence_context,
    slice_from_start by exact Hk.
  set (top := firstn (Z.to_nat topK) sorted).
  repeat split.
  - rewrite Forall_forall. intros e He. apply in_map_iff in He.
    destruct He as (c & <- & Hc). apply filter_In in Hc. simpl.
    now apply Qltb_lt.
  - rewrite length_map. unfold relevantOf.
    pose proof (filter_length_le
                  (fun c => Qltb SIMILARITY_FLOOR (similarity c)) top) as H1.
    pose proof (firstn_le_length (Z.to_nat topK) sorted) as H2.
    fold top in H2. lia.
  - intros Hs.
    now apply StronglySorted_map_evidence, StronglySorted_filter_keeps,
      StronglySorted_firstn.
  - intros H. destruct (relevantOf top); [reflexivity | discriminate].
Qed.

(** C4, as stated, fails: the fragment [3, 9, 3, 1], whose similarity to
    the query vector [1, 0, 0, 0] is 3 / (1 * 10), the double 0.3, is in the
    top five and is discarded, the comparison being [similarity > 0.3];
    and with [topK = -1] the slice drops the last ranked fragment only, so
    two items are returned. *)
Lemma retrieveContext_discards_similarity_at_floor :
  ~ survivesAtFloor Example.env0 Example.world0 "q" "agent" "tenant" 5
  /\ ~ atMostTopK Example.env0 Example.world0 "q" "agent" "tenant" (-1).
Proof.
  split.
  - intros H.
    destruct (H [1; 0; 0; 0]%float
                (mkScored "doc" "guide.txt" 1 0 "at the floor" SIMILARITY_FLOOR)
                eq_refl) as (context & evidence & Hrun & Hin).
    + vm_compute. tauto.
    + vm_compute. discriminate.
    + vm_compute in Hrun. injection Hrun as _ <-.
      simpl in Hin. destruct Hin as [Hin | [Hin | []]]; discriminate.
  - intros H. specialize (H _ _ eq_refl). vm_compute in H. now apply H.
Qed.

(** C4, amended. For a top_k that is not negative, retrieveContext returns
    (it never throws) a context and an evidence list in which every item
    scores strictly above 0.3, at most top_k items, and an empty context
    when the list is empty. When the store answers, the evidence is exactly:
    the scored candidates as the sort left them, cut to the first top_k,
    then those strictly above 0.3; and the context is built from the same
    fragments. When the similarity of every candidate fragment to the query
    vector is a number, the sort leaves the candidates in descending order
    of similarity, and the evidence is in that order. *)
Theorem retrieveContext_top_k_strictly_above_floor
    (env : Env) (w : World) (query agentId tenantId : string) (topK : Z) :
  0 <= topK ->
  exists context evidence,
    fst (retrieveContext env query agentId tenantId topK w)
    = Ok (context, evidence)
    /\ Forall (fun e => (SIMILARITY_FLOOR < similarity_score e)%Q) evidence
    /\ Z.of_nat (List.length evidence) <= topK
    /\ (evidence = [] -> context = "")
    /\ ((forall queryEmbedding,
           embed env (queryInput query) = Resolved queryEmbedding ->
           scoresAreNumbers (db w) tenantId agentId queryEmbedding) ->
        StronglySorted
          (fun e1 e2 => (similarity_score e2 <= similarity_score e1)%Q)
          evidence)
    /\ (forall queryEmbedding,
          embed env (queryInput query) = Resolved queryEmbedding ->
          rejects env SelectCollections = None ->
          rejects env SelectEmbeddings = None ->
          exists sorted,
            Permutation sorted
              (candidates (db w) tenantId agentId queryEmbedding)
            /\ (scoresAreNumbers (db w) tenantId agentId queryEmbedding ->
                StronglySorted atLeastAsSimilar sorted)
            /\ let kept :=
                 filter (fun c => Qltb SIMILARITY_FLOOR (similarity c))
                        (firstn (Z.to_nat topK) sorted) in
               evidence = map toEvidence kept
               /\ context = buildContext kept).
Proof.
  intros Hk. rewrite retrieveContext_run.
  (* the cases in which an empty result is returned early *)
  assert (Hearly :
    (forall queryEmbedding,
       embed env (queryInput query) = Resolved queryEmbedding ->
       rejects env SelectCollections = None ->
       rejects env SelectEmbeddings = None ->
       candidates (db w) tenantId agentId queryEmbedding = []) ->
    exists context evidence,
      Ok (A := string * list RAGEvidence) ("", []) = Ok (context, evidence)
      /\ Forall (fun e => (SIMILARITY_FLOOR < similarity_score e)%Q) evidence
      /\ Z.of_nat (List.length evidence) <= topK
      /\ (evidence = [] -> context = "")
      /\ ((forall queryEmbedding,
             embed env (queryInput query) = Resolved queryEmbedding ->
             scoresAreNumbers (db w) tenantId agentId queryEmbedding) ->
          StronglySorted
            (fun e1 e2 => (similarity_score e2 <= similarity_score e1)%Q)
            evidence)
      /\ (forall queryEmbedding,
            embed env (queryInput query) = Resolved queryEmbedding ->
            rejects env SelectCollections = None ->
            rejects env SelectEmbeddings = None ->
            exists sorted,
              Permutation sorted
                (candidates (db w) tenantId agentId queryEmbedding)
              /\ (scoresAreNumbers (db w) tenantId agentId queryEmbedding ->
                  StronglySorted atLeastAsSimilar sorted)
              /\ let kept :=
                   filter (fun c => Qltb SIMILARITY_FLOOR (similarity c))
                          (firstn (Z.to_nat topK) sorted) in
                 evidence = map toEvidence kept
                 /\ context = buildContext kept)).
  { intros Hnone. exists "", [].
    split; [reflexivity|]. split; [constructor|]. split; [simpl; lia|].
    split; [reflexivity|]. split; [intros _; constructor|].
    intros qv Hq Hsc Hse. exists [].
    rewrite (Hnone qv Hq Hsc Hse).
    split; [constructor|]. split; [intros _; constructor|].
    now rewrite firstn_nil. }
  destruct (embed env (queryInput query)) as [qv | e];
    [|apply Hearly; discriminate].
  destruct (rejects env SelectCollections);
    [apply Hearly; intros; discriminate|].
  destruct (selectCollectionIds (db w) tenantId agentId) as [|c0 cs] eqn:Hids.
  { apply Hearly. intros qv' _ _ _. unfold candidates.
    now rewrite Hids, selectEmbeddings_no_collection. }
  destruct (rejects env SelectEmbeddings);
    [apply Hearly; intros; discriminate|].
  set (sorted := sortedCandidates env (db w) tenantId agentId qv).
  destruct (retrievedFrom_properties sorted topK Hk) as (H2 & H3 & H4 & H5).
  assert (Hranked : scoresAreNumbers (db w) tenantId agentId qv ->
                    StronglySorted atLeastAsSimilar sorted).
  { intros Hn. unfold sorted. rewrite sortedCandidates_numbers by exact Hn.
    apply sortBySimilarity_ranked. }
  exists (fst (retrievedFrom sorted topK)), (snd (retrievedFrom sorted topK)).
  split; [now rewrite <- surjective_pairing|].
  split; [exact H2|]. split; [exact H3|]. split; [exact H5|].
  split; [intros Hn; apply H4, Hranked, Hn; reflexivity|].
  intros qv' [= <-] _ _. exists sorted.
  split; [apply sortedCandidates_perm|]. split; [exact Hranked|].
  unfold retrievedFrom. rewrite slice_from_start by exact Hk.
  split; [apply contextAndEvidence_evidence | apply contextAndEvidence_context].
Qed.

Lemma retrieveContext_top_k_strictly_above_floor_witness :
  0 <= 5
  /\ exists context evidence,
       fst (retrieveContext Example.env0 "q" "agent" "tenant" 5 Example.world0)
       = Ok (context, evidence)
       /\ Forall (fun e => (SIMILARITY_FLOOR < similarity_score e)%Q) evidence
       /\ Z.of_nat (List.length evidence) <= 5
       /\ StronglySorted
            (fun e1 e2 => (similarity_score e2 <= similarity_score e1)%Q)
            evidence.
Proof.
  assert (H : 0 <= 5) by (vm_compute; discriminate).
  split; [exact H|].
  destruct (retrieveContext_top_k_strictly_above_floor
              Example.env0 Example.world0 "q" "agent" "tenant" 5 H)
    as (context & evidence & H1 & H2 & H3 & _ & H5 & _).
  exists context, evidence. repeat split; try assumption.
  apply H5. intros queryEmbedding [= <-].
  unfold scoresAreNumbers. vm_compute. repeat constructor.
Defined.

(** A similarity that is no number. Of three fragments scoring NaN, 0.9
    and 0.6, in this order, an engine whose sort leaves the array as it is
    returns for [topK = 2] the second fragment only: the first two are cut,
    and NaN is not above the floor. An engine that moves the first element
    behind the others returns the second and the third. *)
Example retrieveContext_with_a_score_that_is_no_number :
  map (fun e => cosineSimilarity [2; 0; 0; 0]%float (embedding e))
      Scenario.fragmentsOverflow
  = [nan; 0x1.ccccccccccccdp-1; 0x1.3333333333333p-1]%float
  /\ (exists context evidence,
        fst (retrieveContext (Scenario.envDoubled (sortOrder Example.env0))
                             "q" "agent" "tenant" 2 Scenario.worldOverflow)
        = Ok (context, evidence)
        /\ map ev_chunk_text evidence = ["close"])
  /\ (exists context evidence,
        fst (retrieveContext (Scenario.envDoubled (fun _ => [1; 0; 0]%nat))
                             "q" "agent" "tenant" 2 Scenario.worldOverflow)
        = Ok (context, evidence)
        /\ map ev_chunk_text evidence = ["close"; "fair"]).
Proof.
  split; [vm_compute; reflexivity|].
  split; eexists; eexists; (split; [vm_compute; reflexivity | reflexivity]).
Qed.

(** ** The two retrieval paths *)

(** The rows of the join come from the fragment table. *)
Lemma selectEmbeddings_in (d : Db) (ids : list string) (r : EmbeddingRow) :
  In r (selectEmbeddings d ids) -> In (row_embedding r) (embeddings d).
Proof.
  unfold selectEmbeddings. rewrite in_flat_map. intros (e & He & Hr).
  destruct (find _ (documents d)) as [doc|]; [|contradiction].
  destruct (_ && _); [|contradiction].
  destruct Hr as [<- | []]. exact He.
Qed.


(** The vector search is rejected whenever it is sent: by the store, or at
    the cast of the JSONB column. *)
Lemma vectorSearch_rejected (env : Env) (d : Db) (queryEmbedding : Vec)
    (collectionIds : list string) (topK : Z) (w : World) :
  exists e,
    vectorSearch env d queryEmbedding collectionIds topK w = (Throw e, w).
Proof.
  unfold vectorSearch, bind at 1, statement.
  destruct (rejects env VectorSearch) as [e|]; [now exists e|].
  now eexists.
Qed.



(** ** Ingestion *)

(** The loop over the chunks returns; it appends fragments of the document,
    each holding one of the chunks, and touches nothing else in the
    database. *)
Lemma storeChunks_run (env : Env) (documentId : string)
    (chunks : list string) (i : Z) (w : World) :
  exists written w',
    storeChunks env documentId i chunks w = (Ok tt, w')
    /\ db w' = withEmbeddings (embeddings (db w) ++ written) (db w)
    /\ Forall (fun e => emb_document_id e = documentId
                        /\ In (chunk_text e) chunks) written.
Proof.
  revert i w; induction chunks as [|chunk rest IH]; intros i w.
  - exists [], w. cbn [storeChunks ret]. rewrite app_nil_r.
    repeat split; [now destruct w as [[] ? ?] | constructor].
  - cbn [storeChunks].
    assert (Hstep : exists one w1,
      tryCatch
        (embedding <- generateEmbedding env chunk ;;
         statement env (InsertEmbedding i) ;;
         modifyDb (insertEmbedding (mkEmbedding documentId i chunk embedding)))
        (fun _ => ret tt) w = (Ok tt, w1)
      /\ db w1 = withEmbeddings (embeddings (db w) ++ one) (db w)
      /\ Forall (fun e => emb_document_id e = documentId
                          /\ chunk_text e = chunk) one).
    { unfold tryCatch, bind, generateEmbedding, bind, recordCall, statement,
        modifyDb, throw, ret.
      destruct w as [d cs n]; cbn [db calls uuids].
      destruct (embed env _) as [v | e].
      - destruct (rejects env (InsertEmbedding i)).
        + exists [], (mkWorld d (cs ++ [EmbeddingCall
            (string_of_list_ascii (JS.slice (list_ascii_of_string chunk) 0 8000))]) n).
          rewrite app_nil_r. repeat split; [now destruct d | constructor].
        + eexists [_], _. split; [reflexivity|]. split; [reflexivity|].
          repeat constructor.
      - exists [], (mkWorld d (cs ++ [EmbeddingCall
          (string_of_list_ascii (JS.slice (list_ascii_of_string chunk) 0 8000))]) n).
        rewrite app_nil_r. repeat split; [now destruct d | constructor]. }
    destruct Hstep as (one & w1 & Hrun & Hdb & Hone).
    destruct (IH (i + 1) w1) as (more & w2 & Hrun2 & Hdb2 & Hmore).
    exists (one ++ more), w2. split; [|split].
    + unfold bind at 1. now rewrite Hrun.
    + rewrite Hdb2, Hdb. unfold withEmbeddings; cbn. now rewrite app_assoc.
    + apply Forall_app. split.
      * eapply Forall_impl; [|exact Hone]. intros e [H1 H2]. split; [exact H1|].
        left. now symmetry.
      * eapply Forall_impl; [|exact Hmore]. intros e [H1 H2]. split; [exact H1|].
        now right.
Qed.

(** Extraction reads; it changes nothing. *)
Lemma extractText_run (env : Env) (filePath mimeType : string) (w : World) :
  snd (extractText env filePath mimeType w) = w
  /\ fst (extractText env filePath mimeType w) <> Hang.
Proof.
  unfold extractText, tryCatch, await, throw, ret.
  repeat match goal with
  | |- context [if ?b then _ else _] => destruct b
  | |- context [match ?r with Resolved _ => _ | Rejected _ => _ end] => destruct r
  end; split; (reflexivity || discriminate).
Qed.

(** The [try] block of processDocument, outcome by outcome: it throws with
    the database as it was, the status set to [processing] at most, unless
    it is the update to [completed] that is rejected, the fragments being
    replaced by then; it returns with the fragments replaced and the status
    [completed]; it hangs when the chunker does, the status [processing]. *)
Lemma processDocumentTry_run (env : Env) (fuel : nat) (chunkSize chunkOverlap : Z)
    (documentId : string) (w w' : World) (out : Outcome unit) :
  processDocumentTry env fuel chunkSize chunkOverlap documentId w = (out, w') ->
  match out with
  | Throw m =>
      db w' = db w
      \/ db w' = updateDocument documentId (setStatus processing) (db w)
      \/ (rejects env MarkCompleted = Some m
          /\ exists written,
               db w' = replaced documentId written (db w)
               /\ Forall (fun e => emb_document_id e = documentId) written)
  | Ok _ =>
      rejects env MarkCompleted = None
      /\ exists written,
           db w'
           = updateDocument documentId (setStatus completed)
               (replaced documentId written (db w))
           /\ Forall (fun e => emb_document_id e = documentId) written
  | Hang =>
      db w' = updateDocument documentId (setStatus processing) (db w)
  end.
Proof.
  unfold processDocumentTry, bind at 1, statement.
  destruct (rejects env SelectDocument); [intros [= <- <-]; now left|].
  unfold ret at 1, bind at 1, getDb.
  destruct (filter _ (documents (db w))) as [|doc docs];
    [intros [= <- <-]; now left|].
  unfold bind at 1. destruct (rejects env MarkProcessing);
    [intros [= <- <-]; now left|].
  unfold ret at 1, bind at 1, modifyDb at 1, bind at 1.
  set (w1 := mkWorld (updateDocument documentId (setStatus processing) (db w))
                     (calls w) (uuids w)).
  destruct (extractText_run env (file_path doc) (mime_type doc) w1) as [Hw Hh].
  destruct (extractText env (file_path doc) (mime_type doc) w1) as [[text | e |] wx];
    cbn [fst snd] in *; subst wx;
    [|intros [= <- <-]; right; now left|congruence].
  destruct (isBlank text); [intros [= <- <-]; right; now left|].
  destruct (chunkText fuel text chunkSize chunkOverlap) as [chunks|];
    [|intros [= <- <-]; reflexivity].
  unfold bind at 1. destruct (rejects env DeleteEmbeddings);
    [intros [= <- <-]; right; now left|].
  unfold ret at 1, bind at 1, modifyDb at 1, bind at 1.
  set (w2 := mkWorld (deleteEmbeddings documentId (db w1)) (calls w1) (uuids w1)).
  destruct (storeChunks_run env documentId chunks 0 w2)
    as (written & w3 & -> & Hdb & Hwritten).
  assert (Hw3 : db w3 = replaced documentId written (db w)).
  { rewrite Hdb. reflexivity. }
  assert (Hids : Forall (fun e => emb_document_id e = documentId) written).
  { eapply Forall_impl; [|exact Hwritten]. now intros e [H _]. }
  unfold bind at 1. destruct (rejects env MarkCompleted) eqn:Hmc.
  - intros [= <- <-]. right; right. split; [reflexivity|].
    exists written. now split.
  - intros [= <- <-]. cbn [db]. split; [reflexivity|].
    exists written. split; [now rewrite Hw3 | exact Hids].
Qed.

Lemma updateDocument_embeddings (documentId : string) (f : Document -> Document)
    (d : Db) :
  embeddings (updateDocument documentId f d) = embeddings d.
Proof. reflexivity. Qed.

Lemma updateDocument_ids (documentId : string) (f : Document -> Document)
    (d : Db) :
  (forall doc, doc_id (f doc) = doc_id doc) ->
  map doc_id (documents (updateDocument documentId f d))
  = map doc_id (documents d).
Proof.
  intros Hf. unfold updateDocument; cbn [documents]. rewrite map_map.
  apply map_ext. intros doc. destruct (String.eqb _ _); [apply Hf | reflexivity].
Qed.

Lemma updateDocument_hits (documentId : string) (f : Document -> Document)
    (d : Db) (doc' : Document) :
  (forall doc, doc_id (f doc) = doc_id doc) ->
  In doc' (documents (updateDocument documentId f d)) ->
  doc_id doc' = documentId ->
  exists doc, In doc (documents d) /\ doc' = f doc.
Proof.
  intros Hf Hin Hid. unfold updateDocument in Hin; cbn [documents] in Hin.
  apply in_map_iff in Hin. destruct Hin as (doc & Heq & Hdoc).
  destruct (String.eqb (doc_id doc) documentId) eqn:E.
  - exists doc. now split.
  - apply String.eqb_neq in E. subst doc'. contradiction.
Qed.

(** C6, as stated, fails. When the update to [completed] is rejected after
    the fragments were written, the attempt fails, the document is marked
    failed, and the fragment written by the attempt stays in the store. And
    when a document that has fragments is processed again and its file
    cannot be read, the attempt fails and the fragments stay. *)
Lemma processDocument_failure_keeps_fragments :
  ~ attemptFragmentsDeleted Example.envCompletedRejected 100 500 100 "doc"
                            Example.worldPending
  /\ ~ storedFragmentsDeleted Example.envUnreadable 100 500 100 "doc"
                              Example.world0.
Proof.
  split.
  - intros H.
    apply (H "deadlock detected" _ eq_refl
             (mkEmbedding "doc" 0 "Alpha. Beta." [1; 0; 0; 0]%float));
      [now left | reflexivity].
  - intros H.
    apply (H "Failed to extract text from document: ENOENT" _ eq_refl
             (mkEmbedding "doc" 0 "at the floor" [3; 9; 3; 1]%float));
      [now left | reflexivity].
Qed.

(** C6, amended. Once the store accepts the update to [failed]: if
    processDocument fails, every document with that id has status [failed]
    and the error's message, and no fragment was deleted on the way out;
    the fragment table is exactly as it was before the attempt, unless the
    failure is the rejection of the update to [completed], in which case the
    fragments written by the attempt are in the store. If processDocument
    returns, the document is [completed] and its earlier fragments were
    replaced by those of this attempt: stale fragments go when a later
    attempt gets past extraction, not when an attempt fails. *)
Theorem processDocument_marks_failed_and_keeps_fragments
    (env : Env) (fuel : nat) (chunkSize chunkOverlap : Z)
    (documentId : string) (w w' : World) (out : Outcome unit) :
  rejects env MarkFailed = None ->
  processDocument env fuel chunkSize chunkOverlap documentId w = (out, w') ->
  map doc_id (documents (db w')) = map doc_id (documents (db w))
  /\ match out with
     | Throw message =>
         (forall doc, In doc (documents (db w')) -> doc_id doc = documentId ->
                      status doc = failed /\ error_message doc = Some message)
         /\ (embeddings (db w') = embeddings (db w)
             \/ (rejects env MarkCompleted = Some message
                 /\ exists written,
                      embeddings (db w')
                      = othersOf documentId (embeddings (db w)) ++ written
                      /\ Forall (fun e => emb_document_id e = documentId)
                                written))
     | Ok _ =>
         (forall doc, In doc (documents (db w')) -> doc_id doc = documentId ->
                      status doc = completed)
         /\ exists written,
              embeddings (db w')
              = othersOf documentId (embeddings (db w)) ++ written
              /\ Forall (fun e => emb_document_id e = documentId) written
     | Hang => True
     end.
Proof.
  intros Hmf. unfold processDocument, tryCatch.
  destruct (processDocumentTry env fuel chunkSize chunkOverlap documentId w)
    as [out0 wi] eqn:Htry.
  apply processDocumentTry_run in Htry.
  assert (Hkeep : forall s doc, doc_id (setStatus s doc) = doc_id doc)
    by reflexivity.
  assert (Hkeepf : forall m doc, doc_id (setFailed m doc) = doc_id doc)
    by reflexivity.
  destruct out0 as [[] | m |].
  - intros [= <- <-]. destruct Htry as (_ & written & -> & Hwritten). split.
    + rewrite updateDocument_ids by apply Hkeep.
      unfold replaced, withEmbeddings; cbn [documents].
      change (map doc_id (documents (updateDocument documentId
                (setStatus processing) (db w))) = map doc_id (documents (db w))).
      now apply updateDocument_ids.
    + split.
      * intros doc Hin Hid.
        destruct (updateDocument_hits _ _ _ _ (Hkeep completed) Hin Hid)
          as (doc0 & _ & ->). reflexivity.
      * exists written. now split.
  - unfold processDocumentCatch, bind, statement. rewrite Hmf.
    unfold ret, modifyDb, throw. intros [= <- <-]. cbn [db].
    assert (Hids : map doc_id (documents (db wi)) = map doc_id (documents (db w))).
    { destruct Htry as [-> | [-> | (_ & written & -> & _)]];
        [reflexivity | now apply updateDocument_ids |].
      unfold replaced, withEmbeddings; cbn [documents].
      change (map doc_id (documents (updateDocument documentId
                (setStatus processing) (db w))) = map doc_id (documents (db w))).
      now apply updateDocument_ids. }
    split; [|split].
    + rewrite updateDocument_ids by apply Hkeepf. exact Hids.
    + intros doc Hin Hid.
      destruct (updateDocument_hits _ _ _ _ (Hkeepf m) Hin Hid)
        as (doc0 & _ & ->). now split.
    + rewrite updateDocument_embeddings.
      destruct Htry as [-> | [-> | (Hmc & written & -> & Hwritten)]];
        [now left | now left |].
      right. split; [exact Hmc|]. exists written. now split.
  - intros [= <- <-]. rewrite Htry. split; [|exact I].
    now apply updateDocument_ids.
Qed.

Lemma processDocument_marks_failed_and_keeps_fragments_witness :
  exists w',
    processDocument Example.envUnreadable 100 500 100 "doc" Example.world0
    = (Throw "Failed to extract text from document: ENOENT", w')
    /\ (forall doc, In doc (documents (db w')) -> doc_id doc = "doc" ->
          status doc = failed
          /\ error_message doc
             = Some "Failed to extract text from document: ENOENT")
    /\ embeddings (db w') = Example.fragments0.
Proof.
  eexists. split; [reflexivity|].
  destruct (processDocument_marks_failed_and_keeps_fragments
              Example.envUnreadable 100 500 100 "doc" Example.world0 _ _
              eq_refl eq_refl) as (_ & Hstatus & Hfrag).
  split; [exact Hstatus|].
  destruct Hfrag as [H | [H _]]; [exact H | discriminate H].
Defined.

(** ** The chunker *)

Lemma lastIndexUpTo_bounds (t : JS.chars) (c : ascii) (k : nat) :
  -1 <= JS.lastIndexUpTo t c k <= Z.of_nat k.
Proof.
  induction k as [|k IH]; cbn [JS.lastIndexUpTo].
  - destruct (nth_error t 0) as [d|]; [destruct (Ascii.eqb d c)|]; lia.
  - destruct (nth_error t (S k)) as [d|]; [destruct (Ascii.eqb d c)|]; lia.
Qed.

Lemma lastIndexUpTo_found (t : JS.chars) (c : ascii) (k : nat) :
  0 <= JS.lastIndexUpTo t c k ->
  nth_error t (Z.to_nat (JS.lastIndexUpTo t c k)) = Some c.
Proof.
  induction k as [|k IH]; cbn [JS.lastIndexUpTo].
  - destruct (nth_error t 0) as [d|] eqn:E; [|lia].
    destruct (Ascii.eqb d c) eqn:Ec; [|lia].
    apply Ascii.eqb_eq in Ec. subst d. intros _. exact E.
  - destruct (nth_error t (S k)) as [d|] eqn:E; [|exact IH].
    destruct (Ascii.eqb d c) eqn:Ec; [|exact IH].
    apply Ascii.eqb_eq in Ec. subst d. intros _. now rewrite Nat2Z.id.
Qed.

Lemma lastIndexOf_bounds (t : JS.chars) (c : ascii) (from : Z) :
  -1 <= JS.lastIndexOf t c from <= Z.max from 0.
Proof.
  unfold JS.lastIndexOf. destruct (JS.length t <? 1) eqn:E; [lia|].
  apply Z.ltb_ge in E.
  pose proof (lastIndexUpTo_bounds t c
                (Z.to_nat (Z.min (Z.max from 0) (JS.length t - 1)))) as H.
  rewrite Z2Nat.id in H by lia. lia.
Qed.

Lemma lastIndexOf_found (t : JS.chars) (c : ascii) (from : Z) :
  0 <= JS.lastIndexOf t c from ->
  nth_error t (Z.to_nat (JS.lastIndexOf t c from)) = Some c.
Proof.
  unfold JS.lastIndexOf. destruct (JS.length t <? 1); [lia|].
  apply lastIndexUpTo_found.
Qed.

(** The end of a window: the raw boundary, or one past a break character
    that lies at or before it. *)
Lemma windowEnd_cases (text : JS.chars) (chunkSize start : Z) :
  windowEnd text chunkSize start = start + chunkSize
  \/ exists breakPoint,
       windowEnd text chunkSize start = breakPoint + 1
       /\ 2 * start + chunkSize < 2 * breakPoint
       /\ -1 <= breakPoint <= Z.max (start + chunkSize) 0
       /\ (0 <= breakPoint ->
           nth_error text (Z.to_nat breakPoint) = Some "."%char
           \/ nth_error text (Z.to_nat breakPoint) = Some "010"%char).
Proof.
  unfold windowEnd. destruct (start + chunkSize <? JS.length text); [|now left].
  set (p := JS.lastIndexOf text "."%char (start + chunkSize)).
  set (n := JS.lastIndexOf text "010"%char (start + chunkSize)).
  destruct (2 * start + chunkSize <? 2 * Z.max p n) eqn:E; [|now left].
  apply Z.ltb_lt in E. right. exists (Z.max p n).
  pose proof (lastIndexOf_bounds text "."%char (start + chunkSize)) as Hp.
  pose proof (lastIndexOf_bounds text "010"%char (start + chunkSize)) as Hn.
  fold p in Hp. fold n in Hn.
  repeat split; [exact E | lia | lia |].
  intros H0. destruct (Z.max_spec p n) as [[Hlt Hmax] | [Hle Hmax]];
    rewrite Hmax in *; [right; subst n | left; subst p];
    now apply lastIndexOf_found.
Qed.

Lemma nextStart_nonneg (overlap end_ : Z) : 0 <= nextStart overlap end_.
Proof. unfold nextStart. destruct (end_ - overlap <? 0) eqn:E; [lia|]. apply Z.ltb_ge in E. lia. Qed.

Lemma nextStart_le (overlap end_ : Z) :
  0 <= overlap -> nextStart overlap end_ <= Z.max end_ 0.
Proof. intros H. unfold nextStart. destruct (end_ - overlap <? 0); lia. Qed.

(** The chunks the loop pushes are the fragments of the windows it visits. *)
Lemma chunkLoop_windows (fuel : nat) (text : JS.chars) (chunkSize overlap : Z)
    (start : Z) (chunks : list JS.chars) :
  chunkLoop fuel text chunkSize overlap start chunks
  = option_map (fun ws => chunks ++ map (fragmentOf text) ws)
               (chunkWindows fuel text chunkSize overlap start).
Proof.
  revert start chunks; induction fuel as [|fuel IH]; intros start chunks;
    cbn [chunkLoop chunkWindows].
  - destruct (start <? JS.length text); [reflexivity|].
    cbn. now rewrite app_nil_r.
  - destruct (start <? JS.length text).
    + rewrite IH.
      destruct (chunkWindows fuel text chunkSize overlap
                  (nextStart overlap (windowEnd text chunkSize start)));
        [|reflexivity].
      cbn. now rewrite <- app_assoc.
    + cbn. now rewrite app_nil_r.
Qed.

(** Every window starts inside the text and ends where windowEnd says. *)
Lemma chunkWindows_in (fuel : nat) (text : JS.chars) (chunkSize overlap : Z)
    (start : Z) (ws : list (Z * Z)) (s e : Z) :
  0 <= start ->
  chunkWindows fuel text chunkSize overlap start = Some ws ->
  In (s, e) ws ->
  0 <= s < JS.length text /\ e = windowEnd text chunkSize s.
Proof.
  revert start ws; induction fuel as [|fuel IH]; intros start ws Hs;
    cbn [chunkWindows]; destruct (start <? JS.length text) eqn:E;
    try discriminate; try (intros [= <-]; contradiction).
  apply Z.ltb_lt in E.
  destruct (chunkWindows fuel text chunkSize overlap
              (nextStart overlap (windowEnd text chunkSize start)))
    as [rest|] eqn:Hrest; [|discriminate].
  intros [= <-] [[= <- <-] | Hin]; [split; [lia | reflexivity]|].
  apply (IH _ rest (nextStart_nonneg overlap (windowEnd text chunkSize start))
            Hrest Hin).
Qed.

(** The windows leave no gap: every position from the first start on lies
    in one of them. *)
Lemma chunkWindows_cover (fuel : nat) (text : JS.chars) (chunkSize overlap : Z)
    (start : Z) (ws : list (Z * Z)) :
  0 <= overlap -> 0 <= start ->
  chunkWindows fuel text chunkSize overlap start = Some ws ->
  forall i, start <= i < JS.length text ->
            exists s e, In (s, e) ws /\ s <= i < e.
Proof.
  intros Ho. revert start ws; induction fuel as [|fuel IH]; intros start ws Hs;
    cbn [chunkWindows]; destruct (start <? JS.length text) eqn:E;
    try discriminate;
    try (apply Z.ltb_ge in E; intros _ i Hi; lia).
  set (e0 := windowEnd text chunkSize start).
  destruct (chunkWindows fuel text chunkSize overlap (nextStart overlap e0))
    as [rest|] eqn:Hrest; [|discriminate].
  intros [= <-] i Hi.
  destruct (Z.lt_ge_cases i e0) as [Hlt | Hge].
  - exists start, e0. split; [now left | lia].
  - pose proof (nextStart_le overlap e0 Ho) as Hn.
    destruct (IH _ _ (nextStart_nonneg overlap e0) Hrest i) as (s & e & Hin & Hb);
      [lia|].
    exists s, e. split; [now right | exact Hb].
Qed.

Lemma trimStart_length (t : JS.chars) :
  (List.length (JS.trimStart t) <= List.length t)%nat.
Proof.
  induction t as [|c t IH]; cbn [JS.trimStart]; [lia|].
  destruct (JS.isWhitespace c); cbn [List.length]; lia.
Qed.

Lemma trimEnd_length (t : JS.chars) :
  (List.length (JS.trimEnd t) <= List.length t)%nat.
Proof.
  unfold JS.trimEnd. rewrite length_rev.
  pose proof (trimStart_length (rev t)) as H. now rewrite length_rev in H.
Qed.

Lemma trim_length (t : JS.chars) : JS.length (JS.trim t) <= JS.length t.
Proof.
  unfold JS.trim, JS.length.
  pose proof (trimEnd_length (JS.trimStart t)).
  pose proof (trimStart_length t). lia.
Qed.

Lemma trimStart_snoc (t : JS.chars) (c : ascii) :
  JS.isWhitespace c = true ->
  JS.trimStart (t ++ [c]) = [] \/ JS.trimStart (t ++ [c]) = JS.trimStart t ++ [c].
Proof.
  intros Hc. induction t as [|d t IH]; cbn [JS.trimStart app].
  - rewrite Hc. now left.
  - destruct (JS.isWhitespace d); [exact IH | now right].
Qed.

(** A fragment loses a trailing whitespace character. *)
Lemma trim_snoc_whitespace (t : JS.chars) (c : ascii) :
  JS.isWhitespace c = true ->
  JS.length (JS.trim (t ++ [c])) <= JS.length t.
Proof.
  intros Hc. unfold JS.trim, JS.length.
  destruct (trimStart_snoc t c Hc) as [-> | ->].
  - cbn. lia.
  - unfold JS.trimEnd. rewrite rev_unit. cbn [JS.trimStart]. rewrite Hc.
    fold (JS.trimEnd (JS.trimStart t)).
    pose proof (trimEnd_length (JS.trimStart t)).
    pose proof (trimStart_length t). lia.
Qed.

Lemma slice_length {A} (t : list A) (s e : Z) :
  0 <= s -> 0 <= e ->
  Z.of_nat (List.length (JS.slice t s e)) <= Z.max 0 (e - s).
Proof.
  intros Hs He. unfold JS.slice, JS.relIndex.
  replace (s <? 0) with false by (symmetry; apply Z.ltb_ge; lia).
  replace (e <? 0) with false by (symmetry; apply Z.ltb_ge; lia).
  rewrite length_firstn. lia.
Qed.

(** Extending a slice by one position appends the character there. *)
Lemma slice_snoc (t : JS.chars) (s b : Z) (c : ascii) :
  0 <= s <= b ->
  nth_error t (Z.to_nat b) = Some c ->
  JS.slice t s (b + 1) = JS.slice t s b ++ [c].
Proof.
  intros Hsb Hc.
  assert (Hlen : (Z.to_nat b < List.length t)%nat).
  { apply nth_error_Some. congruence. }
  unfold JS.slice, JS.relIndex.
  replace (s <? 0) with false by (symmetry; apply Z.ltb_ge; lia).
  replace (b <? 0) with false by (symmetry; apply Z.ltb_ge; lia).
  replace (b + 1 <? 0) with false by (symmetry; apply Z.ltb_ge; lia).
  rewrite !Z.min_l by lia.
  replace (Z.to_nat (b + 1 - s)) with (S (Z.to_nat (b - s))) by lia.
  set (l := skipn (Z.to_nat s) t).
  assert (Hn : nth_error l (Z.to_nat (b - s)) = Some c).
  { unfold l. rewrite nth_error_skipn.
    replace (Z.to_nat s + Z.to_nat (b - s))%nat with (Z.to_nat b) by lia.
    exact Hc. }
  clearbody l. revert l Hn. generalize (Z.to_nat (b - s)) as n.
  induction n as [|n IH]; intros [|x l]; cbn [nth_error]; try discriminate.
  - now intros [= ->].
  - intros H. rewrite (firstn_cons (S n)), (firstn_cons n), (IH l H).
    reflexivity.
Qed.

Lemma windowEnd_nonneg (text : JS.chars) (chunkSize start : Z) :
  0 <= start -> 0 <= chunkSize -> 0 <= windowEnd text chunkSize start.
Proof.
  intros Hs Hc.
  destruct (windowEnd_cases text chunkSize start)
    as [-> | (b & -> & _ & Hb & _)]; lia.
Qed.

(** A fragment has at most [chunkSize] characters, unless the character
    right after the raw window is a period. *)
Lemma fragment_bound (text : JS.chars) (chunkSize s : Z) :
  0 <= chunkSize -> 0 <= s ->
  nth_error text (Z.to_nat (s + chunkSize)) <> Some "."%char ->
  JS.length (fragmentOf text (s, windowEnd text chunkSize s)) <= chunkSize.
Proof.
  intros Hc Hs Hdot. unfold fragmentOf; cbn [fst snd].
  destruct (windowEnd_cases text chunkSize s)
    as [-> | (b & -> & Hmid & Hb & Hchar)].
  - pose proof (trim_length (JS.slice text s (s + chunkSize))).
    pose proof (slice_length text s (s + chunkSize) Hs).
    unfold JS.length in *. lia.
  - destruct (Z.eq_dec b (s + chunkSize)) as [-> | Hne].
    + assert (H0 : 0 <= s + chunkSize) by lia.
      destruct (Hchar H0) as [Hdot' | Hnl]; [contradiction|].
      rewrite (slice_snoc text s (s + chunkSize) "010"%char) by (lia || assumption).
      pose proof (trim_snoc_whitespace (JS.slice text s (s + chunkSize))
                    "010"%char eq_refl).
      pose proof (slice_length text s (s + chunkSize) Hs).
      unfold JS.length in *. lia.
    + pose proof (trim_length (JS.slice text s (b + 1))).
      pose proof (slice_length text s (b + 1) Hs).
      unfold JS.length in *. lia.
Qed.

(** C7, as stated, fails. The fragments of ["a b"] cut with size 2 and no
    overlap are ["a"] and ["b"]: the blank is trimmed away, and whatever
    prefixes are cut off the fragments they do not concatenate to the text. And in ["aaa.a.bbbb"] cut with size 5 the
    first window holds a period past its middle, yet the fragment is
    ["aaa.a."], six characters, the search for a break starting at the
    character after the window. *)
Lemma chunkText_trims_and_overshoots :
  ~ reconstructs 10 "a b" 2 0
  /\ ~ boundedWhereBreakExists 10 "aaa.a.bbbb" 5 0.
Proof.
  split.
  - intros H.
    assert (Hrun : chunkText 10 "a b" 2 0 = Some ["a"; "b"]) by reflexivity.
    destruct (H _ Hrun) as [cuts Hcuts].
    destruct cuts as [|[|k1] [|[|k2] cuts]]; cbn in Hcuts;
      rewrite ?skipn_nil in Hcuts; cbn in Hcuts; discriminate Hcuts.
  - intros H. specialize (H _ 0 6 eq_refl (or_introl eq_refl)).
    assert (Hb : hasBreakInside (list_ascii_of_string "aaa.a.bbbb") 5 0).
    { exists 3. split; [lia|]. split; [lia | now left]. }
    specialize (H Hb). vm_compute in H. now apply H.
Qed.

(** C7, amended. When the chunker returns and the overlap is not negative,
    the windows it cut cover the text with no gap: every position of the
    text lies in a window. The fragments are the windows' texts with the
    whitespace at both ends trimmed and the empty ones dropped, so they give
    the text back only up to that whitespace. For a size that is not
    negative, a fragment has at most [chunkSize] characters whenever the
    character right after its raw window is not a period. *)
Theorem chunkText_windows_cover_text
    (fuel : nat) (text : string) (chunkSize overlap : Z) (chunks : list string) :
  0 <= overlap ->
  chunkText fuel text chunkSize overlap = Some chunks ->
  let t := list_ascii_of_string text in
  exists ws,
    chunkWindows fuel t chunkSize overlap 0 = Some ws
    /\ chunks
       = map string_of_list_ascii (filter nonEmpty (map (fragmentOf t) ws))
    /\ (forall i, 0 <= i < JS.length t ->
                  exists s e, In (s, e) ws /\ s <= i < e)
    /\ (0 <= chunkSize ->
        forall s e, In (s, e) ws ->
          nth_error t (Z.to_nat (s + chunkSize)) <> Some "."%char ->
          JS.length (fragmentOf t (s, e)) <= chunkSize).
Proof.
  intros Ho Hrun t. unfold chunkText in Hrun. fold t in Hrun.
  rewrite chunkLoop_windows in Hrun.
  destruct (chunkWindows fuel t chunkSize overlap 0) as [ws|] eqn:Hws;
    [|discriminate].
  cbn in Hrun. injection Hrun as <-. exists ws.
  split; [reflexivity|]. split; [reflexivity|]. split.
  - apply (chunkWindows_cover fuel t chunkSize overlap 0 ws Ho (Z.le_refl 0) Hws).
  - intros Hc s e Hin Hdot.
    destruct (chunkWindows_in fuel t chunkSize overlap 0 ws s e (Z.le_refl 0)
                Hws Hin) as [Hs ->].
    apply fragment_bound; [exact Hc | lia | exact Hdot].
Qed.

Lemma chunkText_windows_cover_text_witness :
  0 <= 5
  /\ chunkText 50 "Hello world. This is a test. And more" 20 5
     = Some ["Hello world."; "orld. This is a test."; "test. And more"]
  /\ exists ws,
       chunkWindows 50 (list_ascii_of_string
                          "Hello world. This is a test. And more") 20 5 0
       = Some ws
       /\ forall i, 0 <= i < 37 -> exists s e, In (s, e) ws /\ s <= i < e.
Proof.
  assert (H : 0 <= 5) by (vm_compute; discriminate).
  split; [exact H|]. split; [reflexivity|].
  destruct (chunkText_windows_cover_text
              50 "Hello world. This is a test. And more" 20 5 _ H eq_refl)
    as (ws & Hws & _ & Hcover & _).
  exists ws. split; [exact Hws | exact Hcover].
Defined.

(** *** When the chunker returns *)

Lemma nextStart_ge (overlap end_ : Z) : end_ - overlap <= nextStart overlap end_.
Proof. unfold nextStart. destruct (end_ - overlap <? 0) eqn:E; [|lia]. apply Z.ltb_lt in E. lia. Qed.

(** With [overlap < chunkSize] and [2 * overlap <= chunkSize + 2] every
    window starts after the one before. *)
Lemma nextStart_progress (text : JS.chars) (chunkSize overlap start : Z) :
  overlap < chunkSize -> 2 * overlap <= chunkSize + 2 ->
  start < nextStart overlap (windowEnd text chunkSize start).
Proof.
  intros H1 H2.
  pose proof (nextStart_ge overlap (windowEnd text chunkSize start)) as Hge.
  destruct (windowEnd_cases text chunkSize start)
    as [Heq | (b & Heq & Hmid & _)]; rewrite Heq in *; lia.
Qed.

Lemma chunkWindows_returns (text : JS.chars) (chunkSize overlap : Z) :
  overlap < chunkSize -> 2 * overlap <= chunkSize + 2 ->
  forall fuel start,
    JS.length text - start <= Z.of_nat fuel ->
    exists ws, chunkWindows fuel text chunkSize overlap start = Some ws.
Proof.
  intros H1 H2. induction fuel as [|fuel IH]; intros start Hfuel;
    cbn [chunkWindows]; destruct (start <? JS.length text) eqn:E;
    try (now exists []).
  - apply Z.ltb_lt in E. lia.
  - pose proof (nextStart_progress text chunkSize overlap start H1 H2) as Hp.
    destruct (IH (nextStart overlap (windowEnd text chunkSize start)))
      as (ws & ->); [lia|].
    now eexists.
Qed.

(** With the default size 500 and overlap 100, and with every size and
    overlap such that [overlap < chunkSize] and [2 * overlap <= chunkSize +
    2], the chunker returns within as many iterations as the text has
    characters. *)
Lemma chunkText_returns (text : string) (chunkSize overlap : Z) :
  overlap < chunkSize -> 2 * overlap <= chunkSize + 2 ->
  exists chunks,
    chunkText (String.length text) text chunkSize overlap = Some chunks.
Proof.
  intros H1 H2. unfold chunkText. rewrite chunkLoop_windows.
  destruct (chunkWindows_returns (list_ascii_of_string text) chunkSize overlap
              H1 H2 (String.length text) 0) as (ws & ->).
  - unfold JS.length.
    assert (Hlen : List.length (list_ascii_of_string text) = String.length text).
    { induction text as [|c text IH]; cbn; [reflexivity | now rewrite IH]. }
    rewrite Hlen. lia.
  - now eexists.
Qed.

(** *** When the chunker does not return *)

(** With an overlap larger than the size, the window that starts at 0 ends
    within the overlap, and the next window starts at 0 again. *)
Lemma nextStart_stuck (text : JS.chars) (chunkSize overlap : Z) :
  chunkSize < overlap -> 1 <= overlap ->
  nextStart overlap (windowEnd text chunkSize 0) = 0.
Proof.
  intros H1 H2. unfold nextStart.
  destruct (windowEnd_cases text chunkSize 0)
    as [Heq | (b & Heq & _ & Hb & _)]; rewrite Heq;
    destruct (_ - overlap <? 0) eqn:E; try reflexivity;
    apply Z.ltb_ge in E; lia.
Qed.

Lemma chunkWindows_stuck (text : JS.chars) (chunkSize overlap : Z) (fuel : nat) :
  chunkSize < overlap -> 1 <= overlap -> 0 < JS.length text ->
  chunkWindows fuel text chunkSize overlap 0 = None.
Proof.
  intros H1 H2 Hlen. induction fuel as [|fuel IH]; cbn [chunkWindows];
    replace (0 <? JS.length text) with true
      by (symmetry; now apply Z.ltb_lt); [reflexivity|].
  now rewrite nextStart_stuck, IH.
Qed.

(** C8. The loop of chunkText does not end for every size and overlap:
    with an overlap larger than the size (and at least 1), on every text
    that is not empty, each window starts at 0 again, and no amount of
    fuel lets the call return. *)
Theorem chunkText_never_returns_when_overlap_exceeds_size
    (fuel : nat) (text : string) (chunkSize overlap : Z) :
  text <> "" -> chunkSize < overlap -> 1 <= overlap ->
  chunkText fuel text chunkSize overlap = None.
Proof.
  intros Htext H1 H2. unfold chunkText. rewrite chunkLoop_windows.
  rewrite chunkWindows_stuck; [reflexivity | exact H1 | exact H2 |].
  destruct text as [|c text]; [contradiction|].
  unfold JS.length; cbn [list_ascii_of_string List.length]. lia.
Qed.

Lemma chunkText_never_returns_when_overlap_exceeds_size_witness :
  chunkText 1000 "Some uploaded text." 100 200 = None.
Proof.
  apply (chunkText_never_returns_when_overlap_exceeds_size
           1000 "Some uploaded text." 100 200);
    [discriminate | reflexivity | vm_compute; discriminate].
Defined.

(** An ingestion configured with such a size and overlap hangs, the
    document left in status [processing]. *)
Example processDocument_hangs (fuel : nat) :
  exists w',
    processDocument Example.env0 fuel 100 200 "doc" Example.worldPending
    = (Hang, w')
    /\ map status (documents (db w')) = [processing].
Proof.
  assert (Hchunk : chunkText fuel "Alpha. Beta." 100 200 = None).
  { unfold chunkText. rewrite chunkLoop_windows, chunkWindows_stuck;
      [reflexivity | reflexivity | vm_compute; discriminate | reflexivity]. }
  unfold processDocument, tryCatch, processDocumentTry, bind at 1, statement.
  cbn [rejects Example.env0 ret]. unfold bind at 1, getDb.
  cbn -[chunkText extractText isBlank]. unfold bind at 1.
  change (extractText Example.env0 "/uploads/guide.txt" "text/plain")
    with (@ret string "Alpha. Beta.").
  cbn -[chunkText]. rewrite Hchunk.
  eexists. split; reflexivity.
Qed.

(** ** cosineSimilarity on doubles *)

Lemma SFmul_comm (x y : spec_float) : SF64mul x y = SF64mul y x.
Proof.
  unfold SF64mul, SFmul.
  destruct x as [sx | sx | | sx mx ex], y as [sy | sy | | sy my ey];
    try reflexivity; try (now rewrite xorb_comm).
  now rewrite xorb_comm, Pos.mul_comm, Z.add_comm.
Qed.

Lemma float_mul_comm (x y : float) : (x * y)%float = (y * x)%float.
Proof.
  apply Prim2SF_inj. rewrite !mul_spec. apply SFmul_comm.
Qed.

Lemma cosineLoop_swap (a b : list float) (d nA nB : float) :
  cosineLoop b a d nB nA
  = let '(d', nA', nB') := cosineLoop a b d nA nB in (d', nB', nA').
Proof.
  revert b d nA nB; induction a as [|x a IH]; intros [|y b] d nA nB;
    try reflexivity.
  cbn [cosineLoop]. rewrite IH. now rewrite (float_mul_comm y x).
Qed.

Lemma cosineSimilarity_symmetric (a b : list float) :
  cosineSimilarity a b = cosineSimilarity b a.
Proof.
  unfold cosineSimilarity. rewrite (Nat.eqb_sym (List.length b)).
  destruct (negb _); [reflexivity|].
  rewrite (cosineLoop_swap a b).
  destruct (cosineLoop a b 0 0 0) as [[d nA] nB].
  rewrite (orb_comm (nB =? 0)%float). destruct (orb _ _); [reflexivity|].
  now rewrite (float_mul_comm (PrimFloat.sqrt nB)).
Qed.

Lemma float_is_zero (x : float) :
  (x =? 0)%float = true -> x = 0%float \/ x = (-0)%float.
Proof.
  rewrite eqb_spec. intros H.
  assert (Hz : exists s, Prim2SF x = S754_zero s).
  { change (Prim2SF 0) with (S754_zero false) in H.
    unfold SFeqb, SFcompare in H.
    destruct (Prim2SF x) as [s | s | | s m e];
      [now exists s | now destruct s | discriminate | now destruct s]. }
  destruct Hz as [[|] Hs]; [right | left]; apply Prim2SF_inj; rewrite Hs;
    reflexivity.
Qed.

(** The squared norm of an all-zero vector stays 0. *)
Lemma cosineLoop_zero_left (a b : list float) (d nB : float) :
  allZero a = true ->
  exists d' nB', cosineLoop a b d 0 nB = (d', 0%float, nB').
Proof.
  revert b d nB; induction a as [|x a IH]; intros [|y b] d nB Ha;
    try (now eexists; eexists).
  cbn [allZero forallb] in Ha. apply andb_true_iff in Ha. destruct Ha as [Hx Ha].
  cbn [cosineLoop].
  destruct (float_is_zero x Hx) as [-> | ->];
    change (0 + 0 * 0)%float with 0%float;
    change (0 + -0 * -0)%float with 0%float; now apply IH.
Qed.

Lemma cosineSimilarity_zero_left (a b : list float) :
  allZero a = true -> cosineSimilarity a b = 0%float.
Proof.
  intros Ha. unfold cosineSimilarity. destruct (negb _); [reflexivity|].
  destruct (cosineLoop_zero_left a b 0 0 Ha) as (d & nB & ->).
  reflexivity.
Qed.

(** C9, as stated, fails on doubles. The similarity of [1, 1, 1] with
    itself is 1.0000000000000002: not 1, and above 1. Of [1, 1] with itself
    it is 0.99999999999999978. Of a vector whose square overflows it is NaN,
    and of a non-zero vector whose square underflows it is 0. *)
Lemma cosineSimilarity_self_is_not_one :
  (cosineSimilarity [1; 1; 1]%float [1; 1; 1]%float =? 1)%float = false
  /\ (cosineSimilarity [1; 1; 1]%float [1; 1; 1]%float <=? 1)%float = false
  /\ (cosineSimilarity [1; 1]%float [1; 1]%float =? 1)%float = false
  /\ cosineSimilarity [0x1p600%float] [0x1p600%float] = nan
  /\ cosineSimilarity [0x1p-600%float] [0x1p-600%float] = 0%float.
Proof. repeat split; vm_compute; reflexivity. Qed.

(** ** cosineSimilarity in exact arithmetic *)

Local Open Scope R_scope.

Lemma cauchy_schwarz_step (d A B x y : R) :
  0 <= A -> 0 <= B -> d * d <= A * B ->
  (d + x * y) * (d + x * y) <= (A + x * x) * (B + y * y).
Proof.
  intros HA HB Hd.
  assert (Hcross : 2 * d * (x * y) <= A * (y * y) + B * (x * x)).
  { destruct (Req_dec A 0) as [-> | HA0].
    - assert (Hdd : d * d = 0).
      { pose proof (Rle_0_sqr d) as Hsq. unfold Rsqr in Hsq.
        rewrite Rmult_0_l in Hd. now apply Rle_antisym. }
      assert (d = 0) by (destruct (Rmult_integral _ _ Hdd); assumption).
      subst d. pose proof (Rle_0_sqr x) as Hx. unfold Rsqr in Hx.
      pose proof (Rmult_le_pos _ _ HB Hx). Lra.lra.
    - assert (HApos : 0 < A) by Lra.lra.
      pose proof (Rle_0_sqr (A * y - d * x)) as H1. unfold Rsqr in H1.
      pose proof (Rle_0_sqr x) as Hx. unfold Rsqr in Hx.
      assert (H2 : 0 <= (A * B - d * d) * (x * x))
        by (apply Rmult_le_pos; Lra.lra).
      assert (H3 : 0 <= A * (A * (y * y) + B * (x * x) - 2 * d * (x * y))).
      { replace (A * (A * (y * y) + B * (x * x) - 2 * d * (x * y)))
          with ((A * y - d * x) * (A * y - d * x) + (A * B - d * d) * (x * x))
          by ring.
        Lra.lra. }
      assert (H4 : 0 <= A * (y * y) + B * (x * x) - 2 * d * (x * y)).
      { apply Rmult_le_reg_l with A; [exact HApos|]. Lra.lra. }
      Lra.lra. }
  replace ((d + x * y) * (d + x * y))
    with (d * d + 2 * d * (x * y) + (x * y) * (x * y)) by ring.
  replace ((A + x * x) * (B + y * y))
    with (A * B + (A * (y * y) + B * (x * x)) + (x * y) * (x * y)) by ring.
  Lra.lra.
Qed.

Lemma cosineLoopR_invariant (a b : list R) (d A B : R) :
  0 <= A -> 0 <= B -> d * d <= A * B ->
  let '(d', A', B') := cosineLoopR a b d A B in
  0 <= A' /\ 0 <= B' /\ d' * d' <= A' * B'.
Proof.
  revert b d A B; induction a as [|x a IH]; intros [|y b] d A B HA HB Hd;
    cbn [cosineLoopR]; try now repeat split.
  apply IH; [Lra.nra | Lra.nra | now apply cauchy_schwarz_step].
Qed.

Lemma cosineLoopR_self (a : list R) (n : R) :
  0 <= n ->
  exists n', cosineLoopR a a n n n = (n', n', n')
             /\ n <= n' /\ (n' = 0 -> Forall (fun x => x = 0) a).
Proof.
  revert n; induction a as [|x a IH]; intros n Hn; cbn [cosineLoopR].
  - exists n. repeat split; [Lra.lra | constructor].
  - destruct (IH (n + x * x)) as (n' & -> & Hle & Hz); [Lra.nra|].
    exists n'. repeat split; [Lra.nra|].
    intros H0. constructor; [Lra.nra | now apply Hz].
Qed.

Lemma cosineLoopR_swap (a b : list R) (d nA nB : R) :
  cosineLoopR b a d nB nA
  = let '(d', nA', nB') := cosineLoopR a b d nA nB in (d', nB', nA').
Proof.
  revert b d nA nB; induction a as [|x a IH]; intros [|y b] d nA nB;
    try reflexivity.
  cbn [cosineLoopR]. rewrite IH. now rewrite (Rmult_comm y x).
Qed.

Lemma cosineSimilarityR_range (a b : list R) :
  -1 <= cosineSimilarityR a b <= 1.
Proof.
  unfold cosineSimilarityR. destruct (negb _); [Lra.lra|].
  pose proof (cosineLoopR_invariant a b 0 0 0) as H.
  destruct (cosineLoopR a b 0 0 0) as [[d A] B].
  destruct H as (HA & HB & Hd); try Lra.lra.
  destruct (Req_dec_T A 0) as [|HA0]; [Lra.lra|].
  destruct (Req_dec_T B 0) as [|HB0]; [Lra.lra|].
  set (s := R_sqrt.sqrt A * R_sqrt.sqrt B).
  assert (HsA : R_sqrt.sqrt A * R_sqrt.sqrt A = A) by (apply sqrt_sqrt; Lra.lra).
  assert (HsB : R_sqrt.sqrt B * R_sqrt.sqrt B = B) by (apply sqrt_sqrt; Lra.lra).
  assert (HpA : 0 < R_sqrt.sqrt A) by (apply sqrt_lt_R0; Lra.lra).
  assert (HpB : 0 < R_sqrt.sqrt B) by (apply sqrt_lt_R0; Lra.lra).
  assert (Hs : 0 < s) by (unfold s; Lra.nra).
  assert (Hss : s * s = A * B) by (unfold s; Lra.nra).
  assert (Hd' : - s <= d <= s) by (split; Lra.nra).
  unfold Rdiv. split.
  - apply Rmult_le_reg_r with s; [exact Hs|].
    rewrite Rmult_assoc, Rinv_l by Lra.lra. Lra.lra.
  - apply Rmult_le_reg_r with s; [exact Hs|].
    rewrite Rmult_assoc, Rinv_l by Lra.lra. Lra.lra.
Qed.

Lemma cosineSimilarityR_self (a : list R) :
  ~ Forall (fun x => x = 0) a -> cosineSimilarityR a a = 1.
Proof.
  intros Hnz. unfold cosineSimilarityR. rewrite Nat.eqb_refl. cbn [negb].
  destruct (cosineLoopR_self a 0 (Rle_refl 0)) as (n & -> & Hn & Hz).
  destruct (Req_dec_T n 0) as [H0 | H0]; [now elim Hnz; apply Hz|].
  destruct (Req_dec_T n 0) as [H1 | _]; [contradiction|].
  rewrite sqrt_sqrt by exact Hn. now apply Rdiv_diag.
Qed.

Local Close Scope R_scope.


(** ** cosineSimilarity where nothing rounds *)

Lemma isNumber_cases (x : float) :
  isNumber x = true ->
  (exists s, Prim2SF x = S754_zero s)
  \/ exists s m e, Prim2SF x = S754_finite s m e.
Proof.
  unfold isNumber. destruct (Prim2SF x) as [s | s | | s m e]; try discriminate.
  - left. now exists s.
  - right. now exists s, m, e.
Qed.

Lemma exactValue_finite_nonzero (s : bool) (m : positive) (e : Z) (x : float) :
  Prim2SF x = S754_finite s m e -> ~ (exactValue x == 0)%Q.
Proof.
  intros Hx. unfold exactValue. rewrite Hx.
  assert (Hpos : forall q : Q, (0 < q)%Q -> ~ (q == 0)%Q /\ ~ (- q == 0)%Q).
  { intros q Hq. split; intros H; rewrite ?H in Hq.
    - now apply Qlt_irrefl in Hq.
    - assert (H0 : (q == 0)%Q) by (rewrite <- (Qopp_involutive q), H; reflexivity).
      rewrite H0 in Hq. now apply Qlt_irrefl in Hq. }
  assert (Hmag : (0 < (if 0 <=? e then inject_Z (Zpos m * 2 ^ e)
                       else Zpos m # Z.to_pos (2 ^ (- e))))%Q).
  { destruct (0 <=? e) eqn:He.
    - apply Z.leb_le in He. change 0%Q with (inject_Z 0).
      rewrite <- Zlt_Qlt. apply Z.mul_pos_pos; [reflexivity|].
      now apply Z.pow_pos_nonneg.
    - reflexivity. }
  destruct (Hpos _ Hmag) as [H1 H2]. now destruct s.
Qed.

(** The test [x === 0] on a number is the test whether it denotes 0. *)
Lemma float_zero_test (x : float) :
  isNumber x = true ->
  ((x =? 0)%float = true <-> (exactValue x == 0)%Q).
Proof.
  intros Hx. destruct (isNumber_cases x Hx) as [[s Hs] | (s & m & e & Hs)].
  - split; intros _.
    + unfold exactValue. now rewrite Hs.
    + rewrite eqb_spec, Hs. now destruct s.
  - split.
    + rewrite eqb_spec, Hs. change (Prim2SF 0) with (S754_zero false).
      unfold SFeqb, SFcompare. now destruct s.
    + intros H. now apply (exactValue_finite_nonzero s m e x Hs) in H.
Qed.

Lemma realOf_zero : realOf 0 = 0%R.
Proof. unfold realOf. change (exactValue 0) with 0%Q. apply RMicromega.Q2R_0. Qed.

Lemma exactProduct_real (x y : float) :
  exactProduct x y = true ->
  isNumber (x * y) = true /\ realOf (x * y) = (realOf x * realOf y)%R.
Proof.
  unfold exactProduct, realOf. intros H. apply andb_true_iff in H.
  destruct H as [Hn Hq]. split; [exact Hn|].
  apply Qeq_bool_iff in Hq. rewrite <- Q2R_mult. now apply Qeq_eqR.
Qed.

Lemma exactSum_real (x y : float) :
  exactSum x y = true ->
  isNumber (x + y) = true /\ realOf (x + y) = (realOf x + realOf y)%R.
Proof.
  unfold exactSum, realOf. intros H. apply andb_true_iff in H.
  destruct H as [Hn Hq]. split; [exact Hn|].
  apply Qeq_bool_iff in Hq. rewrite <- Q2R_plus. now apply Qeq_eqR.
Qed.

(** The accumulators of an exact loop denote the accumulators of the loop
    over the reals. *)
Lemma exactLoop_real (a b : list float) (d nA nB : float) :
  exactLoop a b d nA nB = true ->
  isNumber nA = true -> isNumber nB = true ->
  let '(d', nA', nB') := cosineLoop a b d nA nB in
  cosineLoopR (map realOf a) (map realOf b) (realOf d) (realOf nA) (realOf nB)
  = (realOf d', realOf nA', realOf nB')
  /\ isNumber nA' = true /\ isNumber nB' = true.
Proof.
  revert b d nA nB; induction a as [|x a IH]; intros [|y b] d nA nB H HA HB;
    cbn [cosineLoop cosineLoopR map]; try now repeat split.
  cbn [exactLoop] in H.
  apply andb_true_iff in H. destruct H as [H Hrest].
  apply andb_true_iff in H. destruct H as [H HsB].
  apply andb_true_iff in H. destruct H as [H HpB].
  apply andb_true_iff in H. destruct H as [H HsA].
  apply andb_true_iff in H. destruct H as [H HpA].
  apply andb_true_iff in H. destruct H as [HpD HsD].
  apply exactProduct_real in HpD, HpA, HpB.
  apply exactSum_real in HsD, HsA, HsB.
  destruct HpD as [_ HpD], HpA as [_ HpA], HpB as [_ HpB].
  destruct HsD as [_ HsD], HsA as [HnA HsA], HsB as [HnB HsB].
  specialize (IH b (d + x * y)%float (nA + x * x)%float (nB + y * y)%float
                 Hrest HnA HnB).
  destruct (cosineLoop a b (d + x * y) (nA + x * x) (nB + y * y))
    as [[d' nA'] nB'].
  destruct IH as (IH & HA' & HB').
  split; [|now split]. rewrite HsD, HpD, HsA, HpA, HsB, HpB in IH. exact IH.
Qed.

Lemma realOf_zero_test (x : float) :
  isNumber x = true -> ((x =? 0)%float = true <-> realOf x = 0%R).
Proof.
  intros Hx. rewrite (float_zero_test x Hx). unfold realOf.
  rewrite <- RMicromega.Q2R_0. split; [apply Qeq_eqR | apply eqR_Qeq].
Qed.

Lemma exactRoot_real (x : float) :
  exactRoot x = true ->
  (0 <= realOf x)%R /\ realOf (PrimFloat.sqrt x) = R_sqrt.sqrt (realOf x).
Proof.
  unfold exactRoot, realOf. intros H.
  apply andb_true_iff in H. destruct H as [H Hsq].
  apply andb_true_iff in H. destruct H as [_ Hpos].
  apply Qle_bool_iff, Qle_Rle in Hpos. rewrite RMicromega.Q2R_0 in Hpos.
  apply Qeq_bool_iff, Qeq_eqR in Hsq. rewrite Q2R_mult in Hsq.
  assert (Hx : (0 <= Q2R (exactValue x))%R)
    by (rewrite <- Hsq; apply Rle_0_sqr).
  split; [exact Hx|].
  symmetry. now apply sqrt_lem_1.
Qed.

Lemma exactQuotient_real (x y : float) :
  exactQuotient x y = true ->
  (realOf (x / y) * realOf y)%R = realOf x.
Proof.
  unfold exactQuotient, realOf. intros H.
  apply andb_true_iff in H. destruct H as [_ Hq].
  apply Qeq_bool_iff, Qeq_eqR in Hq. now rewrite Q2R_mult in Hq.
Qed.

(** Where nothing rounds, the double cosineSimilarity returns denotes the
    value of the formula over the reals. *)
Lemma cosineSimilarity_real (a b : list float) :
  exactRun a b = true ->
  realOf (cosineSimilarity a b)
  = cosineSimilarityR (map realOf a) (map realOf b).
Proof.
  unfold exactRun. intros H.
  apply andb_true_iff in H. destruct H as [H Hend].
  apply andb_true_iff in H. destruct H as [_ Hloop].
  unfold cosineSimilarity, cosineSimilarityR. rewrite !length_map.
  destruct (negb _); [exact realOf_zero|].
  pose proof (exactLoop_real a b 0 0 0 Hloop eq_refl eq_refl) as Hreal.
  rewrite realOf_zero in Hreal.
  destruct (cosineLoop a b 0 0 0) as [[d nA] nB].
  destruct Hreal as (-> & HnA & HnB).
  pose proof (realOf_zero_test nA HnA) as HzA.
  pose proof (realOf_zero_test nB HnB) as HzB.
  destruct (Req_dec_T (realOf nA) 0) as [HA0 | HA0].
  { apply HzA in HA0. rewrite HA0. exact realOf_zero. }
  destruct (nA =? 0)%float; [now elim HA0; apply HzA|].
  destruct (Req_dec_T (realOf nB) 0) as [HB0 | HB0].
  { apply HzB in HB0. rewrite HB0. exact realOf_zero. }
  destruct (nB =? 0)%float; [now elim HB0; apply HzB|].
  cbn [orb] in Hend |- *.
  apply andb_true_iff in Hend. destruct Hend as [Hend Hquot].
  apply andb_true_iff in Hend. destruct Hend as [Hend Hprod].
  apply andb_true_iff in Hend. destruct Hend as [HrA HrB].
  apply exactRoot_real in HrA, HrB. apply exactProduct_real in Hprod.
  destruct HrA as [HposA HrA], HrB as [HposB HrB], Hprod as [_ Hprod].
  apply exactQuotient_real in Hquot. rewrite Hprod, HrA, HrB in Hquot.
  assert (Hs : (R_sqrt.sqrt (realOf nA) * R_sqrt.sqrt (realOf nB))%R <> 0%R).
  { intros H0. apply Rmult_integral in H0.
    destruct H0 as [H0 | H0]; apply sqrt_eq_0 in H0; assumption || contradiction. }
  rewrite <- Hquot. unfold Rdiv. rewrite Rmult_assoc, Rinv_r by exact Hs.
  now rewrite Rmult_1_r.
Qed.

Lemma cosineSimilarity_number (a b : list float) :
  exactRun a b = true -> isNumber (cosineSimilarity a b) = true.
Proof.
  unfold exactRun, cosineSimilarity. intros H.
  apply andb_true_iff in H. destruct H as [_ Hend].
  destruct (negb _); [reflexivity|].
  destruct (cosineLoop a b 0 0 0) as [[d nA] nB].
  destruct ((nA =? 0) || (nB =? 0))%float; [reflexivity|].
  cbn [orb] in Hend. apply andb_true_iff in Hend. destruct Hend as [_ Hquot].
  unfold exactQuotient in Hquot. apply andb_true_iff in Hquot.
  now destruct Hquot.
Qed.

Lemma realOf_not_all_zero (a : list float) :
  forallb isNumber a = true -> allZero a = false ->
  ~ Forall (fun x => x = 0%R) (map realOf a).
Proof.
  induction a as [|x a IH]; [discriminate|].
  cbn [forallb allZero map]. intros Hn Hz HF.
  apply andb_true_iff in Hn. destruct Hn as [Hx Hn].
  inversion HF as [|? ? Hx0 HF']; subst.
  apply (realOf_zero_test x Hx) in Hx0. rewrite Hx0 in Hz.
  now apply (IH Hn Hz).
Qed.

(** C9, amended. On doubles cosineSimilarity is symmetric, and it is 0 when
    either vector is all-zero. Where no operation of the evaluation rounds,
    the double it returns is the value of the formula over the reals: it
    lies in [-1, 1], and the similarity of a vector that is not all-zero
    with itself is 1. *)
Theorem cosineSimilarity_symmetric_and_exact_where_nothing_rounds :
  (forall a b : list float, cosineSimilarity a b = cosineSimilarity b a)
  /\ (forall a b : list float,
        allZero a = true \/ allZero b = true ->
        cosineSimilarity a b = 0%float)
  /\ (forall a b : list float,
        exactRun a b = true ->
        isNumber (cosineSimilarity a b) = true
        /\ realOf (cosineSimilarity a b)
           = cosineSimilarityR (map realOf a) (map realOf b))
  /\ (forall a b : list float,
        exactRun a b = true ->
        (- 1 <= exactValue (cosineSimilarity a b) <= 1)%Q)
  /\ (forall a : list float,
        exactRun a a = true -> allZero a = false ->
        (exactValue (cosineSimilarity a a) == 1)%Q).
Proof.
  split; [exact cosineSimilarity_symmetric|].
  split.
  { intros a b [Ha | Hb].
    - now apply cosineSimilarity_zero_left.
    - rewrite cosineSimilarity_symmetric. now apply cosineSimilarity_zero_left. }
  split.
  { intros a b Hrun. split;
      [now apply cosineSimilarity_number | now apply cosineSimilarity_real]. }
  split.
  - intros a b Hrun.
    pose proof (cosineSimilarityR_range (map realOf a) (map realOf b)) as Hr.
    rewrite <- (cosineSimilarity_real a b Hrun) in Hr. unfold realOf in Hr.
    destruct Hr as [Hlo Hhi]. split; apply Rle_Qle.
    + replace (Q2R (- 1)) with (-1)%R; [exact Hlo|].
      unfold Q2R. cbn. Lra.lra.
    + replace (Q2R 1) with 1%R; [exact Hhi|].
      unfold Q2R. cbn. Lra.lra.
  - intros a Hrun Hnz. apply eqR_Qeq.
    change (realOf (cosineSimilarity a a) = Q2R 1).
    rewrite (cosineSimilarity_real a a Hrun).
    replace (Q2R 1) with 1%R by (unfold Q2R; cbn; Lra.lra).
    apply cosineSimilarityR_self, realOf_not_all_zero; [|exact Hnz].
    unfold exactRun in Hrun.
    apply andb_true_iff in Hrun. destruct Hrun as [Hrun _].
    apply andb_true_iff in Hrun. destruct Hrun as [Hrun _].
    apply andb_true_iff in Hrun. now destruct Hrun.
Qed.

(** The similarity of [3, 4] with itself: 25 / (5 * 5), nothing rounded. *)
Lemma cosineSimilarity_symmetric_and_exact_where_nothing_rounds_witness :
  exactRun [3; 4]%float [3; 4]%float = true
  /\ allZero [3; 4]%float = false
  /\ (exactValue (cosineSimilarity [3; 4]%float [3; 4]%float) == 1)%Q.
Proof.
  split; [vm_compute; reflexivity|]. split; [vm_compute; reflexivity|].
  apply cosineSimilarity_symmetric_and_exact_where_nothing_rounds;
    vm_compute; reflexivity.
Defined.

(** Evaluations in which nothing rounds: orthogonal vectors, opposite
    vectors, and two vectors at 60 degrees. And two in which something
    does: 24/25 is no double, and neither is the square root of 3. *)
Example cosineSimilarity_exact_runs :
  exactRun [1; 0]%float [0; 1]%float = true
  /\ cosineSimilarity [1; 0]%float [0; 1]%float = 0%float
  /\ exactRun [3; 4]%float [-3; -4]%float = true
  /\ cosineSimilarity [3; 4]%float [-3; -4]%float = (-1)%float
  /\ exactRun [1; 1; 1; 1]%float [1; 0; 0; 0]%float = true
  /\ cosineSimilarity [1; 1; 1; 1]%float [1; 0; 0; 0]%float = 0x1p-1%float
  /\ exactRun [3; 4]%float [4; 3]%float = false
  /\ exactRun [1; 1; 1]%float [1; 1; 1]%float = false.
Proof. repeat split; vm_compute; reflexivity. Qed.

(** A similarity of exactly 0.3 is a value cosineSimilarity takes, and
    [0.3 > 0.3] is false. *)
Example cosineSimilarity_exactly_at_floor :
  cosineSimilarity [1; 0; 0; 0]%float [3; 9; 3; 1]%float = 0x1.3333333333333p-2%float
  /\ (0x1.3333333333333p-2 <? cosineSimilarity [1; 0; 0; 0] [3; 9; 3; 1])%float
     = false.
Proof. split; vm_compute; reflexivity. Qed.

(* ================================================================= *)
(** * Further properties *)

(** ** A chat turn, path by path *)

Lemma logDecision_run env t u a act dec r i o m (w : World) :
  logDecision env t u a act dec r i o m w
  = (Ok tt, logged env (mkLog t u a act dec r i o m) w).
Proof.
  unfold logDecision, logged, tryCatch, bind, statement, modifyDb, throw, ret.
  destruct (rejects env InsertDecisionLog); reflexivity.
Qed.

Lemma orUuid_run env c (w : World) :
  orUuid env c w
  = (Ok (fst (conversationOf env c w)), snd (conversationOf env c w)).
Proof.
  unfold orUuid, conversationOf, newUuid, drawn, ret.
  destruct c as [c|]; [destruct (String.eqb c "")|]; reflexivity.
Qed.

Lemma getLLMClient_run (env : Env) (tenantId : string) (w : World) :
  getLLMClient env tenantId w
  = (match clientOf env (db w) tenantId with
     | Resolved openai => Ok openai
     | Rejected e => Throw e
     end, w).
Proof.
  unfold getLLMClient, clientOf, defaultProvider, bind, getDb, await, throw, ret.
  destruct (find _ (llm_providers (db w))); [|reflexivity].
  destruct (decrypt env _); reflexivity.
Qed.

(** Retrieval asks the embedding provider once, for the first 8000
    characters of the query, and leaves the rest of the world as it was. *)
Lemma retrieveContext_world (env : Env) (w : World)
    (query agentId tenantId : string) (topK : Z) :
  snd (retrieveContext env query agentId tenantId topK w)
  = asked (queryInput query) w.
Proof.
  unfold retrieveContext, tryCatch, bind at 1, generateEmbedding, bind at 1,
    recordCall. fold (queryInput query). fold (asked (queryInput query) w).
  destruct (embed env (queryInput query)) as [qv | e]; [|reflexivity].
  unfold ret at 1, bind at 1, statement.
  destruct (rejects env SelectCollections); [reflexivity|].
  unfold ret at 1, bind at 1, getDb.
  destruct (selectCollectionIds _ tenantId agentId) as [|c cs];
    [reflexivity|].
  unfold bind at 1. destruct (rejects env SelectEmbeddings); [reflexivity|].
  unfold ret at 1.
  destruct (selectEmbeddings _ (c :: cs)) as [|r rs]; reflexivity.
Qed.

Lemma retrieveContext_returns (env : Env) (w : World)
    (query agentId tenantId : string) (topK : Z) :
  exists r,
    retrieveContext env query agentId tenantId topK w
    = (Ok r, asked (queryInput query) w).
Proof.
  pose proof (retrieveContext_run env w query agentId tenantId topK) as H1.
  pose proof (retrieveContext_world env w query agentId tenantId topK) as H2.
  destruct (retrieveContext env query agentId tenantId topK w) as [out w'].
  cbn [fst snd] in *. subst. eexists. reflexivity.
Qed.

Lemma refuse_run env tenantId userId agentId message conversationId text
    why evidence (w : World) :
  (logDecision env tenantId userId agentId "chat" DecisionBlocked
               (reasonText why) message None None ;;
   convId <- orUuid env conversationId ;;
   ret (mkResponse text convId 0 true (reason why) evidence)) w
  = refuse env tenantId userId agentId message conversationId text why
           evidence w.
Proof.
  unfold bind at 1. rewrite logDecision_run. unfold bind at 1.
  rewrite orUuid_run. reflexivity.
Qed.

Lemma getHistory_run (env : Env) (conversationId : option string) (w : World) :
  getHistory env conversationId w
  = match (if namesConversation conversationId
           then rejects env SelectHistory else None) with
    | Some e => (Throw e, w)
    | None => (Ok (historyOf conversationId (db w)), w)
    end.
Proof.
  unfold getHistory, namesConversation, historyOf.
  destruct conversationId as [c|]; [|reflexivity].
  destruct (String.eqb c ""); [reflexivity|]. cbn [negb].
  unfold bind at 1, statement.
  destruct (rejects env SelectHistory); reflexivity.
Qed.

(** The writes of an answered turn, then its log row and its response. *)
Lemma stored_run (env : Env) (agent : Agent) (found : list RAGEvidence)
    (message agentId userId tenantId convId : string)
    (completion : Completion) (w : World) :
  (statement env UpdateCost ;;
   modifyDb (updateAgents
               (addCost env agentId (estimateCost (tokensOf completion)))) ;;
   statement env InsertUserMessage ;;
   modifyDb (insertMessage
     (mkMessage tenantId userId agentId convId RoleUser message 0 None)) ;;
   statement env InsertAssistantMessage ;;
   modifyDb (insertMessage
     (mkMessage tenantId userId agentId convId RoleAssistant
                (responseOf completion) (tokensOf completion) (Some found))) ;;
   logDecision env tenantId userId agentId "chat" DecisionAllowed
     ("Response generated with "
      ++ JS.numberToString (Z.of_nat (List.length found))
      ++ " evidence sources")%string
     (truncateText message 200) (Some (truncateText (responseOf completion) 200))
     (Some (tokensOf completion, Z.of_nat (List.length found), mode agent)) ;;
   ret (mkResponse (responseOf completion) convId (tokensOf completion) false
                   None (Some found))) w
  = stored env agent found message agentId userId tenantId convId completion w.
Proof.
  unfold stored. unfold bind at 1, statement.
  destruct (rejects env UpdateCost); [reflexivity|].
  unfold ret at 1, bind at 1, modifyDb at 1, bind at 1.
  destruct (rejects env InsertUserMessage); [reflexivity|].
  unfold ret at 1, bind at 1, modifyDb at 1, bind at 1.
  destruct (rejects env InsertAssistantMessage); [reflexivity|].
  unfold ret at 1, bind at 1, modifyDb at 1, bind at 1.
  rewrite logDecision_run. reflexivity.
Qed.

(** chat, as the turn on the first active agent row of the tenant. *)
Lemma chat_run (env : Env) (w : World)
    (message agentId userId tenantId : string)
    (conversationId : option string) :
  chat env message agentId userId tenantId conversationId w
  = match selectActiveAgent (db w) agentId tenantId with
    | [] => (Throw "Agent not found or inactive", w)
    | agent :: _ =>
        turn env agent message agentId userId tenantId conversationId w
    end.
Proof.
  unfold chat, bind at 1, getDb.
  destruct (selectActiveAgent (db w) agentId tenantId) as [|agent others];
    [reflexivity|].
  unfold turn.
  destruct (kill_switch agent).
  { exact (refuse_run env tenantId userId agentId message conversationId
             KILL_RESPONSE KILL_CHECK None w). }
  destruct (Qle_bool (cost_limit_daily agent) (cost_used_today agent)).
  { exact (refuse_run env tenantId userId agentId message conversationId
             LIMIT_RESPONSE LIMIT_CHECK None w). }
  destruct (negb (allowed (checkContract env message agent))).
  { exact (refuse_run env tenantId userId agentId message conversationId
             SCOPE_RESPONSE (checkContract env message agent) None w). }
  unfold bind at 1, ragOf.
  assert (Hrag : exists rag w1,
    (if enable_rag agent
     then retrieveContext env message agentId tenantId 5
     else ret ("", [])) w = (Ok rag, w1)
    /\ rag = (if enable_rag agent
              then match fst (retrieveContext env message agentId tenantId 5 w) with
                   | Ok r => r
                   | _ => ("", [])
                   end
              else ("", []))
    /\ w1 = (if enable_rag agent then asked (queryInput message) w else w)).
  { destruct (enable_rag agent).
    - destruct (retrieveContext_returns env w message agentId tenantId 5)
        as (r & ->). now exists r, (asked (queryInput message) w).
    - now exists ("", []), w. }
  destruct Hrag as (rag & w1 & -> & <- & <-).
  destruct (negb (allowed (checkModeRequirements (mode agent) (snd rag)))).
  { exact (refuse_run env tenantId userId agentId message conversationId
             KNOWLEDGE_RESPONSE
             (checkModeRequirements (mode agent) (snd rag)) (Some []) w1). }
  unfold answer, bind at 1. rewrite orUuid_run. unfold bind at 1.
  rewrite getHistory_run.
  destruct (if namesConversation conversationId
            then rejects env SelectHistory else None); [reflexivity|].
  unfold bind at 1. rewrite getLLMClient_run.
  destruct (clientOf env (db (snd (conversationOf env conversationId w1)))
                     tenantId) as [openai | e]; [|reflexivity].
  unfold bind at 1, createCompletion, bind at 1, recordCall, await.
  fold (chatRequest agent (fst rag) conversationId
          (db (snd (conversationOf env conversationId w1))) message).
  destruct (complete env openai _) as [completion | e]; [|reflexivity].
  unfold ret at 1. apply stored_run.
Qed.

Lemma selectActiveAgent_in (d : Db) (agentId tenantId : string) (agent : Agent)
    (others : list Agent) :
  selectActiveAgent d agentId tenantId = agent :: others ->
  In agent (agents d) /\ agent_id agent = agentId
  /\ agent_tenant_id agent = tenantId /\ is_active agent = true.
Proof.
  intros H.
  assert (Hin : In agent (selectActiveAgent d agentId tenantId))
    by (rewrite H; now left).
  apply filter_In in Hin. destruct Hin as [Hin Hb].
  apply andb_true_iff in Hb. destruct Hb as [Hb Hactive].
  apply andb_true_iff in Hb. destruct Hb as [Hid Htenant].
  apply String.eqb_eq in Hid, Htenant. now repeat split.
Qed.

Lemma checkContract_allowed (env : Env) (message : string) (agent : Agent) :
  allowed (checkContract env message agent) = true ->
  Forall (fun topic => ~ Mentions env message topic) (forbidden_topics agent)
  /\ (allowed_topics agent = []
      \/ Exists (Mentions env message) (allowed_topics agent)).
Proof.
  unfold checkContract.
  destruct (find _ (forbidden_topics agent)) as [topic|] eqn:Hfind;
    [discriminate|].
  apply find_none_forall in Hfind. intros H. split.
  - eapply Forall_impl; [|exact Hfind]. cbv beta. intros topic Hno Hyes.
    apply mentions_spec in Hyes. congruence.
  - destruct (allowed_topics agent) as [|t ts] eqn:Hts; [now left|]. right.
    destruct (existsb _ (t :: ts)) eqn:Hex; [|discriminate].
    apply existsb_exists in Hex. destruct Hex as (topic & Hin & Hm).
    apply Exists_exists. exists topic. split; [exact Hin|].
    now apply mentions_spec.
Qed.

Lemma checkContract_forbidden (env : Env) (message : string) (agent : Agent) :
  Exists (Mentions env message) (forbidden_topics agent) ->
  allowed (checkContract env message agent) = false.
Proof.
  intros H. destruct (allowed (checkContract env message agent)) eqn:E;
    [|reflexivity].
  apply checkContract_allowed in E. destruct E as [Hall _].
  apply Exists_exists in H. destruct H as (topic & Hin & Hyes).
  rewrite Forall_forall in Hall. now destruct (Hall topic Hin).
Qed.

Lemma checkContract_reason (env : Env) (message : string) (agent : Agent) :
  allowed (checkContract env message agent) = false ->
  reason (checkContract env message agent)
  = Some (reasonText (checkContract env message agent)).
Proof.
  unfold checkContract.
  destruct (find _ (forbidden_topics agent)); [reflexivity|].
  destruct (allowed_topics agent); [discriminate|].
  destruct (existsb _ _); [discriminate | reflexivity].
Qed.

Lemma checkModeRequirements_reason (m : AgentMode) (evidence : list RAGEvidence) :
  allowed (checkModeRequirements m evidence) = false ->
  m = INTERNAL
  /\ reason (checkModeRequirements m evidence)
     = Some (reasonText (checkModeRequirements m evidence)).
Proof.
  destruct m; try discriminate. cbn [checkModeRequirements].
  destruct evidence as [|e es]; [now split|].
  destruct (match mathMax _ with None => true | Some m => Qltb m CONFIDENCE_FLOOR end);
    [now split | discriminate].
Qed.

Lemma checkModeRequirements_internal (evidence : list RAGEvidence) :
  allowed (checkModeRequirements INTERNAL evidence) = true ->
  exists e, In e evidence /\ (1 # 2 <= similarity_score e)%Q.
Proof.
  destruct evidence as [|e es]; [discriminate|].
  unfold checkModeRequirements.
  destruct (mathMax_isMaximum (similarity_score e) (map similarity_score es))
    as (m & Hm & Hin & _).
  change (similarity_score e :: map similarity_score es)
    with (map similarity_score (e :: es)) in Hm, Hin.
  rewrite Hm. destruct (Qltb m CONFIDENCE_FLOOR) eqn:E; [discriminate|].
  intros _. apply Qltb_ge in E. apply in_map_iff in Hin.
  destruct Hin as (e' & <- & Hin). now exists e'.
Qed.

(** What a blocked turn returns and leaves behind. *)
Lemma refuse_effect env tenantId userId agentId message conversation text
    check evidence (w w' : World) (out : Outcome ChatResponse) :
  refuse env tenantId userId agentId message conversation text check evidence w
  = (out, w') ->
  exists convId,
    out = Ok (mkResponse text convId 0 true (reason check) evidence)
    /\ calls w' = calls w
    /\ agents (db w') = agents (db w)
    /\ chat_messages (db w') = chat_messages (db w)
    /\ (decision_logs (db w')
        = decision_logs (db w)
          ++ [blockedRow tenantId userId agentId (reasonText check) message]
        \/ (rejects env InsertDecisionLog <> None
            /\ decision_logs (db w') = decision_logs (db w))).
Proof.
  unfold refuse, logged, conversationOf, drawn. intros [= <- <-].
  eexists. split; [reflexivity|].
  destruct (rejects env InsertDecisionLog) eqn:Hlog;
    (destruct conversation as [c|]; [destruct (String.eqb c "")|]);
    cbn; repeat split; solve [now left | right; split; [discriminate | reflexivity]].
Qed.

(** What a turn that passed the checks returns and leaves behind. *)
Lemma answer_effect env agent rag message agentId userId tenantId conversation
    (w w' : World) (out : Outcome ChatResponse) :
  answer env agent rag message agentId userId tenantId conversation w
  = (out, w') ->
  match out with
  | Ok r =>
      exists openai completion,
        clientOf env (db w) tenantId = Resolved openai
        /\ complete env openai
             (chatRequest agent (fst rag) conversation (db w) message)
           = Resolved completion
        /\ r = mkResponse (responseOf completion)
                          (fst (conversationOf env conversation w))
                          (tokensOf completion) false None (Some (snd rag))
        /\ calls w'
           = calls w ++ [CompletionCall openai
                           (chatRequest agent (fst rag) conversation (db w)
                                        message)]
        /\ exists logs,
             db w'
             = mkDb (map (addCost env agentId (estimateCost (tokensUsed r)))
                         (agents (db w)))
                    (collections (db w)) (agent_collections (db w))
                    (documents (db w)) (embeddings (db w))
                    (llm_providers (db w))
                    (chat_messages (db w)
                     ++ [userMessage tenantId userId agentId (conversationId r)
                                     message;
                         assistantMessage tenantId userId agentId
                           (conversationId r) (response r) (tokensUsed r)
                           (snd rag)])
                    logs
             /\ (logs = decision_logs (db w)
                        ++ [allowedRow tenantId userId agentId message
                              (response r) (tokensUsed r) (snd rag) (mode agent)]
                 \/ (rejects env InsertDecisionLog <> None
                     /\ logs = decision_logs (db w)))
  | Throw e =>
      db w' = db w
      \/ exists openai request completion,
           In (CompletionCall openai request) (calls w')
           /\ complete env openai request = Resolved completion
           /\ ((rejects env InsertUserMessage = Some e
                /\ db w' = charged env agentId (tokensOf completion) (db w))
               \/ (rejects env InsertAssistantMessage = Some e
                   /\ exists convId,
                        db w'
                        = insertMessage
                            (userMessage tenantId userId agentId convId message)
                            (charged env agentId (tokensOf completion) (db w))))
  | Hang => False
  end.
Proof.
  unfold answer.
  assert (Hdb : db (snd (conversationOf env conversation w)) = db w).
  { unfold conversationOf, drawn.
    destruct conversation as [c|]; [destruct (String.eqb c "")|]; reflexivity. }
  assert (Hcalls : calls (snd (conversationOf env conversation w)) = calls w).
  { unfold conversationOf, drawn.
    destruct conversation as [c|]; [destruct (String.eqb c "")|]; reflexivity. }
  rewrite Hdb, Hcalls.
  destruct (if namesConversation conversation
            then rejects env SelectHistory else None) as [e|].
  { intros [= <- <-]. now left. }
  destruct (clientOf env (db w) tenantId) as [openai | e] eqn:Hclient.
  2:{ intros [= <- <-]. now left. }
  destruct (complete env openai _) as [completion | e] eqn:Hcomplete.
  2:{ intros [= <- <-]. now left. }
  unfold stored, withDatabase. cbn [db calls uuids].
  destruct (rejects env UpdateCost) as [e|].
  { intros [= <- <-]. now left. }
  destruct (rejects env InsertUserMessage) as [e|] eqn:Huser.
  { intros [= <- <-]. right. exists openai. eexists. exists completion.
    split; [cbn [calls]; apply in_or_app; right; now left|].
    split; [exact Hcomplete|]. left. now split. }
  destruct (rejects env InsertAssistantMessage) as [e|] eqn:Hassistant.
  { intros [= <- <-]. right. exists openai. eexists. exists completion.
    split; [cbn [calls]; apply in_or_app; right; now left|].
    split; [exact Hcomplete|]. right. split; [reflexivity|].
    eexists. reflexivity. }
  intros [= <- <-]. exists openai, completion.
  split; [reflexivity|]. split; [exact Hcomplete|]. split; [reflexivity|].
  unfold logged, recorded, charged, insertLog, insertMessage, updateAgents.
  cbn [response conversationId tokensUsed].
  destruct (rejects env InsertDecisionLog) eqn:Hlog; cbn; rewrite <- app_assoc.
  - split; [reflexivity|]. eexists. split; [reflexivity|].
    right. split; [discriminate | reflexivity].
  - split; [reflexivity|]. eexists. split; [reflexivity|]. now left.
Qed.

(** The paths of a turn: it is refused at one of the four checks, or it is
    answered with every check passed. *)
Lemma turn_cases env agent message agentId userId tenantId conversation
    (w : World) :
  let rag := ragOf env agent message agentId tenantId w in
  let w1 := if enable_rag agent then asked (queryInput message) w else w in
  (exists text check found,
     turn env agent message agentId userId tenantId conversation w
     = refuse env tenantId userId agentId message conversation text check
              found w
     /\ reason check = Some (reasonText check)
     /\ (kill_switch agent = true
         \/ (cost_limit_daily agent <= cost_used_today agent)%Q
         \/ allowed (checkContract env message agent) = false))
  \/ (turn env agent message agentId userId tenantId conversation w
      = refuse env tenantId userId agentId message conversation
               KNOWLEDGE_RESPONSE
               (checkModeRequirements (mode agent) (snd rag)) (Some []) w1
      /\ allowed (checkModeRequirements (mode agent) (snd rag)) = false
      /\ kill_switch agent = false
      /\ allowed (checkContract env message agent) = true)
  \/ (turn env agent message agentId userId tenantId conversation w
      = answer env agent rag message agentId userId tenantId conversation w1
      /\ kill_switch agent = false
      /\ (cost_used_today agent < cost_limit_daily agent)%Q
      /\ allowed (checkContract env message agent) = true
      /\ allowed (checkModeRequirements (mode agent) (snd rag)) = true).
Proof.
  intros rag w1. unfold turn. fold rag. fold w1.
  destruct (kill_switch agent).
  { left. exists KILL_RESPONSE, KILL_CHECK, None.
    split; [reflexivity|]. split; [reflexivity | now left]. }
  destruct (Qle_bool (cost_limit_daily agent) (cost_used_today agent)) eqn:Hcost.
  { left. exists LIMIT_RESPONSE, LIMIT_CHECK, None.
    split; [reflexivity|]. split; [reflexivity|]. right; left.
    now apply Qle_bool_iff. }
  assert (Hlt : (cost_used_today agent < cost_limit_daily agent)%Q).
  { apply Qnot_le_lt. intros Hle. apply Qle_bool_iff in Hle. congruence. }
  destruct (allowed (checkContract env message agent)) eqn:Hcontract; cbn [negb].
  2:{ left. exists SCOPE_RESPONSE, (checkContract env message agent), None.
      split; [reflexivity|]. split; [now apply checkContract_reason|].
      right; now right. }
  destruct (allowed (checkModeRequirements (mode agent) (snd rag))) eqn:Hmode;
    cbn [negb].
  - right; right. now repeat split.
  - right; left. now repeat split.
Qed.

(** X1. chat serves only an active agent of the caller's tenant: when no
    row of the agents table has the agent's id, the tenant's id and
    is_active set, the call throws [Agent not found or inactive] and leaves
    the world as it was: no log row, no provider call. *)
Theorem chat_refuses_agent_outside_tenant
    (env : Env) (w : World) (message agentId userId tenantId : string)
    (conversation : option string) :
  (forall a, In a (agents (db w)) -> agent_id a = agentId ->
             agent_tenant_id a = tenantId -> is_active a = false) ->
  chat env message agentId userId tenantId conversation w
  = (Throw "Agent not found or inactive", w).
Proof.
  intros Hnone. rewrite chat_run.
  destruct (selectActiveAgent (db w) agentId tenantId) as [|agent others] eqn:E;
    [reflexivity|].
  destruct (selectActiveAgent_in _ _ _ _ _ E) as (Hin & Hid & Htenant & Hactive).
  rewrite (Hnone agent Hin Hid Htenant) in Hactive. discriminate.
Qed.

Lemma chat_refuses_agent_outside_tenant_witness :
  chat Example.env0 "hello" "agent" "user" "another tenant" None Example.world0
  = (Throw "Agent not found or inactive", Example.world0).
Proof.
  apply chat_refuses_agent_outside_tenant.
  intros a [<- | []] _ H. discriminate H.
Defined.

(** X2. chat answers only when every check passed. A response that is not
    blocked comes from an active agent of the tenant whose kill switch is
    off and whose cost of the day is below its limit, for a message whose
    lower case contains the lower case of no forbidden topic and, if the
    agent lists allowed topics, of one of them; on ASCII text, that is a
    message which contains, letter case aside, no forbidden topic and one of
    the allowed topics. And for an INTERNAL agent retrieval is enabled and
    the evidence returned holds an item that scores at least 0.5. *)
Theorem chat_answers_only_when_every_check_passes
    (env : Env) (w w' : World) (message agentId userId tenantId : string)
    (conversation : option string) (r : ChatResponse) :
  chat env message agentId userId tenantId conversation w = (Ok r, w') ->
  blocked r = false ->
  exists agent found,
    In agent (agents (db w))
    /\ agent_id agent = agentId /\ agent_tenant_id agent = tenantId
    /\ is_active agent = true
    /\ kill_switch agent = false
    /\ (cost_used_today agent < cost_limit_daily agent)%Q
    /\ Forall (fun topic => ~ Mentions env message topic)
              (forbidden_topics agent)
    /\ (allowed_topics agent = []
        \/ Exists (Mentions env message) (allowed_topics agent))
    /\ (JS.isAscii message = true ->
        Forall (fun topic => JS.isAscii topic = true ->
                             ~ ContainsIgnoringCase message topic)
               (forbidden_topics agent)
        /\ (forallb JS.isAscii (allowed_topics agent) = true ->
            allowed_topics agent = []
            \/ Exists (ContainsIgnoringCase message) (allowed_topics agent)))
    /\ evidence r = Some found
    /\ (mode agent = INTERNAL ->
        enable_rag agent = true
        /\ exists e, In e found /\ (1 # 2 <= similarity_score e)%Q).
Proof.
  intros Hrun Hblocked. rewrite chat_run in Hrun.
  destruct (selectActiveAgent (db w) agentId tenantId) as [|agent others] eqn:E;
    [discriminate|].
  destruct (selectActiveAgent_in _ _ _ _ _ E) as (Hin & Hid & Htenant & Hactive).
  destruct (turn_cases env agent message agentId userId tenantId conversation w)
    as [(text & check & found & Hturn & _) | [(Hturn & _)
        | (Hturn & Hkill & Hcost & Hcontract & Hmode)]];
    rewrite Hturn in Hrun.
  - apply refuse_effect in Hrun. destruct Hrun as (c & [= ->] & _).
    discriminate.
  - apply refuse_effect in Hrun. destruct Hrun as (c & [= ->] & _).
    discriminate.
  - apply answer_effect in Hrun.
    destruct Hrun as (openai & completion & _ & _ & -> & _).
    destruct (checkContract_allowed _ _ _ Hcontract) as [Hforbidden Hallowed].
    exists agent, (snd (ragOf env agent message agentId tenantId w)).
    split; [exact Hin|]. split; [exact Hid|]. split; [exact Htenant|].
    split; [exact Hactive|]. split; [exact Hkill|]. split; [exact Hcost|].
    split; [exact Hforbidden|]. split; [exact Hallowed|].
    split.
    { intros Hascii. split.
      - eapply Forall_impl; [|exact Hforbidden]. cbv beta.
        intros topic Hno Htopic Hyes. apply Hno.
        now apply Mentions_ascii.
      - intros Htopics. destruct Hallowed as [Hnone | Hsome]; [now left|].
        right. apply Exists_exists in Hsome.
        destruct Hsome as (topic & Hin' & Hyes).
        apply Exists_exists. exists topic. split; [exact Hin'|].
        apply (Mentions_ascii env); trivial.
        exact (forallb_isAscii _ _ Htopics Hin'). }
    split; [reflexivity|]. intros Hinternal. rewrite Hinternal in Hmode. split.
    + unfold ragOf in Hmode. destruct (enable_rag agent); [reflexivity|].
      discriminate.
    + now apply checkModeRequirements_internal.
Qed.

Lemma chat_answers_only_when_every_check_passes_witness :
  exists agent found,
    In agent (agents Example.db0)
    /\ agent_id agent = "agent" /\ agent_tenant_id agent = "tenant"
    /\ is_active agent = true
    /\ kill_switch agent = false
    /\ (cost_used_today agent < cost_limit_daily agent)%Q
    /\ Forall (fun topic => ~ Mentions Example.env0 "hello" topic)
              (forbidden_topics agent)
    /\ (allowed_topics agent = []
        \/ Exists (Mentions Example.env0 "hello") (allowed_topics agent))
    /\ (JS.isAscii "hello" = true ->
        Forall (fun topic => JS.isAscii topic = true ->
                             ~ ContainsIgnoringCase "hello" topic)
               (forbidden_topics agent)
        /\ (forallb JS.isAscii (allowed_topics agent) = true ->
            allowed_topics agent = []
            \/ Exists (ContainsIgnoringCase "hello") (allowed_topics agent)))
    /\ Some (snd (retrieved (candidates Example.db0 "tenant" "agent"
                                        [1; 0; 0; 0]%float) 5))
       = Some found
    /\ (mode agent = INTERNAL ->
        enable_rag agent = true
        /\ exists e, In e found /\ (1 # 2 <= similarity_score e)%Q).
Proof.
  exact (chat_answers_only_when_every_check_passes
           Example.env0 Example.world0 _ "hello" "agent" "user" "tenant" None _
           eq_refl eq_refl).
Defined.

(** X3. An answered turn is stored in full. When chat returns a response
    that is not blocked, the provider was asked once for a completion (after
    the one embedding call of retrieval, if the agent has retrieval enabled)
    with the system prompt first, then the first twenty stored messages of
    the conversation, then the user's message; the store added to the cost
    of the day of every agent row with the id the estimated cost of the
    tokens reported, (tokens / 1000) * 0.01 as a double; the user's message
    and the assistant's answer, with the evidence, were appended to the
    conversation returned; and no other table changed, the decision log
    apart, which gained the row of the allowed decision unless its insert
    was rejected. *)
Theorem chat_answered_turn_is_recorded
    (env : Env) (w w' : World) (message agentId userId tenantId : string)
    (conversation : option string) (r : ChatResponse) :
  chat env message agentId userId tenantId conversation w = (Ok r, w') ->
  blocked r = false ->
  exists agent context found openai,
    In agent (agents (db w)) /\ agent_id agent = agentId
    /\ evidence r = Some found
    /\ (forall c, conversation = Some c -> c <> "" -> conversationId r = c)
    /\ calls w'
       = calls w
         ++ (if enable_rag agent then [EmbeddingCall (queryInput message)]
             else [])
         ++ [CompletionCall openai
               (requestFor agent
                  ([(RoleSystem, buildSystemPrompt agent context)]
                   ++ historyOf conversation (db w)
                   ++ [(RoleUser, message)]))]
    /\ agents (db w')
       = map (addCost env agentId (estimateCost (tokensUsed r)))
             (agents (db w))
    /\ chat_messages (db w')
       = chat_messages (db w)
         ++ [userMessage tenantId userId agentId (conversationId r) message;
             assistantMessage tenantId userId agentId (conversationId r)
                              (response r) (tokensUsed r) found]
    /\ collections (db w') = collections (db w)
    /\ agent_collections (db w') = agent_collections (db w)
    /\ documents (db w') = documents (db w)
    /\ embeddings (db w') = embeddings (db w)
    /\ llm_providers (db w') = llm_providers (db w)
    /\ (decision_logs (db w')
        = decision_logs (db w)
          ++ [allowedRow tenantId userId agentId message (response r)
                         (tokensUsed r) found (mode agent)]
        \/ (rejects env InsertDecisionLog <> None
            /\ decision_logs (db w') = decision_logs (db w))).
Proof.
  intros Hrun Hblocked. rewrite chat_run in Hrun.
  destruct (selectActiveAgent (db w) agentId tenantId) as [|agent others] eqn:E;
    [discriminate|].
  destruct (selectActiveAgent_in _ _ _ _ _ E) as (Hin & Hid & _).
  destruct (turn_cases env agent message agentId userId tenantId conversation w)
    as [(text & check & found & Hturn & _) | [(Hturn & _) | (Hturn & _)]];
    rewrite Hturn in Hrun.
  - apply refuse_effect in Hrun. destruct Hrun as (c & [= ->] & _).
    discriminate.
  - apply refuse_effect in Hrun. destruct Hrun as (c & [= ->] & _).
    discriminate.
  - apply answer_effect in Hrun.
    destruct Hrun as (openai & completion & _ & _ & Hr & Hcalls & logs & Hdb
                      & Hlogs).
    set (rag := ragOf env agent message agentId tenantId w) in *.
    assert (Hw1 : db (if enable_rag agent then asked (queryInput message) w
                      else w) = db w) by now destruct (enable_rag agent).
    rewrite Hw1 in *.
    exists agent, (fst rag), (snd rag), openai.
    split; [exact Hin|]. split; [exact Hid|].
    split; [now rewrite Hr|].
    split.
    { intros c -> Hc. rewrite Hr. cbn [conversationId conversationOf].
      destruct (String.eqb c "") eqn:Ec; [|reflexivity].
      apply String.eqb_eq in Ec. contradiction. }
    split.
    { rewrite Hcalls. unfold chatRequest.
      destruct (enable_rag agent); cbn [asked calls];
        [now rewrite <- app_assoc | reflexivity]. }
    rewrite Hdb. cbn [agents chat_messages collections agent_collections
                      documents embeddings llm_providers decision_logs].
    repeat split. exact Hlogs.
Qed.

Lemma chat_answered_turn_is_recorded_witness :
  let w' := snd (chat Example.env0 "hello" "agent" "user" "tenant" (Some "c1")
                      Example.world0) in
  agents (db w')
  = [addCost Example.env0 "agent" (estimateCost 1000) Example.agent0]
  /\ List.length (chat_messages (db w')) = 2%nat.
Proof.
  set (run := chat Example.env0 "hello" "agent" "user" "tenant" (Some "c1")
                   Example.world0).
  set (r := match fst run with
            | Ok r => r
            | _ => mkResponse "" "" 0 true None None
            end).
  assert (Hrun : run = (Ok r, snd run)) by (vm_compute; reflexivity).
  assert (Hanswered : blocked r = false) by (vm_compute; reflexivity).
  destruct (chat_answered_turn_is_recorded
              Example.env0 Example.world0 (snd run) "hello" "agent" "user"
              "tenant" (Some "c1") r Hrun Hanswered)
    as (agent & context & found & openai & _ & _ & _ & _ & _ & Hagents
        & Hmessages & _).
  cbv zeta. rewrite Hagents, Hmessages. split; vm_compute; reflexivity.
Defined.

(** X4. A blocked turn spends nothing. When chat returns a blocked
    response, no token is counted, no completion was requested (at most the
    one embedding call of retrieval was made), the agent's cost and the
    stored messages are as before, and the decision log gained one row, with
    the reason given in the response and the whole message as its input
    preview, unless its insert was rejected. *)
Theorem chat_blocked_turn_spends_nothing
    (env : Env) (w w' : World) (message agentId userId tenantId : string)
    (conversation : option string) (r : ChatResponse) :
  chat env message agentId userId tenantId conversation w = (Ok r, w') ->
  blocked r = true ->
  tokensUsed r = 0
  /\ (calls w' = calls w
      \/ calls w' = calls w ++ [EmbeddingCall (queryInput message)])
  /\ agents (db w') = agents (db w)
  /\ chat_messages (db w') = chat_messages (db w)
  /\ exists why,
       blockReason r = Some why
       /\ (decision_logs (db w')
           = decision_logs (db w)
             ++ [blockedRow tenantId userId agentId why message]
           \/ (rejects env InsertDecisionLog <> None
               /\ decision_logs (db w') = decision_logs (db w))).
Proof.
  intros Hrun Hblocked. rewrite chat_run in Hrun.
  destruct (selectActiveAgent (db w) agentId tenantId) as [|agent others] eqn:E;
    [discriminate|].
  destruct (turn_cases env agent message agentId userId tenantId conversation w)
    as [(text & check & found & Hturn & Hreason & _)
       | [(Hturn & Hmode & _) | (Hturn & _)]];
    rewrite Hturn in Hrun.
  - apply refuse_effect in Hrun.
    destruct Hrun as (c & [= ->] & Hcalls & Hagents & Hmessages & Hlogs).
    split; [reflexivity|]. split; [now left|]. split; [exact Hagents|].
    split; [exact Hmessages|]. exists (reasonText check).
    split; [exact Hreason | exact Hlogs].
  - apply refuse_effect in Hrun.
    destruct Hrun as (c & [= ->] & Hcalls & Hagents & Hmessages & Hlogs).
    apply checkModeRequirements_reason in Hmode. destruct Hmode as [_ Hreason].
    assert (Hw1 : db (if enable_rag agent then asked (queryInput message) w
                      else w) = db w) by now destruct (enable_rag agent).
    rewrite Hw1 in *.
    split; [reflexivity|]. split.
    { rewrite Hcalls. destruct (enable_rag agent); [now right | now left]. }
    split; [exact Hagents|]. split; [exact Hmessages|].
    eexists. split; [exact Hreason | exact Hlogs].
  - apply answer_effect in Hrun.
    destruct Hrun as (openai & completion & _ & _ & -> & _). discriminate.
Qed.

Lemma chat_blocked_turn_spends_nothing_witness :
  let run := chat Example.env0 "hello" "agent" "user" "tenant" None
                  Example.worldSpent in
  agents (db (snd run)) = [Example.spent]
  /\ chat_messages (db (snd run)) = []
  /\ exists why,
       Some "Daily cost limit exceeded" = Some why
       /\ (decision_logs (db (snd run))
           = [] ++ [blockedRow "tenant" "user" "agent" why "hello"]
           \/ (rejects Example.env0 InsertDecisionLog <> None
               /\ decision_logs (db (snd run)) = [])).
Proof.
  exact (proj2 (proj2 (chat_blocked_turn_spends_nothing
                         Example.env0 Example.worldSpent _ "hello" "agent"
                         "user" "tenant" None _ eq_refl eq_refl))).
Defined.

(** X5. An ASCII message that contains a forbidden topic never reaches a
    provider. On an active agent of the tenant, whatever its kill switch,
    costs, mode and allowed topics are, chat returns a blocked response for
    an ASCII message that contains, letter case aside, one of the agent's
    forbidden topics that is ASCII too, without any call to the embedding or
    the completion provider. *)
Theorem chat_forbidden_topic_never_reaches_provider
    (env : Env) (w : World) (message agentId userId tenantId : string)
    (conversation : option string) (agent : Agent) (others : list Agent) :
  selectActiveAgent (db w) agentId tenantId = agent :: others ->
  JS.isAscii message = true ->
  Exists (fun topic => JS.isAscii topic = true
                       /\ ContainsIgnoringCase message topic)
         (forbidden_topics agent) ->
  exists r w',
    chat env message agentId userId tenantId conversation w = (Ok r, w')
    /\ blocked r = true /\ tokensUsed r = 0
    /\ calls w' = calls w
    /\ agents (db w') = agents (db w).
Proof.
  intros Hagent Hascii Hforbidden. rewrite chat_run, Hagent.
  assert (Hblocks : allowed (checkContract env message agent) = false).
  { apply checkContract_forbidden. apply Exists_exists in Hforbidden.
    destruct Hforbidden as (topic & Hin & Htopic & Hyes).
    apply Exists_exists. exists topic. split; [exact Hin|].
    now apply Mentions_ascii. }
  destruct (turn_cases env agent message agentId userId tenantId conversation w)
    as [(text & check & found & Hturn & _) | [(Hturn & _ & _ & Hc)
        | (Hturn & _ & _ & Hc & _)]]; try congruence.
  rewrite Hturn.
  destruct (refuse env tenantId userId agentId message conversation text check
                   found w) as [out w'] eqn:Hrun.
  apply refuse_effect in Hrun.
  destruct Hrun as (c & -> & Hcalls & Hagents & _).
  eexists; exists w'. now repeat split.
Qed.

Lemma chat_forbidden_topic_never_reaches_provider_witness :
  exists r w',
    chat Example.env0 "Tell me the SECRETS" "agent" "user" "tenant" None
         Scenario.worldGuarded
    = (Ok r, w')
    /\ blocked r = true /\ tokensUsed r = 0
    /\ calls w' = []
    /\ agents (db w') = [Scenario.guarded].
Proof.
  refine (chat_forbidden_topic_never_reaches_provider
            Example.env0 Scenario.worldGuarded "Tell me the SECRETS" "agent"
            "user" "tenant" None Scenario.guarded [] eq_refl eq_refl _).
  apply Exists_cons_hd. split; [reflexivity|].
  exists "Tell me the ", "SECRETS", "". split; [reflexivity|].
  now apply lowerAscii_equal.
Defined.

(** X6. An INTERNAL agent whose retrieval is disabled never answers: with no
    evidence to show, every turn on it is blocked, and no provider is
    called. *)
Theorem chat_internal_without_rag_never_answers
    (env : Env) (w : World) (message agentId userId tenantId : string)
    (conversation : option string) (agent : Agent) (others : list Agent) :
  selectActiveAgent (db w) agentId tenantId = agent :: others ->
  mode agent = INTERNAL ->
  enable_rag agent = false ->
  exists r w',
    chat env message agentId userId tenantId conversation w = (Ok r, w')
    /\ blocked r = true /\ tokensUsed r = 0
    /\ calls w' = calls w.
Proof.
  intros Hagent Hmode Hrag. rewrite chat_run, Hagent.
  destruct (turn_cases env agent message agentId userId tenantId conversation w)
    as [(text & check & found & Hturn & _) | [(Hturn & _)
        | (Hturn & _ & _ & _ & Hm)]].
  - rewrite Hturn.
    destruct (refuse env tenantId userId agentId message conversation text
                     check found w) as [out w'] eqn:Hrun.
    apply refuse_effect in Hrun. destruct Hrun as (c & -> & Hcalls & _).
    eexists; exists w'. now repeat split.
  - rewrite Hturn. rewrite Hrag.
    destruct (refuse env tenantId userId agentId message conversation
                     KNOWLEDGE_RESPONSE _ (Some []) w) as [out w'] eqn:Hrun.
    apply refuse_effect in Hrun. destruct Hrun as (c & -> & Hcalls & _).
    eexists; exists w'. now repeat split.
  - unfold ragOf in Hm. rewrite Hrag, Hmode in Hm. discriminate.
Qed.

Lemma chat_internal_without_rag_never_answers_witness :
  exists r w',
    chat Example.env0 "hello" "agent" "user" "tenant" None Scenario.worldSealed
    = (Ok r, w')
    /\ blocked r = true /\ tokensUsed r = 0
    /\ calls w' = [].
Proof.
  exact (chat_internal_without_rag_never_answers
           Example.env0 Scenario.worldSealed "hello" "agent" "user" "tenant"
           None Scenario.sealed [] eq_refl eq_refl eq_refl).
Defined.

(** X7. A turn that fails is not undone. chat never hangs; when it throws,
    the database is as it was before the call, unless the provider had
    answered and the store then rejected the insert of the user's message
    or of the answer: the writes of a turn are in no transaction, so the
    cost already added to the agent stays (and the user's message, when it
    is the insert of the answer that fails), while no decision is logged. *)
Theorem chat_failure_keeps_what_was_written
    (env : Env) (w : World) (message agentId userId tenantId : string)
    (conversation : option string) :
  let run := chat env message agentId userId tenantId conversation w in
  fst run <> Hang
  /\ forall e, fst run = Throw e ->
       decision_logs (db (snd run)) = decision_logs (db w)
       /\ (db (snd run) = db w
           \/ exists openai request completion,
                In (CompletionCall openai request) (calls (snd run))
                /\ complete env openai request = Resolved completion
                /\ ((rejects env InsertUserMessage = Some e
                     /\ db (snd run)
                        = charged env agentId (tokensOf completion) (db w))
                    \/ (rejects env InsertAssistantMessage = Some e
                        /\ exists convId,
                             db (snd run)
                             = insertMessage
                                 (userMessage tenantId userId agentId convId
                                              message)
                                 (charged env agentId (tokensOf completion)
                                          (db w))))).
Proof.
  cbv zeta. rewrite chat_run.
  destruct (selectActiveAgent (db w) agentId tenantId) as [|agent others] eqn:E.
  { split; [discriminate|]. intros e [= <-]. split; [reflexivity | now left]. }
  assert (Hw1 : db (if enable_rag agent then asked (queryInput message) w
                    else w) = db w) by now destruct (enable_rag agent).
  destruct (turn_cases env agent message agentId userId tenantId conversation w)
    as [(text & check & found & Hturn & _) | [(Hturn & _) | (Hturn & _)]];
    rewrite Hturn.
  - destruct (refuse _ _ _ _ _ _ _ _ _ _) as [out w'] eqn:Hrun.
    apply refuse_effect in Hrun. destruct Hrun as (c & -> & _).
    split; [discriminate|]. intros e [=].
  - destruct (refuse _ _ _ _ _ _ _ _ _ _) as [out w'] eqn:Hrun.
    apply refuse_effect in Hrun. destruct Hrun as (c & -> & _).
    split; [discriminate|]. intros e [=].
  - destruct (answer _ _ _ _ _ _ _ _ _) as [out w'] eqn:Hrun.
    apply answer_effect in Hrun. cbn [fst snd].
    destruct out as [r | e0 |]; [split; [discriminate | intros e [=]] | |
                                 contradiction].
    split; [discriminate|]. intros e [= <-]. rewrite Hw1 in Hrun.
    split; [|exact Hrun].
    destruct Hrun as [-> | (openai & request & completion & _ & _
                            & [[_ ->] | [_ [convId ->]]])]; reflexivity.
Qed.

Lemma chat_failure_keeps_what_was_written_witness :
  let run := chat Scenario.envMessagesRejected "hello" "agent" "user" "tenant"
                  None Example.world0 in
  fst run = Throw "disk full"
  /\ decision_logs (db (snd run)) = []
  /\ agents (db (snd run))
     = [addCost Scenario.envMessagesRejected "agent" (estimateCost 1000)
                Example.agent0]
  /\ chat_messages (db (snd run)) = [].
Proof.
  set (run := chat Scenario.envMessagesRejected "hello" "agent" "user" "tenant"
                   None Example.world0).
  assert (Hthrown : fst run = Throw "disk full") by (vm_compute; reflexivity).
  destruct (proj2 (chat_failure_keeps_what_was_written
                     Scenario.envMessagesRejected Example.world0 "hello"
                     "agent" "user" "tenant" None)
                  "disk full" Hthrown) as [Hlogs Hdb].
  cbv zeta. split; [exact Hthrown|]. split; [exact Hlogs|].
  split; vm_compute; reflexivity.
Defined.

Lemma ragOf_withLogRejected env failure agent message agentId tenantId w :
  ragOf (withLogRejected env failure) agent message agentId tenantId w
  = ragOf env agent message agentId tenantId w.
Proof.
  unfold ragOf. now rewrite !retrieveContext_run.
Qed.

Lemma conversationOf_db env conversation (w : World) :
  db (snd (conversationOf env conversation w)) = db w
  /\ calls (snd (conversationOf env conversation w)) = calls w.
Proof.
  unfold conversationOf, drawn.
  destruct conversation as [c|]; [destruct (String.eqb c "")|]; now split.
Qed.

(** X8. Logging never breaks a turn. With the insert into the decision log
    rejected, chat returns exactly what it returns when the insert is
    accepted, makes the same provider calls and stores the same cost and
    messages; only the decision log differs, which is left as it was. *)
Theorem chat_outcome_independent_of_decision_log
    (env : Env) (w : World) (message agentId userId tenantId : string)
    (conversation : option string) (failure : string) :
  let run := chat env message agentId userId tenantId conversation w in
  let run' := chat (withLogRejected env failure) message agentId userId
                   tenantId conversation w in
  fst run' = fst run
  /\ calls (snd run') = calls (snd run)
  /\ uuids (snd run') = uuids (snd run)
  /\ agents (db (snd run')) = agents (db (snd run))
  /\ chat_messages (db (snd run')) = chat_messages (db (snd run))
  /\ decision_logs (db (snd run')) = decision_logs (db w).
Proof.
  cbv zeta. rewrite !chat_run.
  destruct (selectActiveAgent (db w) agentId tenantId) as [|agent others];
    [now repeat split|].
  unfold turn. rewrite ragOf_withLogRejected.
  change (checkContract (withLogRejected env failure))
    with (checkContract env).
  set (rag := ragOf env agent message agentId tenantId w).
  assert (Hrefuse : forall text check found w0,
    decision_logs (db w0) = decision_logs (db w) ->
    let out := refuse env tenantId userId agentId message conversation text
                      check found w0 in
    let out' := refuse (withLogRejected env failure) tenantId userId agentId
                       message conversation text check found w0 in
    fst out' = fst out
    /\ calls (snd out') = calls (snd out)
    /\ uuids (snd out') = uuids (snd out)
    /\ agents (db (snd out')) = agents (db (snd out))
    /\ chat_messages (db (snd out')) = chat_messages (db (snd out))
    /\ decision_logs (db (snd out')) = decision_logs (db w)).
  { intros text check found w0 Hw0. unfold refuse, logged, conversationOf, drawn.
    cbn [withLogRejected rejects uuidv4].
    destruct (rejects env InsertDecisionLog);
      (destruct conversation as [c|]; [destruct (String.eqb c "")|]);
      cbn; now repeat split. }
  destruct (kill_switch agent); [now apply Hrefuse|].
  destruct (Qle_bool _ _); [now apply Hrefuse|].
  destruct (negb (allowed (checkContract env message agent)));
    [now apply Hrefuse|].
  destruct (negb (allowed (checkModeRequirements (mode agent) (snd rag)))).
  { apply Hrefuse. now destruct (enable_rag agent). }
  set (w1 := if enable_rag agent then asked (queryInput message) w else w).
  assert (Hw1 : decision_logs (db w1) = decision_logs (db w))
    by (subst w1; now destruct (enable_rag agent)).
  unfold answer.
  destruct (conversationOf_db env conversation w1) as [Hdb Hcalls].
  assert (Hconv : conversationOf (withLogRejected env failure) conversation w1
                  = conversationOf env conversation w1) by reflexivity.
  rewrite Hconv.
  change (rejects (withLogRejected env failure) SelectHistory)
    with (rejects env SelectHistory).
  destruct (if namesConversation conversation
            then rejects env SelectHistory else None).
  { cbn. rewrite Hdb. now repeat split. }
  change (clientOf (withLogRejected env failure)) with (clientOf env).
  destruct (clientOf env _ tenantId) as [openai | e].
  2:{ cbn. rewrite Hdb. now repeat split. }
  change (complete (withLogRejected env failure)) with (complete env).
  destruct (complete env openai _) as [completion | e].
  2:{ cbn. rewrite Hdb. now repeat split. }
  unfold stored.
  change (rejects (withLogRejected env failure) UpdateCost)
    with (rejects env UpdateCost).
  change (rejects (withLogRejected env failure) InsertUserMessage)
    with (rejects env InsertUserMessage).
  change (rejects (withLogRejected env failure) InsertAssistantMessage)
    with (rejects env InsertAssistantMessage).
  change (charged (withLogRejected env failure)) with (charged env).
  change (recorded (withLogRejected env failure)) with (recorded env).
  destruct (rejects env UpdateCost).
  { cbn. rewrite Hdb. now repeat split. }
  destruct (rejects env InsertUserMessage).
  { cbn. rewrite Hdb. now repeat split. }
  destruct (rejects env InsertAssistantMessage).
  { cbn. rewrite Hdb. now repeat split. }
  unfold logged. cbn [withLogRejected rejects].
  destruct (rejects env InsertDecisionLog); cbn;
    rewrite ?Hdb; now repeat split.
Qed.

(** ** Retrieval: what it reads and what it may return *)

Lemma in_skipn {A} (x : A) (n : nat) (l : list A) :
  In x (skipn n l) -> In x l.
Proof.
  revert l; induction n as [|n IH]; intros [|y l]; simpl; try tauto.
  intros H. right. now apply IH.
Qed.

Lemma in_slice {A} (x : A) (l : list A) (s e : Z) :
  In x (JS.slice l s e) -> In x l.
Proof. unfold JS.slice. intros H. now apply in_firstn, in_skipn in H. Qed.

(** Where a row of the join comes from. *)
Lemma selectEmbeddings_row (d : Db) (tenantId agentId : string)
    (row : EmbeddingRow) :
  In row (selectEmbeddings d (selectCollectionIds d tenantId agentId)) ->
  exists doc col,
    In (row_embedding row) (embeddings d)
    /\ In doc (documents d) /\ In col (collections d)
    /\ doc_id doc = emb_document_id (row_embedding row)
    /\ status doc = completed
    /\ row_document_name row = doc_name doc
    /\ row_document_version row = version doc
    /\ collection_id col = doc_collection_id doc
    /\ collection_tenant_id col = tenantId
    /\ (is_global col = true
        \/ In (agentId, collection_id col) (agent_collections d)).
Proof.
  unfold selectEmbeddings. rewrite in_flat_map. intros (e & He & Hrow).
  destruct (find _ (documents d)) as [doc|] eqn:Hfind; [|contradiction].
  apply find_some in Hfind. destruct Hfind as [Hdoc Hid].
  apply String.eqb_eq in Hid.
  destruct (existsb _ _ && statusIsCompleted (status doc)) eqn:Hok;
    [|contradiction].
  destruct Hrow as [<- | []]. cbn [row_embedding row_document_name
                                   row_document_version].
  apply andb_true_iff in Hok. destruct Hok as [Hcol Hstatus].
  apply existsb_exists in Hcol. destruct Hcol as (cid & Hcid & Heq).
  apply String.eqb_eq in Heq. subst cid.
  unfold selectCollectionIds in Hcid. apply in_map_iff in Hcid.
  destruct Hcid as (col & Hcolid & Hcol). apply filter_In in Hcol.
  destruct Hcol as [Hcol Hb]. apply andb_true_iff in Hb.
  destruct Hb as [Htenant Hlinked]. apply String.eqb_eq in Htenant.
  exists doc, col. repeat split; try assumption.
  - now destruct (status doc).
  - apply orb_true_iff in Hlinked. destruct Hlinked as [Hlinked | Hglobal];
      [right | now left].
    apply existsb_exists in Hlinked. destruct Hlinked as ([a c] & Hin & Hb).
    apply andb_true_iff in Hb. cbn [fst snd] in Hb. destruct Hb as [Hc Ha].
    apply String.eqb_eq in Hc, Ha. now subst.
Qed.

(** X9. Retrieval stays inside the tenant. Every evidence item
    retrieveContext returns, for any top_k, is a stored fragment of a
    document whose status is completed and whose collection belongs to the
    tenant asked for and is global or linked to the agent; it carries that
    document's name and version and the fragment's text and index, and it
    scores above the floor of 0.3. *)
Theorem retrieveContext_serves_only_the_tenants_completed_documents
    (env : Env) (w : World) (query agentId tenantId : string) (topK : Z)
    (context : string) (found : list RAGEvidence) (e : RAGEvidence) :
  fst (retrieveContext env query agentId tenantId topK w) = Ok (context, found) ->
  In e found ->
  exists fragment doc col,
    In fragment (embeddings (db w))
    /\ In doc (documents (db w)) /\ In col (collections (db w))
    /\ document_id e = emb_document_id fragment
    /\ ev_chunk_text e = chunk_text fragment
    /\ ev_chunk_index e = chunk_index fragment
    /\ doc_id doc = emb_document_id fragment
    /\ status doc = completed
    /\ document_name e = doc_name doc
    /\ document_version e = version doc
    /\ collection_id col = doc_collection_id doc
    /\ collection_tenant_id col = tenantId
    /\ (is_global col = true
        \/ In (agentId, collection_id col) (agent_collections (db w)))
    /\ (SIMILARITY_FLOOR < similarity_score e)%Q.
Proof.
  rewrite retrieveContext_run. intros [= Hrun] Hin.
  assert (Hsome : In e (snd (retrievedFrom
            (sortedCandidates env (db w) tenantId agentId
               match embed env (queryInput query) with
               | Resolved v => v
               | Rejected _ => []
               end) topK))).
  { destruct (embed env (queryInput query)) as [v|];
      [|injection Hrun as _ <-; contradiction].
    destruct (rejects env SelectCollections);
      [injection Hrun as _ <-; contradiction|].
    destruct (selectCollectionIds (db w) tenantId agentId) eqn:Hids;
      [injection Hrun as _ <-; contradiction|].
    destruct (rejects env SelectEmbeddings);
      [injection Hrun as _ <-; contradiction|].
    rewrite Hrun. exact Hin. }
  clear Hrun Hin. unfold retrievedFrom in Hsome.
  rewrite contextAndEvidence_evidence in Hsome. apply in_map_iff in Hsome.
  destruct Hsome as (c & <- & Hc). unfold relevantOf in Hc.
  apply filter_In in Hc. destruct Hc as [Hc Hfloor].
  apply Qltb_lt in Hfloor. apply in_slice in Hc.
  apply (Permutation_in _ (sortedCandidates_perm _ _ _ _ _)) in Hc.
  unfold candidates in Hc. apply in_map_iff in Hc.
  destruct Hc as (row & <- & Hrow).
  destruct (selectEmbeddings_row _ _ _ _ Hrow)
    as (doc & col & H1 & H2 & H3 & H4 & H5 & H6 & H7 & H8 & H9 & H10).
  exists (row_embedding row), doc, col.
  cbn [toEvidence scoreChunk document_id ev_chunk_text ev_chunk_index
       document_name document_version similarity_score documentId
       documentName documentVersion chunkIndex chunkText_ similarity] in *.
  repeat split; assumption.
Qed.

Lemma retrieveContext_serves_only_the_tenants_completed_documents_witness :
  exists fragment doc col,
    In fragment Example.fragments0
    /\ In doc (documents Example.db0) /\ In col (collections Example.db0)
    /\ "doc" = emb_document_id fragment
    /\ "close" = chunk_text fragment
    /\ 1 = chunk_index fragment
    /\ doc_id doc = emb_document_id fragment
    /\ status doc = completed
    /\ "guide.txt" = doc_name doc
    /\ 1 = version doc
    /\ collection_id col = doc_collection_id doc
    /\ collection_tenant_id col = "tenant"
    /\ (is_global col = true
        \/ In ("agent", collection_id col) (agent_collections Example.db0))
    /\ (SIMILARITY_FLOOR
        < similarityOfDoubles [1; 0; 0; 0]%float [9; 3; 3; 1]%float)%Q.
Proof.
  set (r := retrieved (candidates Example.db0 "tenant" "agent"
                                  [1; 0; 0; 0]%float) 5).
  assert (Hrun : fst (retrieveContext Example.env0 "q" "agent" "tenant" 5
                                      Example.world0)
                 = Ok (fst r, snd r)) by (vm_compute; reflexivity).
  assert (Hin : In (mkEvidence "doc" "guide.txt" 1 "close" 1
                      (similarityOfDoubles [1; 0; 0; 0]%float
                                           [9; 3; 3; 1]%float))
                   (snd r)) by (vm_compute; now left).
  exact (retrieveContext_serves_only_the_tenants_completed_documents
           Example.env0 Example.world0 "q" "agent" "tenant" 5 (fst r) (snd r)
           _ Hrun Hin).
Defined.

(** X10. Retrieval only reads, and always returns. For every query,
    tenant, agent and top_k, whatever the provider and the store answer,
    retrieveContext returns a result (it neither throws nor hangs), leaves
    the database as it was, and has asked the embedding provider exactly
    once, for the query cut to its first 8000 characters. *)
Theorem retrieveContext_reads_only_and_always_returns
    (env : Env) (w : World) (query agentId tenantId : string) (topK : Z) :
  exists r w',
    retrieveContext env query agentId tenantId topK w = (Ok r, w')
    /\ db w' = db w
    /\ calls w' = calls w ++ [EmbeddingCall (queryInput query)]
    /\ queryInput query
       = string_of_list_ascii
           (firstn (Z.to_nat 8000) (list_ascii_of_string query)).
Proof.
  destruct (retrieveContext_returns env w query agentId tenantId topK)
    as (r & Hrun).
  exists r, (asked (queryInput query) w). split; [exact Hrun|].
  split; [reflexivity|]. split; [reflexivity|].
  unfold queryInput. now rewrite slice_from_start.
Qed.

(** X11. The accelerated retrieval always returns too, and only reads.
    Whatever the store, the extension and the provider do,
    retrieveContextWithPgVector returns a result and leaves the database as
    it was; it asks the embedding provider once, or twice when the indexed
    search gives up after the query was embedded and the linear scan embeds
    it again. *)
Theorem retrieveContextWithPgVector_reads_only_and_always_returns
    (env : Env) (w : World) (query agentId tenantId : string) (topK : Z) :
  exists r w',
    retrieveContextWithPgVector env query agentId tenantId topK w = (Ok r, w')
    /\ db w' = db w
    /\ (calls w' = calls w ++ [EmbeddingCall (queryInput query)]
        \/ calls w'
           = calls w ++ [EmbeddingCall (queryInput query);
                         EmbeddingCall (queryInput query)]).
Proof.
  assert (Hscan : forall w0, db w0 = db w ->
    calls w0 = calls w \/ calls w0 = calls w ++ [EmbeddingCall (queryInput query)] ->
    exists r w',
      retrieveContext env query agentId tenantId topK w0 = (Ok r, w')
      /\ db w' = db w
      /\ (calls w' = calls w ++ [EmbeddingCall (queryInput query)]
          \/ calls w'
             = calls w ++ [EmbeddingCall (queryInput query);
                           EmbeddingCall (queryInput query)])).
  { intros w0 Hdb Hcalls.
    destruct (retrieveContext_returns env w0 query agentId tenantId topK)
      as (r & ->).
    exists r, (asked (queryInput query) w0). split; [reflexivity|].
    split; [exact Hdb|]. cbn [asked calls].
    destruct Hcalls as [-> | ->]; [now left | right].
    now rewrite <- app_assoc. }
  unfold retrieveContextWithPgVector, tryCatch, bind at 1, statement.
  destruct (rejects env CheckPgvector);
    [unfold throw; apply Hscan; [reflexivity | now left]|].
  unfold ret at 1. destruct (pgvector env); cbn [negb].
  2:{ destruct (Hscan w eq_refl (or_introl eq_refl)) as (r & w' & -> & H).
      now exists r, w'. }
  unfold bind at 1, generateEmbedding, bind at 1, recordCall.
  fold (queryInput query). fold (asked (queryInput query) w).
  destruct (embed env (queryInput query)) as [qv | e];
    [|unfold throw; apply Hscan; [reflexivity | now right]].
  unfold ret at 1, bind at 1.
  destruct (rejects env SelectCollections);
    [unfold throw; apply Hscan; [reflexivity | now right]|].
  unfold ret at 1, bind at 1, getDb.
  destruct (selectCollectionIds _ tenantId agentId) as [|c cs].
  { eexists; eexists. split; [reflexivity|]. split; [reflexivity | now left]. }
  unfold bind at 1.
  destruct (vectorSearch_rejected env (db (asked (queryInput query) w)) qv
              (c :: cs) topK (asked (queryInput query) w)) as (e & ->).
  apply Hscan; [reflexivity | now right].
Qed.

(** ** The client of a tenant *)

(** X12. getLLMClient never borrows a key. The client it returns is built
    from the key of a provider row of the tenant asked for that is marked
    default and active, with that row's base URL, or, only when the tenant
    has no such row, from the key of the environment; when the stored key of
    the tenant's row cannot be decrypted the call throws, it does not fall
    back. The call changes nothing. *)
Theorem getLLMClient_uses_only_the_tenants_provider
    (env : Env) (w : World) (tenantId : string) :
  let run := getLLMClient env tenantId w in
  snd run = w
  /\ match fst run with
     | Ok client =>
         (exists p, In p (llm_providers (db w))
                    /\ provider_tenant_id p = tenantId
                    /\ is_default p = true /\ provider_is_active p = true
                    /\ decrypt env (api_key_encrypted p)
                       = Resolved (apiKey client)
                    /\ baseURL client = base_url p)
         \/ (client = mkClient (OPENAI_API_KEY env) ""
             /\ forall p, In p (llm_providers (db w)) ->
                          provider_tenant_id p = tenantId ->
                          is_default p = true -> provider_is_active p = false)
     | Throw e =>
         exists p, In p (llm_providers (db w))
                   /\ provider_tenant_id p = tenantId
                   /\ is_default p = true /\ provider_is_active p = true
                   /\ decrypt env (api_key_encrypted p) = Rejected e
     | Hang => False
     end.
Proof.
  cbv zeta. rewrite getLLMClient_run. cbn [fst snd]. split; [reflexivity|].
  unfold clientOf, defaultProvider.
  destruct (find _ (llm_providers (db w))) as [p|] eqn:Hfind.
  - apply find_some in Hfind. destruct Hfind as [Hin Hb].
    apply andb_true_iff in Hb. destruct Hb as [Hb Hactive].
    apply andb_true_iff in Hb. destruct Hb as [Htenant Hdefault].
    apply String.eqb_eq in Htenant.
    destruct (decrypt env (api_key_encrypted p)) as [key | e] eqn:Hkey.
    + left. exists p. now repeat split.
    + exists p. now repeat split.
  - right. split; [reflexivity|]. intros p Hin Htenant Hdefault.
    pose proof (find_none _ _ Hfind p Hin) as Hb. cbv beta in Hb.
    rewrite Htenant, String.eqb_refl, Hdefault in Hb. exact Hb.
Qed.

(** ** Topics *)

(** X13. An empty topic matches every message. An agent whose forbidden
    topics include the empty string blocks every message; an agent with no
    forbidden topic whose allowed topics include the empty string allows
    every message. *)
Theorem checkContract_empty_topic_matches_every_message
    (env : Env) (message : string) (agent : Agent) :
  (In "" (forbidden_topics agent) ->
   allowed (checkContract env message agent) = false)
  /\ (forbidden_topics agent = [] -> In "" (allowed_topics agent) ->
      checkContract env message agent = mkCheck true None).
Proof.
  assert (Hany : forall m, mentions env m "" = true).
  { intros m. unfold mentions. now destruct m. }
  split.
  - intros Hin. apply checkContract_forbidden. apply Exists_exists.
    exists "". split; [exact Hin|]. apply mentions_spec, Hany.
  - intros Hnone Hin. unfold checkContract. rewrite Hnone. cbn [find].
    destruct (allowed_topics agent) as [|t ts] eqn:Hts; [contradiction|].
    replace (existsb _ (t :: ts)) with true; [reflexivity|].
    symmetry. apply existsb_exists. exists "". split; [exact Hin | apply Hany].
Qed.

(** ** Ingestion, path by path *)

Lemma withEmbeddings_same (d : Db) : withEmbeddings (embeddings d) d = d.
Proof. now destruct d. Qed.

(** The loop over the chunks: what it stores and what it asks. *)
Lemma storeChunks_exact (env : Env) (documentId : string)
    (chunks : list string) (i : Z) (w : World) :
  storeChunks env documentId i chunks w
  = (Ok tt,
     mkWorld (withEmbeddings
                (embeddings (db w) ++ fragmentsOf env documentId i chunks)
                (db w))
             (calls w ++ embeddingCalls chunks) (uuids w)).
Proof.
  revert i w; induction chunks as [|chunk rest IH]; intros i w.
  - cbn [storeChunks fragmentsOf embeddingCalls map ret].
    rewrite !app_nil_r, withEmbeddings_same. now destruct w.
  - cbn [storeChunks fragmentsOf embeddingCalls map].
    unfold bind at 1, tryCatch, bind at 1, generateEmbedding, bind at 1,
      recordCall. fold (queryInput chunk).
    destruct (embed env (queryInput chunk)) as [v | e].
    + unfold ret at 1, bind at 1, statement.
      destruct (rejects env (InsertEmbedding i)).
      * unfold throw, ret. rewrite IH. cbn [db calls uuids app].
        now rewrite <- app_assoc.
      * unfold ret at 1, modifyDb. rewrite IH.
        cbn [db calls uuids insertEmbedding withEmbeddings embeddings agents
             collections agent_collections documents llm_providers
             chat_messages decision_logs].
        now rewrite <- !app_assoc.
    + unfold throw, ret. rewrite IH. cbn [db calls uuids app].
      now rewrite <- app_assoc.
Qed.

Lemma fragmentsOf_spec (env : Env) (documentId : string) (chunks : list string)
    (i : Z) :
  StronglySorted indexBefore (fragmentsOf env documentId i chunks)
  /\ Forall (fun e =>
       emb_document_id e = documentId
       /\ i <= chunk_index e
       /\ nth_error chunks (Z.to_nat (chunk_index e - i)) = Some (chunk_text e)
       /\ embed env (queryInput (chunk_text e)) = Resolved (embedding e))
     (fragmentsOf env documentId i chunks).
Proof.
  revert i; induction chunks as [|chunk rest IH]; intros i;
    cbn [fragmentsOf]; [split; constructor|].
  destruct (IH (i + 1)) as [Hsorted Hall].
  assert (Hshift : Forall (fun e =>
       emb_document_id e = documentId
       /\ i <= chunk_index e
       /\ nth_error (chunk :: rest) (Z.to_nat (chunk_index e - i))
          = Some (chunk_text e)
       /\ embed env (queryInput (chunk_text e)) = Resolved (embedding e))
     (fragmentsOf env documentId (i + 1) rest)).
  { eapply Forall_impl; [|exact Hall]. cbv beta.
    intros e (H1 & H2 & H3 & H4). repeat split; [exact H1 | lia | | exact H4].
    replace (Z.to_nat (chunk_index e - i))
      with (S (Z.to_nat (chunk_index e - (i + 1)))) by lia.
    exact H3. }
  destruct (embed env (queryInput chunk)) as [v | e] eqn:Hv;
    [destruct (rejects env (InsertEmbedding i))|];
    cbn [app]; try (split; assumption).
  split.
  - constructor; [exact Hsorted|].
    eapply Forall_impl; [|exact Hall]. cbv beta.
    intros e (_ & H2 & _). unfold indexBefore. cbn [chunk_index]. lia.
  - constructor; [|exact Hshift].
    cbn [emb_document_id chunk_index chunk_text embedding].
    rewrite Z.sub_diag. repeat split; [lia | exact Hv].
Qed.

(** Extraction does not depend on the world it runs in. *)
Lemma extractText_pure (env : Env) (filePath mimeType : string) (w : World) :
  extractText env filePath mimeType w = (extracted env filePath mimeType, w).
Proof.
  unfold extracted, extractText, tryCatch, await, throw, ret.
  repeat match goal with
  | |- context [if ?b then _ else _] => destruct b
  | |- context [match ?r with Resolved _ => _ | Rejected _ => _ end] => destruct r
  end; reflexivity.
Qed.

(** The [try] block of processDocument, as one case analysis. *)
Lemma processDocumentTry_exact (env : Env) (fuel : nat)
    (chunkSize chunkOverlap : Z) (documentId : string) (w : World) :
  processDocumentTry env fuel chunkSize chunkOverlap documentId w
  = match rejects env SelectDocument with
    | Some m => (Throw m, w)
    | None =>
    match selectDocument (db w) documentId with
    | [] => (Throw "Document not found", w)
    | doc :: _ =>
    match rejects env MarkProcessing with
    | Some m => (Throw m, w)
    | None =>
    let w1 := mkWorld (updateDocument documentId (setStatus processing) (db w))
                      (calls w) (uuids w) in
    match extracted env (file_path doc) (mime_type doc) with
    | Throw m => (Throw m, w1)
    | Hang => (Hang, w1)
    | Ok text =>
    if isBlank text then (Throw "No text content extracted from document", w1)
    else
    match chunkText fuel text chunkSize chunkOverlap with
    | None => (Hang, w1)
    | Some chunks =>
    match rejects env DeleteEmbeddings with
    | Some m => (Throw m, w1)
    | None =>
    match rejects env MarkCompleted with
    | Some m =>
        (Throw m,
         mkWorld (replaced documentId (fragmentsOf env documentId 0 chunks)
                           (db w))
                 (calls w ++ embeddingCalls chunks) (uuids w))
    | None =>
        (Ok tt,
         mkWorld (processed env documentId chunks (db w))
                 (calls w ++ embeddingCalls chunks) (uuids w))
    end end end end end end end.
Proof.
  unfold processDocumentTry, bind at 1, statement.
  destruct (rejects env SelectDocument); [reflexivity|].
  unfold ret at 1, bind at 1, getDb. fold (selectDocument (db w) documentId).
  destruct (selectDocument (db w) documentId) as [|doc docs]; [reflexivity|].
  unfold bind at 1. destruct (rejects env MarkProcessing); [reflexivity|].
  unfold ret at 1, bind at 1, modifyDb at 1, bind at 1.
  rewrite extractText_pure.
  destruct (extracted env (file_path doc) (mime_type doc)) as [text | e |];
    [|reflexivity|reflexivity].
  destruct (isBlank text); [reflexivity|].
  destruct (chunkText fuel text chunkSize chunkOverlap) as [chunks|];
    [|reflexivity].
  unfold bind at 1. destruct (rejects env DeleteEmbeddings); [reflexivity|].
  unfold ret at 1, bind at 1, modifyDb at 1, bind at 1.
  rewrite storeChunks_exact. unfold bind at 1.
  destruct (rejects env MarkCompleted); reflexivity.
Qed.

Lemma updateDocument_none (documentId : string) (f : Document -> Document)
    (d : Db) :
  selectDocument d documentId = [] -> updateDocument documentId f d = d.
Proof.
  intros Hnone. unfold updateDocument.
  replace (map _ (documents d)) with (documents d); [now destruct d|].
  unfold selectDocument in Hnone. induction (documents d) as [|doc docs IH];
    [reflexivity|].
  cbn [filter map] in *. destruct (String.eqb (doc_id doc) documentId);
    [discriminate|]. now rewrite <- IH.
Qed.

(** X14. Processing an unknown document fails cleanly. When no row of the
    documents table has the id, and the store answers the statements,
    processDocument throws [Document not found] and leaves the world as it
    was: the update to failed of its catch block matches no row. *)
Theorem processDocument_unknown_document_changes_nothing
    (env : Env) (fuel : nat) (chunkSize chunkOverlap : Z)
    (documentId : string) (w : World) :
  rejects env SelectDocument = None ->
  rejects env MarkFailed = None ->
  (forall doc, In doc (documents (db w)) -> doc_id doc <> documentId) ->
  processDocument env fuel chunkSize chunkOverlap documentId w
  = (Throw "Document not found", w).
Proof.
  intros Hselect Hfailed Hnone.
  assert (Hrows : selectDocument (db w) documentId = []).
  { unfold selectDocument.
    destruct (filter _ (documents (db w))) as [|doc docs] eqn:E; [reflexivity|].
    assert (Hin : In doc (filter (fun doc => String.eqb (doc_id doc) documentId)
                                 (documents (db w)))) by (rewrite E; now left).
    apply filter_In in Hin. destruct Hin as [Hin Hid].
    apply String.eqb_eq in Hid. now destruct (Hnone doc Hin). }
  unfold processDocument, tryCatch. rewrite processDocumentTry_exact.
  rewrite Hselect, Hrows.
  unfold processDocumentCatch, bind, statement. rewrite Hfailed.
  unfold ret, modifyDb, throw. rewrite (updateDocument_none _ _ _ Hrows).
  now destruct w.
Qed.

Lemma processDocument_unknown_document_changes_nothing_witness :
  processDocument Example.env0 100 500 100 "no such document" Example.world0
  = (Throw "Document not found", Example.world0).
Proof.
  apply processDocument_unknown_document_changes_nothing;
    [reflexivity | reflexivity |].
  intros doc [<- | []]. discriminate.
Defined.

(** A call of processDocument that returns went through every step. *)
Lemma processDocument_ok (env : Env) (fuel : nat) (chunkSize chunkOverlap : Z)
    (documentId : string) (w w' : World) :
  processDocument env fuel chunkSize chunkOverlap documentId w = (Ok tt, w') ->
  exists doc docs text chunks,
    selectDocument (db w) documentId = doc :: docs
    /\ extracted env (file_path doc) (mime_type doc) = Ok text
    /\ isBlank text = false
    /\ chunkText fuel text chunkSize chunkOverlap = Some chunks
    /\ rejects env SelectDocument = None
    /\ rejects env MarkProcessing = None
    /\ rejects env DeleteEmbeddings = None
    /\ rejects env MarkCompleted = None
    /\ w' = mkWorld (processed env documentId chunks (db w))
                    (calls w ++ embeddingCalls chunks) (uuids w).
Proof.
  unfold processDocument, tryCatch. rewrite processDocumentTry_exact.
  assert (Hcatch : forall m w0,
    processDocumentCatch env documentId m w0 <> (Ok tt, w')).
  { intros m w0. unfold processDocumentCatch, bind, statement.
    destruct (rejects env MarkFailed); discriminate. }
  destruct (rejects env SelectDocument) eqn:H1;
    [intros H; now apply Hcatch in H|].
  destruct (selectDocument (db w) documentId) as [|doc docs];
    [intros H; now apply Hcatch in H|].
  destruct (rejects env MarkProcessing) eqn:H2;
    [intros H; now apply Hcatch in H|].
  cbv zeta.
  destruct (extracted env (file_path doc) (mime_type doc)) as [text | e |]
    eqn:Htext; [|intros H; now apply Hcatch in H|discriminate].
  destruct (isBlank text) eqn:Hblank; [intros H; now apply Hcatch in H|].
  destruct (chunkText fuel text chunkSize chunkOverlap) as [chunks|] eqn:Hchunks;
    [|discriminate].
  destruct (rejects env DeleteEmbeddings) eqn:H3;
    [intros H; now apply Hcatch in H|].
  destruct (rejects env MarkCompleted) eqn:H4;
    [intros H; now apply Hcatch in H|].
  intros [= <-]. exists doc, docs, text, chunks. now repeat split.
Qed.

Lemma fragmentsOf_none (env : Env) (documentId : string) (chunks : list string)
    (i : Z) :
  (forall input, exists e, embed env input = Rejected e) ->
  fragmentsOf env documentId i chunks = [].
Proof.
  intros Hdown. revert i; induction chunks as [|chunk rest IH]; intros i;
    cbn [fragmentsOf]; [reflexivity|].
  destruct (Hdown (queryInput chunk)) as (e & ->). now rewrite IH.
Qed.

Lemma updateDocument_status (documentId : string) (s : DocumentStatus) (d : Db)
    (doc : Document) :
  In doc (documents (updateDocument documentId (setStatus s) d)) ->
  doc_id doc = documentId -> status doc = s.
Proof.
  unfold updateDocument. cbn [documents]. rewrite in_map_iff.
  intros (doc0 & <- & _) Hid.
  destruct (String.eqb (doc_id doc0) documentId) eqn:E; [reflexivity|].
  apply String.eqb_neq in E. contradiction.
Qed.

(** X15. A document is reported completed even when none of its chunks
    could be embedded. With an embedding provider that rejects every
    request, a call of processDocument that returns has set the document's
    status to completed and left no fragment of it in the store: the
    fragments it had before are deleted and none is written, while the
    fragments of the other documents are as before. *)
Theorem processDocument_completes_without_any_fragment
    (env : Env) (fuel : nat) (chunkSize chunkOverlap : Z)
    (documentId : string) (w w' : World) :
  (forall input, exists e, embed env input = Rejected e) ->
  processDocument env fuel chunkSize chunkOverlap documentId w = (Ok tt, w') ->
  (exists doc, In doc (documents (db w')) /\ doc_id doc = documentId)
  /\ (forall doc, In doc (documents (db w')) -> doc_id doc = documentId ->
                  status doc = completed)
  /\ embeddings (db w') = othersOf documentId (embeddings (db w))
  /\ (forall e, In e (embeddings (db w')) -> emb_document_id e <> documentId).
Proof.
  intros Hdown Hrun. apply processDocument_ok in Hrun.
  destruct Hrun as (doc & docs & text & chunks & Hdoc & _ & _ & _ & _ & _ & _
                    & _ & ->).
  cbn [db]. unfold processed. rewrite (fragmentsOf_none _ _ _ _ Hdown).
  split; [|split; [|split]].
  - assert (Hin : In doc (selectDocument (db w) documentId))
      by (rewrite Hdoc; now left).
    apply filter_In in Hin. destruct Hin as [Hin Hid].
    apply String.eqb_eq in Hid.
    exists (setStatus completed (setStatus processing doc)).
    split; [|exact Hid].
    unfold replaced, withEmbeddings, updateDocument. cbn [documents].
    rewrite map_map. apply in_map_iff. exists doc. split; [|exact Hin].
    rewrite Hid, String.eqb_refl. cbn [setStatus doc_id].
    now rewrite Hid, String.eqb_refl.
  - intros d. apply updateDocument_status.
  - unfold replaced, withEmbeddings, updateDocument. cbn [embeddings].
    apply app_nil_r.
  - unfold replaced, withEmbeddings, updateDocument. cbn [embeddings].
    rewrite app_nil_r. intros e He. apply filter_In in He.
    destruct He as [_ He]. apply negb_true_iff, String.eqb_neq in He. exact He.
Qed.

Lemma processDocument_completes_without_any_fragment_witness :
  let w' := snd (processDocument Scenario.envEmbeddingDown 100 500 100 "doc"
                                 Example.world0) in
  (exists doc, In doc (documents (db w')) /\ doc_id doc = "doc")
  /\ (forall doc, In doc (documents (db w')) -> doc_id doc = "doc" ->
                  status doc = completed)
  /\ embeddings (db w') = othersOf "doc" Example.fragments0
  /\ (forall e, In e (embeddings (db w')) -> emb_document_id e <> "doc").
Proof.
  apply (processDocument_completes_without_any_fragment
           Scenario.envEmbeddingDown 100 500 100 "doc" Example.world0).
  - intros input. now exists "rate limited".
  - reflexivity.
Defined.

(** X16. The fragments of a processed document are the chunks of its text,
    by position. After a call of processDocument that returns, the store
    holds the fragments of the other documents as before, followed by those
    written by the call; these carry the document's id, their chunk_index is
    the position of their text in the list chunkText cut from the extracted
    text (positions of skipped chunks are left out, so the indices increase
    strictly and none repeats), their vector is what the provider answered
    for their text, and the provider was asked once per chunk, in order. *)
Theorem processDocument_fragments_are_the_chunks_by_position
    (env : Env) (fuel : nat) (chunkSize chunkOverlap : Z)
    (documentId : string) (w w' : World) :
  processDocument env fuel chunkSize chunkOverlap documentId w = (Ok tt, w') ->
  exists doc text chunks written,
    In doc (documents (db w)) /\ doc_id doc = documentId
    /\ extracted env (file_path doc) (mime_type doc) = Ok text
    /\ chunkText fuel text chunkSize chunkOverlap = Some chunks
    /\ embeddings (db w') = othersOf documentId (embeddings (db w)) ++ written
    /\ StronglySorted indexBefore written
    /\ Forall (fun e =>
         emb_document_id e = documentId
         /\ 0 <= chunk_index e
         /\ nth_error chunks (Z.to_nat (chunk_index e)) = Some (chunk_text e)
         /\ embed env (queryInput (chunk_text e)) = Resolved (embedding e))
       written
    /\ calls w' = calls w ++ embeddingCalls chunks.
Proof.
  intros Hrun. apply processDocument_ok in Hrun.
  destruct Hrun as (doc & docs & text & chunks & Hdoc & Htext & _ & Hchunks
                    & _ & _ & _ & _ & ->).
  assert (Hin : In doc (selectDocument (db w) documentId))
    by (rewrite Hdoc; now left).
  apply filter_In in Hin. destruct Hin as [Hin Hid]. apply String.eqb_eq in Hid.
  destruct (fragmentsOf_spec env documentId chunks 0) as [Hsorted Hall].
  exists doc, text, chunks, (fragmentsOf env documentId 0 chunks).
  repeat split; try assumption.
  eapply Forall_impl; [|exact Hall]. cbv beta.
  intros e (H1 & H2 & H3 & H4). rewrite Z.sub_0_r in H3. now repeat split.
Qed.

Lemma processDocument_fragments_are_the_chunks_by_position_witness :
  let w' := snd (processDocument Example.env0 100 500 100 "doc"
                                 Example.worldPending) in
  embeddings (db w')
  = [mkEmbedding "doc" 0 "Alpha. Beta." [1; 0; 0; 0]%float]
  /\ calls w' = [EmbeddingCall "Alpha. Beta."].
Proof.
  destruct (processDocument_fragments_are_the_chunks_by_position
              Example.env0 100 500 100 "doc" Example.worldPending _ eq_refl)
    as (doc & text & chunks & written & _).
  split; reflexivity.
Defined.

Lemma othersOf_app (documentId : string) (a b : list Embedding) :
  othersOf documentId (a ++ b) = othersOf documentId a ++ othersOf documentId b.
Proof. apply filter_app. Qed.

Lemma othersOf_again (documentId : string) (es : list Embedding) :
  othersOf documentId (othersOf documentId es) = othersOf documentId es.
Proof.
  unfold othersOf. induction es as [|e es IH]; cbn [filter]; [reflexivity|].
  destruct (negb (String.eqb (emb_document_id e) documentId)) eqn:E;
    cbn [filter]; [now rewrite E, IH | exact IH].
Qed.

Lemma othersOf_own (documentId : string) (es : list Embedding) :
  Forall (fun e => emb_document_id e = documentId) es ->
  othersOf documentId es = [].
Proof.
  unfold othersOf. induction 1 as [|e es He _ IH]; cbn [filter]; [reflexivity|].
  now rewrite He, String.eqb_refl.
Qed.

Lemma doc_id_setStatus (s : DocumentStatus) (doc : Document) :
  doc_id (setStatus s doc) = doc_id doc.
Proof. reflexivity. Qed.

Lemma processed_again (env : Env) (documentId : string) (chunks : list string)
    (d : Db) :
  processed env documentId chunks (processed env documentId chunks d)
  = processed env documentId chunks d.
Proof.
  unfold processed, replaced, withEmbeddings, updateDocument.
  cbn [agents collections agent_collections documents embeddings llm_providers
       chat_messages decision_logs].
  f_equal.
  - rewrite !map_map. apply map_ext. intros doc.
    destruct (String.eqb (doc_id doc) documentId) eqn:E;
      repeat first [rewrite doc_id_setStatus | rewrite E]; reflexivity.
  - assert (Hown : othersOf documentId (fragmentsOf env documentId 0 chunks)
                   = []).
    { apply othersOf_own.
      destruct (fragmentsOf_spec env documentId chunks 0) as [_ Hall].
      eapply Forall_impl; [|exact Hall]. now intros e [H _]. }
    now rewrite othersOf_app, othersOf_again, Hown, app_nil_r.
Qed.

Lemma selectDocument_processed (env : Env) (documentId : string)
    (chunks : list string) (d : Db) (doc : Document) (docs : list Document) :
  selectDocument d documentId = doc :: docs ->
  exists doc' docs',
    selectDocument (processed env documentId chunks d) documentId
    = doc' :: docs'
    /\ file_path doc' = file_path doc /\ mime_type doc' = mime_type doc.
Proof.
  unfold selectDocument, processed, replaced, withEmbeddings, updateDocument.
  cbn [documents]. rewrite map_map.
  induction (documents d) as [|x xs IH]; cbn [filter map]; [discriminate|].
  destruct (String.eqb (doc_id x) documentId) eqn:E;
    repeat first [rewrite doc_id_setStatus | rewrite E].
  - intros [= <- _]. eexists; eexists. split; [reflexivity|]. now split.
  - exact IH.
Qed.

(** X17. Processing a document again replaces its fragments; it does not
    add to them. After a call of processDocument that returned, a second
    call on the same document, with the file and the answers of the
    provider and the store unchanged, returns as well and leaves the
    database exactly as the first call left it. *)
Theorem processDocument_again_leaves_database_unchanged
    (env : Env) (fuel : nat) (chunkSize chunkOverlap : Z)
    (documentId : string) (w w1 : World) :
  processDocument env fuel chunkSize chunkOverlap documentId w = (Ok tt, w1) ->
  exists w2,
    processDocument env fuel chunkSize chunkOverlap documentId w1 = (Ok tt, w2)
    /\ db w2 = db w1.
Proof.
  intros Hrun. apply processDocument_ok in Hrun.
  destruct Hrun as (doc & docs & text & chunks & Hdoc & Htext & Hblank & Hchunks
                    & H1 & H2 & H3 & H4 & ->).
  destruct (selectDocument_processed env documentId chunks (db w) doc docs Hdoc)
    as (doc' & docs' & Hdoc' & Hpath & Hmime).
  eexists. split.
  - unfold processDocument, tryCatch. rewrite processDocumentTry_exact.
    cbn [db]. rewrite H1, Hdoc', H2. cbv zeta.
    rewrite Hpath, Hmime, Htext, Hblank, Hchunks, H3, H4. reflexivity.
  - cbn [db]. apply processed_again.
Qed.

Lemma processDocument_again_leaves_database_unchanged_witness :
  let w1 := snd (processDocument Example.env0 100 500 100 "doc" Example.world0) in
  exists w2,
    processDocument Example.env0 100 500 100 "doc" w1 = (Ok tt, w2)
    /\ db w2 = db w1.
Proof.
  exact (processDocument_again_leaves_database_unchanged
           Example.env0 100 500 100 "doc" Example.world0 _ eq_refl).
Defined.

(** X18. extractText reads, and reports every failure the same way. It
    leaves the world as it was and does not hang; whatever reader fails, the
    error it throws is [Failed to extract text from document: ] followed by
    the reader's message; and a file with a text extension (.txt, .md) or a
    text type (text/plain, text/markdown) is read as plain text whatever
    the other of the two says, so a .pdf sent as text/plain is not parsed as
    a PDF. *)
Theorem extractText_reads_text_first_and_wraps_errors
    (env : Env) (filePath mimeType : string) (w : World) :
  let ext := JS.toLowerCase (unicode env) (extname filePath) in
  let run := extractText env filePath mimeType w in
  snd run = w
  /\ fst run <> Hang
  /\ (forall e, fst run = Throw e ->
        exists cause,
          e = ("Failed to extract text from document: " ++ cause)%string
          /\ (readFileSync env filePath = Rejected cause
              \/ mammoth env filePath = Rejected cause
              \/ pdfParse env filePath = Rejected cause))
  /\ (ext = ".txt" \/ ext = ".md" \/ mimeType = "text/plain"
      \/ mimeType = "text/markdown" ->
      fst run
      = match readFileSync env filePath with
        | Resolved text => Ok text
        | Rejected cause =>
            Throw ("Failed to extract text from document: " ++ cause)%string
        end).
Proof.
  cbv zeta. rewrite extractText_pure. cbn [fst snd].
  unfold extracted, extractText, tryCatch, await, throw, ret. cbn [fst].
  split; [reflexivity|]. split; [|split].
  - repeat match goal with
    | |- context [if ?b then _ else _] => destruct b
    | |- context [match ?r with Resolved _ => _ | Rejected _ => _ end] =>
        destruct r
    end; discriminate.
  - intros e.
    repeat match goal with
    | |- context [if ?b then _ else _] => destruct b
    | |- context [match ?r with Resolved _ => _ | Rejected _ => _ end] =>
        destruct r eqn:?
    end; intros [= <-]; eexists; (split; [reflexivity|]); tauto.
  - intros Htext.
    assert (Hb : (String.eqb (JS.toLowerCase (unicode env) (extname filePath)) ".txt"
                  || String.eqb (JS.toLowerCase (unicode env) (extname filePath)) ".md"
                  || String.eqb mimeType "text/plain"
                  || String.eqb mimeType "text/markdown") = true).
    { destruct Htext as [-> | [-> | [-> | ->]]]; cbn;
        rewrite ?orb_true_r; reflexivity. }
    rewrite Hb. now destruct (readFileSync env filePath).
Qed.

(** ** chunkText and truncateText *)

Lemma chunkWindows_more_fuel (text : JS.chars) (chunkSize overlap : Z)
    (fuel fuel' : nat) (start : Z) (ws : list (Z * Z)) :
  (fuel <= fuel')%nat ->
  chunkWindows fuel text chunkSize overlap start = Some ws ->
  chunkWindows fuel' text chunkSize overlap start = Some ws.
Proof.
  revert fuel' start ws; induction fuel as [|fuel IH]; intros fuel' start ws Hle;
    cbn [chunkWindows].
  - destruct (start <? JS.length text) eqn:E; [discriminate|].
    intros [= <-]. destruct fuel'; cbn [chunkWindows]; now rewrite E.
  - destruct fuel' as [|fuel']; [lia|]. cbn [chunkWindows].
    destruct (start <? JS.length text); [|trivial].
    destruct (chunkWindows fuel text chunkSize overlap _) as [rest|] eqn:Hrest;
      [|discriminate].
    intros [= <-]. rewrite (IH fuel' _ rest); [reflexivity | lia | exact Hrest].
Qed.

(** X19. With sane parameters the chunker ends. When the overlap is
    smaller than the size and at most half the size plus one (the defaults,
    500 and 100, are), chunkText returns for every text, within as many
    iterations as the text has characters, and more iterations do not change
    the chunks. *)
Theorem chunkText_returns_when_overlap_is_small
    (text : string) (chunkSize overlap : Z) :
  overlap < chunkSize -> 2 * overlap <= chunkSize + 2 ->
  exists chunks,
    forall fuel, (String.length text <= fuel)%nat ->
      chunkText fuel text chunkSize overlap = Some chunks.
Proof.
  intros H1 H2.
  destruct (chunkWindows_returns (list_ascii_of_string text) chunkSize overlap
              H1 H2 (String.length text) 0) as (ws & Hws).
  { unfold JS.length.
    assert (Hlen : List.length (list_ascii_of_string text) = String.length text).
    { induction text as [|c text IH]; cbn; [reflexivity | now rewrite IH]. }
    rewrite Hlen. lia. }
  eexists. intros fuel Hfuel. unfold chunkText. rewrite chunkLoop_windows.
  rewrite (chunkWindows_more_fuel _ _ _ _ fuel 0 ws Hfuel Hws). reflexivity.
Qed.

Lemma chunkText_returns_when_overlap_is_small_witness :
  exists chunks,
    forall fuel, (String.length "Alpha. Beta." <= fuel)%nat ->
      chunkText fuel "Alpha. Beta." 500 100 = Some chunks.
Proof.
  apply chunkText_returns_when_overlap_is_small; lia.
Defined.

Lemma trimStart_suffix (t : JS.chars) :
  exists blanks, t = blanks ++ JS.trimStart t.
Proof.
  induction t as [|c t (blanks & IH)]; cbn [JS.trimStart]; [now exists []|].
  destruct (JS.isWhitespace c); [|now exists []].
  exists (c :: blanks). cbn [app]. now rewrite <- IH.
Qed.

Lemma trimStart_head (t : JS.chars) (c : ascii) (rest : JS.chars) :
  JS.trimStart t = c :: rest -> JS.isWhitespace c = false.
Proof.
  induction t as [|d t IH]; cbn [JS.trimStart]; [discriminate|].
  destruct (JS.isWhitespace d) eqn:E; [exact IH|]. now intros [= <- _].
Qed.

Lemma trimStart_fixed (t : JS.chars) :
  match t with [] => True | c :: _ => JS.isWhitespace c = false end ->
  JS.trimStart t = t.
Proof. destruct t as [|c t]; cbn [JS.trimStart]; [trivial|]. now intros ->. Qed.

Lemma trimStart_again (t : JS.chars) :
  JS.trimStart (JS.trimStart t) = JS.trimStart t.
Proof.
  apply trimStart_fixed. destruct (JS.trimStart t) as [|c rest] eqn:E;
    [trivial|]. exact (trimStart_head t c rest E).
Qed.

Lemma trimEnd_prefix (t : JS.chars) :
  exists blanks, t = JS.trimEnd t ++ blanks.
Proof.
  unfold JS.trimEnd. destruct (trimStart_suffix (rev t)) as (blanks & H).
  exists (rev blanks). rewrite <- rev_app_distr, <- H. now rewrite rev_involutive.
Qed.

Lemma trim_again (t : JS.chars) : JS.trim (JS.trim t) = JS.trim t.
Proof.
  unfold JS.trim. set (u := JS.trimStart t).
  assert (Hstart : JS.trimStart (JS.trimEnd u) = JS.trimEnd u).
  { apply trimStart_fixed. destruct (JS.trimEnd u) as [|c rest] eqn:E;
      [trivial|].
    destruct (trimEnd_prefix u) as (blanks & Hu). rewrite E in Hu.
    cbn [app] in Hu. exact (trimStart_head t c _ Hu). }
  rewrite Hstart. unfold JS.trimEnd. rewrite rev_involutive.
  now rewrite trimStart_again.
Qed.

Lemma trim_infix (t : JS.chars) : Infix (JS.trim t) t.
Proof.
  unfold JS.trim. destruct (trimStart_suffix t) as (before & Ht).
  destruct (trimEnd_prefix (JS.trimStart t)) as (after & Hu).
  exists before, after. now rewrite <- Hu.
Qed.

Lemma slice_infix {A} (t : list A) (s e : Z) :
  exists before after, t = before ++ JS.slice t s e ++ after.
Proof.
  unfold JS.slice.
  set (from := Z.to_nat (JS.relIndex (Z.of_nat (List.length t)) s)).
  set (n := Z.to_nat (JS.relIndex (Z.of_nat (List.length t)) e
                      - JS.relIndex (Z.of_nat (List.length t)) s)).
  exists (firstn from t), (skipn n (skipn from t)).
  now rewrite firstn_skipn, firstn_skipn.
Qed.

Lemma string_of_list_ascii_app (a b : list ascii) :
  string_of_list_ascii (a ++ b)
  = (string_of_list_ascii a ++ string_of_list_ascii b)%string.
Proof. induction a as [|c a IH]; cbn; [reflexivity | now rewrite IH]. Qed.

(** X20. Every chunk is a trimmed, non-empty piece of the text. Each chunk
    chunkText returns occurs in the text as a run of consecutive characters,
    is not empty, and neither starts nor ends with white space (trimming it
    again changes nothing). *)
Theorem chunkText_chunks_are_trimmed_pieces_of_the_text
    (fuel : nat) (text : string) (chunkSize overlap : Z) (chunks : list string) :
  chunkText fuel text chunkSize overlap = Some chunks ->
  Forall (fun chunk =>
            chunk <> ""
            /\ Substring chunk text
            /\ JS.trim (list_ascii_of_string chunk) = list_ascii_of_string chunk)
         chunks.
Proof.
  unfold chunkText. rewrite chunkLoop_windows.
  destruct (chunkWindows fuel (list_ascii_of_string text) chunkSize overlap 0)
    as [ws|]; [|discriminate].
  cbn [option_map app]. intros [= <-]. apply Forall_forall.
  intros chunk Hin. apply in_map_iff in Hin. destruct Hin as (piece & <- & Hin).
  apply filter_In in Hin. destruct Hin as [Hin Hsome].
  apply in_map_iff in Hin. destruct Hin as ([s e] & <- & _).
  unfold fragmentOf in *. cbn [fst snd] in *.
  set (window := JS.slice (list_ascii_of_string text) s e) in *.
  split; [|split].
  - unfold nonEmpty, JS.length in Hsome. apply Z.ltb_lt in Hsome.
    destruct (JS.trim window); [cbn in Hsome; lia | discriminate].
  - destruct (trim_infix window) as (b1 & a1 & H1).
    destruct (slice_infix (list_ascii_of_string text) s e) as (b2 & a2 & H2).
    fold window in H2. rewrite H1 in H2.
    exists (string_of_list_ascii (b2 ++ b1)), (string_of_list_ascii (a1 ++ a2)).
    rewrite <- !string_of_list_ascii_app.
    rewrite <- (string_of_list_ascii_of_string text). f_equal.
    rewrite H2 at 1. now rewrite <- !app_assoc.
  - rewrite list_ascii_of_string_of_list_ascii. apply trim_again.
Qed.

Lemma chunkText_chunks_are_trimmed_pieces_of_the_text_witness :
  Forall (fun chunk =>
            chunk <> ""
            /\ Substring chunk "Hello world. This is a test. And more"
            /\ JS.trim (list_ascii_of_string chunk) = list_ascii_of_string chunk)
         ["Hello world."; "orld. This is a test."; "test. And more"].
Proof.
  exact (chunkText_chunks_are_trimmed_pieces_of_the_text
           50 "Hello world. This is a test. And more" 20 5 _ eq_refl).
Defined.

Lemma slice_whole {A} (t : list A) (e : Z) :
  Z.of_nat (List.length t) <= e -> JS.slice t 0 e = t.
Proof.
  intros He. rewrite slice_from_start by lia. apply firstn_all2. lia.
Qed.

(** X21. A text that fits in one window gives one chunk. When the overlap
    is not negative and the text has at most [chunkSize - overlap]
    characters, chunkText returns after one iteration with the trimmed text
    as its only chunk, or with no chunk when the text is empty or blank. *)
Theorem chunkText_short_text_is_one_chunk
    (fuel : nat) (text : string) (chunkSize overlap : Z) :
  0 <= overlap ->
  JS.length (list_ascii_of_string text) <= chunkSize - overlap ->
  chunkText (S fuel) text chunkSize overlap
  = Some (if nonEmpty (JS.trim (list_ascii_of_string text))
          then [string_of_list_ascii (JS.trim (list_ascii_of_string text))]
          else []).
Proof.
  intros Ho Hfits. unfold chunkText. set (t := list_ascii_of_string text) in *.
  cbn [chunkLoop]. destruct (0 <? JS.length t) eqn:E.
  - assert (Hend : windowEnd t chunkSize 0 = chunkSize).
    { unfold windowEnd. cbn [Z.add].
      replace (chunkSize <? JS.length t) with false; [reflexivity|].
      symmetry. apply Z.ltb_ge. lia. }
    rewrite Hend. rewrite slice_whole by (fold (JS.length t); lia).
    assert (Hnext : nextStart overlap chunkSize = chunkSize - overlap).
    { unfold nextStart. apply Z.ltb_lt in E.
      replace (chunkSize - overlap <? 0) with false; [reflexivity|].
      symmetry. apply Z.ltb_ge. lia. }
    rewrite Hnext.
    assert (Hstop : chunkLoop fuel t chunkSize overlap (chunkSize - overlap)
                              ([] ++ [JS.trim t]) = Some ([] ++ [JS.trim t])).
    { destruct fuel; cbn [chunkLoop];
        replace (chunkSize - overlap <? JS.length t) with false;
        try reflexivity; symmetry; apply Z.ltb_ge; lia. }
    rewrite Hstop. cbn [option_map app filter map].
    now destruct (nonEmpty (JS.trim t)).
  - cbn [option_map filter map]. apply Z.ltb_ge in E.
    assert (Ht : t = []).
    { destruct t; [reflexivity|]. unfold JS.length in E. cbn in E. lia. }
    rewrite Ht. reflexivity.
Qed.

Lemma chunkText_short_text_is_one_chunk_witness :
  chunkText 1 "  A short note.  " 500 100 = Some ["A short note."].
Proof.
  apply (chunkText_short_text_is_one_chunk 0 "  A short note.  " 500 100);
    vm_compute; discriminate.
Defined.

(** X22. truncateText keeps its promise for limits of three or more. With
    [maxLength >= 3] the result never has more than [maxLength] characters:
    a text that fits is returned as it is, and a longer one is cut to its
    first [maxLength - 3] characters followed by three periods, which makes
    exactly [maxLength]. *)
Theorem truncateText_fits_the_limit (text : string) (maxLength : Z) :
  3 <= maxLength ->
  JS.length (list_ascii_of_string (truncateText text maxLength)) <= maxLength
  /\ (JS.length (list_ascii_of_string text) <= maxLength ->
      truncateText text maxLength = text)
  /\ (maxLength < JS.length (list_ascii_of_string text) ->
      truncateText text maxLength
      = (string_of_list_ascii
           (firstn (Z.to_nat (maxLength - 3)) (list_ascii_of_string text))
         ++ "...")%string
      /\ JS.length (list_ascii_of_string (truncateText text maxLength))
         = maxLength).
Proof.
  intros Hmax. unfold truncateText.
  set (t := list_ascii_of_string text).
  destruct (JS.length t <=? maxLength) eqn:E.
  - apply Z.leb_le in E. split; [exact E|]. split; [reflexivity | lia].
  - apply Z.leb_gt in E.
    rewrite slice_from_start by lia.
    assert (Hlen : JS.length
                     (list_ascii_of_string
                        (string_of_list_ascii (firstn (Z.to_nat (maxLength - 3)) t)
                         ++ "...")) = maxLength).
    { rewrite <- (string_of_list_ascii_of_string "...").
      rewrite <- string_of_list_ascii_app, list_ascii_of_string_of_list_ascii.
      unfold JS.length in *. rewrite length_app, firstn_length_le by lia.
      cbn [list_ascii_of_string List.length]. lia. }
    split; [lia|]. split; [lia|]. intros _. split; [reflexivity | exact Hlen].
Qed.

Lemma truncateText_fits_the_limit_witness :
  truncateText "The quick brown fox" 10 = "The qui..."
  /\ JS.length (list_ascii_of_string (truncateText "The quick brown fox" 10))
     = 10.
Proof.
  destruct (truncateText_fits_the_limit "The quick brown fox" 10)
    as (_ & _ & H); [vm_compute; discriminate|].
  apply H. vm_compute. reflexivity.
Defined.

(** X23. Below three, truncateText lengthens. With [0 <= maxLength < 3] and
    a text longer than [maxLength] that has at least [3 - maxLength]
    characters, the slice counts from the end of the text and the result
    has [maxLength] characters more than the text itself. *)
Theorem truncateText_overshoots_below_three (text : string) (maxLength : Z) :
  0 <= maxLength < 3 ->
  maxLength < JS.length (list_ascii_of_string text) ->
  3 - maxLength <= JS.length (list_ascii_of_string text) ->
  JS.length (list_ascii_of_string (truncateText text maxLength))
  = JS.length (list_ascii_of_string text) + maxLength.
Proof.
  intros Hmax Hlong Hroom. unfold truncateText.
  set (t := list_ascii_of_string text) in *.
  replace (JS.length t <=? maxLength) with false
    by (symmetry; apply Z.leb_gt; lia).
  rewrite <- (string_of_list_ascii_of_string "...").
  rewrite <- string_of_list_ascii_app, list_ascii_of_string_of_list_ascii.
  unfold JS.length in *. rewrite length_app.
  unfold JS.slice, JS.relIndex.
  replace (0 <? 0) with false by reflexivity.
  replace (maxLength - 3 <? 0) with true by (symmetry; apply Z.ltb_lt; lia).
  rewrite (Z.min_l 0) by lia. cbn [Z.to_nat skipn].
  rewrite Z.max_l by lia. rewrite firstn_length_le by lia.
  cbn [list_ascii_of_string List.length]. lia.
Qed.

Lemma truncateText_overshoots_below_three_witness :
  JS.length (list_ascii_of_string (truncateText "abcdef" 2)) = 6 + 2.
Proof.
  apply (truncateText_overshoots_below_three "abcdef" 2);
    unfold JS.length; cbn; lia.
Defined.

(** ** sanitizeFilename *)

Lemma noRun_cons (c a : ascii) (t : JS.chars) :
  noRun c t ->
  match t with [] => True | b :: _ => ~ (a = c /\ b = c) end ->
  noRun c (a :: t).
Proof. destruct t as [|b t]; cbn [noRun]; [easy|]. now split. Qed.

Lemma noRun_tail (c a : ascii) (t : JS.chars) : noRun c (a :: t) -> noRun c t.
Proof. destruct t as [|b t]; cbn [noRun]; [easy|]. now intros [_ H]. Qed.

Lemma noRun_firstn (c : ascii) (n : nat) (t : JS.chars) :
  noRun c t -> noRun c (firstn n t).
Proof.
  revert t; induction n as [|n IH]; intros [|a t] H; cbn [firstn];
    try exact I.
  apply noRun_cons; [apply IH; now apply noRun_tail in H|].
  destruct t as [|b t]; destruct n; cbn [firstn]; try exact I.
  now destruct H.
Qed.

Lemma noRun_no_pair (c : ascii) (t : JS.chars) :
  noRun c t -> ~ Infix [c; c] t.
Proof.
  intros H (before & after & Ht). subst t.
  induction before as [|a before IH]; cbn [app] in H.
  - cbn [noRun] in H. destruct H as [H _]. now apply H.
  - apply IH. now apply noRun_tail in H.
Qed.

Lemma squeezeUnderscores_head (a : ascii) (t : JS.chars) :
  Ascii.eqb a "_"%char = false ->
  squeezeUnderscores (a :: t) = a :: squeezeUnderscores t.
Proof. intros H. cbn [squeezeUnderscores]. now rewrite H. Qed.

Lemma squeezeUnderscores_noRun (t : JS.chars) :
  noRun "_"%char (squeezeUnderscores t).
Proof.
  induction t as [|a t IH]; cbn [squeezeUnderscores]; [exact I|].
  destruct (Ascii.eqb a "_"%char) eqn:Ea.
  - destruct t as [|b t]; [exact I|].
    destruct (Ascii.eqb b "_"%char) eqn:Eb; [exact IH|].
    apply noRun_cons; [exact IH|].
    rewrite (squeezeUnderscores_head b t Eb). intros [_ Hb].
    subst b. discriminate.
  - apply noRun_cons; [exact IH|].
    destruct (squeezeUnderscores t); [trivial|]. intros [Ha _].
    subst a. discriminate.
Qed.

Lemma squeezeUnderscores_fixed (t : JS.chars) :
  noRun "_"%char t -> squeezeUnderscores t = t.
Proof.
  induction t as [|a t IH]; intros H; [reflexivity|].
  pose proof (noRun_tail _ _ _ H) as Ht. cbn [squeezeUnderscores].
  destruct (Ascii.eqb a "_"%char) eqn:Ea; [|now rewrite IH].
  destruct t as [|b t]; [reflexivity|].
  destruct (Ascii.eqb b "_"%char) eqn:Eb; [|now rewrite IH].
  apply Ascii.eqb_eq in Ea, Eb. cbn [noRun] in H. now destruct H as [[] _].
Qed.

Lemma squeezeUnderscores_keeps (P : ascii -> Prop) (t : JS.chars) :
  Forall P t -> Forall P (squeezeUnderscores t).
Proof.
  induction 1 as [|a t Ha Ht IH]; cbn [squeezeUnderscores]; [constructor|].
  destruct (Ascii.eqb a "_"%char); [|now constructor].
  destruct t as [|b t]; [now constructor|].
  destruct (Ascii.eqb b "_"%char); [exact IH | now constructor].
Qed.

Lemma replaceUnsafe_safe (t : JS.chars) :
  Forall (fun c => isFilenameChar c = true \/ c = "_"%char) (replaceUnsafe t).
Proof.
  unfold replaceUnsafe. apply Forall_forall. intros c Hin.
  apply in_map_iff in Hin. destruct Hin as (a & <- & _).
  destruct (isFilenameChar a) eqn:E; [now left | now right].
Qed.

Lemma replaceUnsafe_fixed (t : JS.chars) :
  Forall (fun c => isFilenameChar c = true \/ c = "_"%char) t ->
  replaceUnsafe t = t.
Proof.
  unfold replaceUnsafe. induction 1 as [|a t Ha _ IH]; cbn [map];
    [reflexivity|].
  rewrite IH. destruct Ha as [-> | ->]; reflexivity.
Qed.

Lemma Forall_firstn {A} (P : A -> Prop) (n : nat) (t : list A) :
  Forall P t -> Forall P (firstn n t).
Proof.
  intros H. apply Forall_forall. intros x Hx. apply in_firstn in Hx.
  rewrite Forall_forall in H. now apply H.
Qed.

(** X24. sanitizeFilename yields a plain file name. For every input the
    result has at most 200 characters, each a letter, a digit, a period, a
    hyphen or an underscore, so it holds no slash, backslash or NUL; it
    never holds two underscores in a row; and sanitizing it again changes
    nothing. *)
Theorem sanitizeFilename_yields_a_plain_name (filename : string) :
  let name := list_ascii_of_string (sanitizeFilename filename) in
  JS.length name <= 200
  /\ Forall (fun c => isFilenameChar c = true \/ c = "_"%char) name
  /\ ~ In "/"%char name /\ ~ In "092"%char name /\ ~ In "000"%char name
  /\ ~ Infix ["_"; "_"]%char name
  /\ sanitizeFilename (sanitizeFilename filename) = sanitizeFilename filename.
Proof.
  assert (Hcut : forall f,
    sanitizeFilename f
    = string_of_list_ascii
        (firstn (Z.to_nat 200)
           (squeezeUnderscores (replaceUnsafe (list_ascii_of_string f))))).
  { intros f. unfold sanitizeFilename. now rewrite slice_from_start by lia. }
  cbv zeta. rewrite (Hcut (sanitizeFilename filename)), (Hcut filename).
  rewrite !list_ascii_of_string_of_list_ascii.
  set (t := squeezeUnderscores (replaceUnsafe (list_ascii_of_string filename))).
  set (name := firstn (Z.to_nat 200) t).
  assert (Hlen : JS.length name <= 200).
  { unfold JS.length, name. pose proof (firstn_le_length (Z.to_nat 200) t). lia. }
  assert (Hsafe : Forall (fun c => isFilenameChar c = true \/ c = "_"%char) name).
  { apply Forall_firstn, squeezeUnderscores_keeps, replaceUnsafe_safe. }
  assert (Hrun : noRun "_"%char name).
  { apply noRun_firstn, squeezeUnderscores_noRun. }
  assert (Hnot : forall c, isFilenameChar c = false -> c <> "_"%char ->
                           ~ In c name).
  { intros c Hc Hu Hin. rewrite Forall_forall in Hsafe.
    destruct (Hsafe c Hin); congruence. }
  split; [exact Hlen|]. split; [exact Hsafe|].
  split; [apply Hnot; [reflexivity | discriminate]|].
  split; [apply Hnot; [reflexivity | discriminate]|].
  split; [apply Hnot; [reflexivity | discriminate]|].
  split; [now apply noRun_no_pair|].
  rewrite (replaceUnsafe_fixed name Hsafe), (squeezeUnderscores_fixed name Hrun).
  f_equal. apply firstn_all2. unfold JS.length in Hlen. lia.
Qed.

(** ** slugify *)

Lemma noRun_app (c : ascii) (a b : JS.chars) :
  noRun c (a ++ b) -> noRun c a /\ noRun c b.
Proof.
  induction a as [|x a IH]; cbn [app]; [now split|].
  intros H. pose proof (noRun_tail _ _ _ H) as Ht.
  destruct (IH Ht) as [Ha Hb]. split; [|exact Hb].
  apply noRun_cons; [exact Ha|].
  destruct a as [|y a]; [exact I|]. cbn [app noRun] in H. now destruct H.
Qed.

Lemma hyphenate_head (c : ascii) (t : JS.chars) :
  isSlugChar c = true -> hyphenate (c :: t) = c :: hyphenate t.
Proof. intros H. cbn [hyphenate]. now rewrite H. Qed.

Lemma hyphenate_chars (t : JS.chars) :
  Forall (fun c => isSlugChar c = true \/ c = "-"%char) (hyphenate t).
Proof.
  induction t as [|c t IH]; cbn [hyphenate]; [constructor|].
  destruct (isSlugChar c) eqn:Ec; [constructor; [now left | exact IH]|].
  destruct t as [|d t]; [constructor; [now right | constructor]|].
  destruct (isSlugChar d); [constructor; [now right | exact IH] | exact IH].
Qed.

Lemma hyphenate_noRun (t : JS.chars) : noRun "-"%char (hyphenate t).
Proof.
  induction t as [|c t IH]; cbn [hyphenate]; [exact I|].
  destruct (isSlugChar c) eqn:Ec.
  - apply noRun_cons; [exact IH|].
    destruct (hyphenate t); [exact I|]. intros [Hc _]. now subst c.
  - destruct t as [|d t]; [exact I|].
    destruct (isSlugChar d) eqn:Ed; [|exact IH].
    apply noRun_cons; [exact IH|]. rewrite (hyphenate_head d t Ed).
    intros [_ Hd]. now subst d.
Qed.

(** The characters of the class are kept, and no other is added. *)
Lemma hyphenate_keeps (t : JS.chars) (c : ascii) :
  isSlugChar c = true -> (In c (hyphenate t) <-> In c t).
Proof.
  intros Hc. induction t as [|a t IH]; cbn [hyphenate]; [tauto|].
  destruct (isSlugChar a) eqn:Ea.
  - cbn [In]. now rewrite IH.
  - assert (Ha : a <> c) by (intros ->; congruence).
    assert (Hh : "-"%char <> c) by (intros <-; discriminate).
    destruct t as [|d t]; [cbn [In]; tauto|].
    destruct (isSlugChar d); cbn [In] in *; rewrite ?IH; cbn [In]; tauto.
Qed.

Lemma dropLeadingHyphen_cases (t : JS.chars) :
  dropLeadingHyphen t = t \/ t = "-"%char :: dropLeadingHyphen t.
Proof.
  destruct t as [|c t]; cbn [dropLeadingHyphen]; [now left|].
  destruct (Ascii.eqb c "-"%char) eqn:E; [right | now left].
  apply Ascii.eqb_eq in E. now subst c.
Qed.

Lemma dropTrailingHyphen_cases (t : JS.chars) :
  dropTrailingHyphen t = t \/ t = dropTrailingHyphen t ++ ["-"%char].
Proof.
  unfold dropTrailingHyphen. destruct (dropLeadingHyphen_cases (rev t)) as [H | H].
  - left. now rewrite H, rev_involutive.
  - right. rewrite <- (rev_involutive t) at 1. rewrite H. reflexivity.
Qed.

Lemma dropLeadingHyphen_head (t rest : JS.chars) :
  noRun "-"%char t -> dropLeadingHyphen t <> "-"%char :: rest.
Proof.
  destruct t as [|c t]; cbn [dropLeadingHyphen]; [discriminate|].
  destruct (Ascii.eqb c "-"%char) eqn:E.
  - apply Ascii.eqb_eq in E. subst c. intros H ->. cbn [noRun] in H.
    now destruct H as [[] _].
  - intros _ [= ->]. discriminate.
Qed.

Lemma noRun_rev (c : ascii) (t : JS.chars) : noRun c t -> noRun c (rev t).
Proof.
  induction t as [|a t IH]; intros H; [exact I|]. cbn [rev].
  pose proof (IH (noRun_tail _ _ _ H)) as Hr.
  destruct t as [|b t]; [exact I|]. cbn [rev] in *.
  cbn [noRun] in H. destruct H as [Hab _].
  revert Hr. generalize (rev t). intros l.
  induction l as [|x l IHl]; cbn [app].
  - intros _. cbn [noRun]. split; [tauto | exact I].
  - intros Hx. apply noRun_cons.
    + apply IHl. now apply noRun_tail in Hx.
    + destruct l as [|y l]; cbn [app] in *; cbn [noRun] in Hx; now destruct Hx.
Qed.

Lemma trimStart_keeps (t : JS.chars) (c : ascii) :
  JS.isWhitespace c = false -> In c t -> In c (JS.trimStart t).
Proof.
  intros Hc. induction t as [|a t IH]; cbn [JS.trimStart]; [tauto|].
  destruct (JS.isWhitespace a) eqn:Ea; [|tauto].
  intros [-> | Hin]; [congruence | now apply IH].
Qed.

Lemma trim_keeps (t : JS.chars) (c : ascii) :
  JS.isWhitespace c = false -> In c t -> In c (JS.trim t).
Proof.
  intros Hc Hin. unfold JS.trim, JS.trimEnd.
  rewrite <- in_rev. apply trimStart_keeps; [exact Hc|].
  rewrite <- in_rev. now apply trimStart_keeps.
Qed.

Lemma trim_in (t : JS.chars) (c : ascii) : In c (JS.trim t) -> In c t.
Proof.
  intros Hin. destruct (trim_infix t) as (before & after & ->).
  apply in_or_app. right. apply in_or_app. now left.
Qed.

Lemma lowerAscii_chars (s : string) :
  list_ascii_of_string (JS.lowerAscii s)
  = map JS.toLowerChar (list_ascii_of_string s).
Proof. induction s as [|c s IH]; cbn; [reflexivity | now rewrite IH]. Qed.

(** A character is lowered to a small letter or a digit exactly when it is
    a letter or a digit. *)
Lemma isSlugChar_toLowerChar (c : ascii) :
  isSlugChar (JS.toLowerChar c) = isLower c || isUpper c || isDigit c.
Proof.
  unfold isSlugChar, isLower, isUpper, isDigit.
  destruct (toLowerChar_cases c) as [[Hc Hl] | [Hc Hl]].
  - rewrite Hl.
    replace ((65 <=? nat_of_ascii c) && (nat_of_ascii c <=? 90))%nat with true
      by (symmetry; apply andb_true_iff; split; apply Nat.leb_le; lia).
    rewrite orb_true_r. cbn [orb].
    replace ((97 <=? nat_of_ascii c + 32) && (nat_of_ascii c + 32 <=? 122))%nat
      with true
      by (symmetry; apply andb_true_iff; split; apply Nat.leb_le; lia).
    reflexivity.
  - rewrite Hl.
    replace ((65 <=? nat_of_ascii c) && (nat_of_ascii c <=? 90))%nat with false.
    + now rewrite orb_false_r.
    + symmetry. apply not_true_is_false. intros H.
      apply andb_true_iff in H. destruct H as [H1 H2].
      apply Nat.leb_le in H1, H2. lia.
Qed.

Lemma isSlugChar_not_whitespace (c : ascii) :
  isSlugChar c = true -> JS.isWhitespace c = false.
Proof.
  unfold isSlugChar, isLower, isDigit, JS.isWhitespace.
  destruct (nat_of_ascii c =? 32)%nat eqn:E32.
  - apply Nat.eqb_eq in E32. rewrite E32. discriminate.
  - rewrite orb_false_r. intros H. apply andb_false_iff.
    apply orb_true_iff in H.
    destruct H as [H | H]; apply andb_true_iff in H; destruct H as [H _];
      apply Nat.leb_le in H; right; apply Nat.leb_gt; lia.
Qed.

Lemma only_hyphens (t : JS.chars) :
  Forall (fun c => c = "-"%char) t -> noRun "-"%char t ->
  t = [] \/ t = ["-"%char].
Proof.
  destruct t as [|a [|b t]]; [now left | |].
  - intros H _. inversion H; subst. now right.
  - intros H Hrun. inversion H as [|? ? Ha Hrest]; subst.
    inversion Hrest; subst. cbn [noRun] in Hrun. now destruct Hrun as [[] _].
Qed.

(** X25. slugify yields a slug, or nothing. For every input the result
    holds only small letters, digits and hyphens, neither starts nor ends
    with a hyphen and never holds two hyphens in a row; it is empty exactly
    when the lowered input holds no small letter and no digit, which for an
    ASCII input is when the input holds no letter and no digit: then the
    seed script falls back to its default slug. *)
Theorem slugify_yields_a_slug_or_nothing (env : Env) (input : string) :
  let slug := list_ascii_of_string (slugify env input) in
  Forall (fun c => isSlugChar c = true \/ c = "-"%char) slug
  /\ (forall rest, slug <> "-"%char :: rest)
  /\ (forall front, slug <> front ++ ["-"%char])
  /\ ~ Infix ["-"; "-"]%char slug
  /\ (slug = []
      <-> Forall (fun c => isSlugChar c = false)
                 (list_ascii_of_string (JS.toLowerCase (unicode env) input)))
  /\ (JS.isAscii input = true ->
      (slug = []
       <-> Forall (fun c => isLower c || isUpper c || isDigit c = false)
                  (list_ascii_of_string input))).
Proof.
  cbv zeta. unfold slugify. rewrite list_ascii_of_string_of_list_ascii.
  set (lower := list_ascii_of_string (JS.toLowerCase (unicode env) input)).
  set (h := hyphenate (JS.trim lower)).
  set (s1 := dropLeadingHyphen h). set (s2 := dropTrailingHyphen s1).
  pose proof (hyphenate_chars (JS.trim lower)) as Hchars. fold h in Hchars.
  pose proof (hyphenate_noRun (JS.trim lower)) as Hrun. fold h in Hrun.
  assert (Hhead1 : forall rest, s1 <> "-"%char :: rest)
    by (intros rest; now apply dropLeadingHyphen_head).
  assert (Hs1 : Forall (fun c => isSlugChar c = true \/ c = "-"%char) s1
                /\ noRun "-"%char s1).
  { destruct (dropLeadingHyphen_cases h) as [H | H]; fold s1 in H.
    - now rewrite H.
    - rewrite H in Hchars, Hrun. split; [now inversion Hchars|].
      now apply noRun_tail in Hrun. }
  destruct Hs1 as [Hchars1 Hrun1].
  assert (Hs2 : Forall (fun c => isSlugChar c = true \/ c = "-"%char) s2
                /\ noRun "-"%char s2).
  { destruct (dropTrailingHyphen_cases s1) as [H | H]; fold s2 in H.
    - now rewrite H.
    - rewrite H in Hchars1, Hrun1. apply Forall_app in Hchars1.
      apply noRun_app in Hrun1. tauto. }
  destruct Hs2 as [Hchars2 Hrun2].
  assert (Hhead2 : forall rest, s2 <> "-"%char :: rest).
  { intros rest Hs2.
    destruct (dropTrailingHyphen_cases s1) as [H | H]; fold s2 in H.
    - apply (Hhead1 rest). now rewrite <- H.
    - rewrite Hs2 in H. cbn [app] in H. now apply Hhead1 in H. }
  assert (Hlast2 : forall front, s2 <> front ++ ["-"%char]).
  { intros front Hs2.
    assert (Hrev : dropLeadingHyphen (rev s1) = "-"%char :: rev front).
    { rewrite <- (rev_involutive (dropLeadingHyphen (rev s1))).
      fold (dropTrailingHyphen s1). fold s2. rewrite Hs2.
      now rewrite rev_unit. }
    revert Hrev. apply dropLeadingHyphen_head. now apply noRun_rev. }
  split; [exact Hchars2|]. split; [exact Hhead2|]. split; [exact Hlast2|].
  split; [now apply noRun_no_pair|].
  assert (Hnone : Forall (fun c => isSlugChar c = false) lower
                  <-> forall c, isSlugChar c = true -> ~ In c h).
  { rewrite Forall_forall. split.
    - intros H c Hc Hin.
      apply (proj1 (hyphenate_keeps (JS.trim lower) c Hc)) in Hin.
      apply trim_in in Hin. specialize (H c Hin). congruence.
    - intros H a Ha.
      destruct (isSlugChar a) eqn:E; [|reflexivity].
      destruct (H a E).
      apply (proj2 (hyphenate_keeps (JS.trim lower) _ E)), trim_keeps;
        [now apply isSlugChar_not_whitespace | exact Ha]. }
  assert (Hempty : s2 = [] <-> Forall (fun c => isSlugChar c = false) lower).
  { rewrite Hnone. split.
    - intros Hempty c Hc Hin.
      assert (Hs1 : s1 = []).
      { destruct (dropTrailingHyphen_cases s1) as [H | H]; fold s2 in H;
          rewrite Hempty in H; [now symmetry|].
        cbn [app] in H. now apply Hhead1 in H. }
      destruct (dropLeadingHyphen_cases h) as [H | H]; fold s1 in H;
        rewrite Hs1 in H.
      + rewrite <- H in Hin. contradiction.
      + rewrite H in Hin. destruct Hin as [<- | []]. discriminate.
    - intros Hno.
      assert (Hall : Forall (fun c => c = "-"%char) h).
      { rewrite Forall_forall in Hchars |- *. intros c Hin.
        destruct (Hchars c Hin) as [Hc | Hc]; [|exact Hc].
        now destruct (Hno c Hc). }
      destruct (only_hyphens h Hall Hrun) as [Hh | Hh];
        unfold s2, s1; rewrite Hh; reflexivity. }
  split; [exact Hempty|].
  intros Hascii. rewrite Hempty. unfold lower, JS.toLowerCase.
  rewrite Hascii, lowerAscii_chars, Forall_map.
  split; intros H; (eapply Forall_impl; [|exact H]); cbv beta; intros c Hc;
    [rewrite <- isSlugChar_toLowerChar | rewrite isSlugChar_toLowerChar];
    exact Hc.
Qed.

(** ** encrypt and decrypt *)

Lemma hexValue_hexDigit (n : nat) :
  (n < 16)%nat -> hexValue (hexDigit n) = Some n.
Proof.
  intros H. do 16 (destruct n as [|n]; [reflexivity|]). lia.
Qed.

Lemma hexDigit_not_colon (n : nat) : hexDigit n <> ":"%char.
Proof.
  do 16 (destruct n as [|n]; [discriminate|]).
  unfold hexDigit. cbn. destruct n; discriminate.
Qed.

Lemma fromHex_toHex (b : Buffer) : fromHex (toHex b) = b.
Proof.
  induction b as [|c b IH]; [reflexivity|].
  cbn [toHex flat_map app fromHex]. fold (toHex b).
  pose proof (nat_ascii_bounded c) as Hc.
  rewrite !hexValue_hexDigit;
    [|apply Nat.mod_upper_bound; lia | apply Nat.Div0.div_lt_upper_bound; lia].
  rewrite IH. f_equal.
  rewrite <- (ascii_nat_embedding c) at 3. f_equal.
  pose proof (Nat.div_mod_eq (nat_of_ascii c) 16). lia.
Qed.

Lemma toHex_no_colon (b : Buffer) : ~ In ":"%char (toHex b).
Proof.
  unfold toHex. rewrite in_flat_map. intros (c & _ & [H | [H | []]]);
    now apply hexDigit_not_colon in H.
Qed.

Lemma split_no_separator (sep : ascii) (t : JS.chars) :
  ~ In sep t -> split sep t = [t].
Proof.
  induction t as [|c t IH]; [reflexivity|]. intros Hno. cbn [split].
  destruct (Ascii.eqb c sep) eqn:E.
  - apply Ascii.eqb_eq in E. subst c. destruct Hno. now left.
  - rewrite IH; [reflexivity|]. intros Hin. apply Hno. now right.
Qed.

Lemma split_at_separator (sep : ascii) (a b : JS.chars) :
  ~ In sep a -> split sep (a ++ sep :: b) = a :: split sep b.
Proof.
  induction a as [|c a IH]; intros Hno; cbn [app split].
  - now rewrite Ascii.eqb_refl.
  - destruct (Ascii.eqb c sep) eqn:E.
    + apply Ascii.eqb_eq in E. subst c. destruct Hno. now left.
    + rewrite IH; [reflexivity|]. intros Hin. apply Hno. now right.
Qed.

Lemma split_length (sep : ascii) (t : JS.chars) :
  List.length (split sep t) = S (count_occ ascii_dec t sep).
Proof.
  induction t as [|c t IH]; [reflexivity|]. cbn [split count_occ].
  destruct (Ascii.eqb c sep) eqn:E.
  - apply Ascii.eqb_eq in E. subst c.
    destruct (ascii_dec sep sep); [|contradiction]. cbn [List.length].
    now rewrite IH.
  - apply Ascii.eqb_neq in E. destruct (ascii_dec c sep); [contradiction|].
    destruct (split sep t); [discriminate | exact IH].
Qed.

(** X26. What encrypt writes, decrypt reads. With a key of at least 32
    characters, and a cipher that accepts every key of 32 bytes and opens
    what it sealed, encrypt returns a text (initialisation vector, tag and
    cipher text in hexadecimal, joined by colons) from which decrypt under
    the same key gives the original text back, for every text and every
    vector drawn. *)
Theorem decrypt_reads_what_encrypt_wrote
    (seal : Buffer -> Buffer -> Buffer -> Reply (Buffer * Buffer))
    (unseal : Buffer -> Buffer -> Buffer -> Buffer -> Reply Buffer)
    (key : string) (iv : Buffer) (text : string) :
  (forall k v t, List.length k = 32%nat ->
                 exists sealed, seal k v t = Resolved sealed) ->
  (forall k v t encrypted authTag,
      seal k v t = Resolved (encrypted, authTag) ->
      unseal k v authTag encrypted = Resolved t) ->
  32 <= JS.length (list_ascii_of_string key) ->
  exists written,
    encrypt seal (Some key) iv text = Resolved written
    /\ decryptText unseal (Some key) written = Resolved text.
Proof.
  intros Haccepts Hopens Hkey. unfold encrypt, decryptText, keyTooShort.
  replace (JS.length (list_ascii_of_string key) <? 32) with false
    by (symmetry; apply Z.ltb_ge; lia).
  destruct (Haccepts (keyBuffer key) iv (list_ascii_of_string text))
    as ([encrypted authTag] & Hsealed).
  { unfold keyBuffer. rewrite slice_from_start by lia.
    unfold JS.length in Hkey. rewrite length_firstn. lia. }
  rewrite Hsealed. eexists. split; [reflexivity|].
  rewrite list_ascii_of_string_of_list_ascii. cbn [app].
  rewrite split_at_separator by apply toHex_no_colon.
  rewrite split_at_separator by apply toHex_no_colon.
  rewrite split_no_separator by apply toHex_no_colon.
  rewrite !fromHex_toHex, (Hopens _ _ _ _ _ Hsealed).
  now rewrite string_of_list_ascii_of_string.
Qed.

Lemma decrypt_reads_what_encrypt_wrote_witness :
  exists written,
    encrypt (fun _ _ t => Resolved (rev t, []))
            (Some "0123456789abcdef0123456789abcdef")
            ["001"; "002"]%char "sk-live"
    = Resolved written
    /\ decryptText (fun _ _ _ c => Resolved (rev c))
                   (Some "0123456789abcdef0123456789abcdef") written
       = Resolved "sk-live".
Proof.
  apply (decrypt_reads_what_encrypt_wrote
           (fun _ _ t => Resolved (rev t, []))
           (fun _ _ _ c => Resolved (rev c))).
  - intros k v t _. now eexists.
  - intros k v t encrypted authTag H. injection H as <- _.
    now rewrite rev_involutive.
  - vm_compute. discriminate.
Defined.

(** X27. decrypt checks the key, then the format, before it touches the
    cipher. Without a key of at least 32 characters it throws the key
    error, as encrypt does; with one, a text that does not hold exactly two
    colons is rejected as [Invalid encrypted text format], whatever the
    cipher would do. *)
Theorem decryptText_checks_key_then_format
    (seal : Buffer -> Buffer -> Buffer -> Reply (Buffer * Buffer))
    (unseal : Buffer -> Buffer -> Buffer -> Buffer -> Reply Buffer)
    (ENCRYPTION_KEY : option string) (iv : Buffer) (text : string) :
  (keyTooShort ENCRYPTION_KEY = true ->
   encrypt seal ENCRYPTION_KEY iv text = Rejected KEY_ERROR
   /\ decryptText unseal ENCRYPTION_KEY text = Rejected KEY_ERROR)
  /\ (keyTooShort ENCRYPTION_KEY = false ->
      count_occ ascii_dec (list_ascii_of_string text) ":"%char <> 2%nat ->
      decryptText unseal ENCRYPTION_KEY text
      = Rejected "Invalid encrypted text format").
Proof.
  unfold encrypt, decryptText. split.
  - destruct ENCRYPTION_KEY as [key|]; [|now split]. intros ->. now split.
  - destruct ENCRYPTION_KEY as [key|]; [|discriminate]. intros -> Hcount.
    pose proof (split_length ":"%char (list_ascii_of_string text)) as Hlen.
    destruct (split ":"%char (list_ascii_of_string text))
      as [|a [|b [|c [|d rest]]]]; try reflexivity.
    cbn [List.length] in Hlen. lia.
Qed.

(** ** The middleware in front of the routes *)

Lemma split_first (sep : ascii) (t : JS.chars) :
  exists part parts,
    split sep t = part :: parts
    /\ ~ In sep part
    /\ (t = part \/ exists rest, t = part ++ sep :: rest).
Proof.
  induction t as [|c t (part & parts & Hsplit & Hno & Ht)]; cbn [split].
  - exists [], []. split; [reflexivity|]. split; [tauto | now left].
  - destruct (Ascii.eqb c sep) eqn:E.
    + apply Ascii.eqb_eq in E. subst c. exists [], (split sep t).
      split; [reflexivity|]. split; [tauto|]. right. now exists t.
    + apply Ascii.eqb_neq in E. rewrite Hsplit. exists (c :: part), parts.
      split; [reflexivity|]. split.
      * intros [H | H]; [congruence | contradiction].
      * destruct Ht as [-> | (rest & ->)]; [now left|]. right. now exists rest.
Qed.

(** X28. An admin route is reached only with a verified token of a listed
    role, and the tenant is the token's. With authenticate and then
    authorize in front of it, a handler runs only when the authorization
    header is [Bearer ], a token without a space, and nothing more or a space
    and anything; jwt.verify accepts that token; and the role in its claims
    is one of the roles listed. The handler then sees the claims as the
    user, and the tenant of the claims as the tenant, whatever the request
    carried before. Every other request is answered 401, or 403 when only
    the role is wrong. *)
Theorem admin_route_needs_verified_token_of_listed_role
    (verify : string -> Reply JWTPayload) (allowedRoles : list string)
    (req : Request) :
  match inOrder [authenticate verify; authorize allowedRoles] req with
  | Next req' =>
      exists token rest decoded,
        authorization req = Some ("Bearer " ++ token ++ rest)%string
        /\ ~ In " "%char (list_ascii_of_string token)
        /\ (rest = "" \/ exists more, rest = String " " more)
        /\ verify token = Resolved decoded
        /\ In (jwt_role decoded) allowedRoles
        /\ req' = mkReq (authorization req) (Some decoded)
                        (Some (jwt_tenantId decoded))
  | Responded status error =>
      (status = 401 /\ (error = "No token provided"
                        \/ error = "Invalid or expired token"))
      \/ (status = 403 /\ error = "Insufficient permissions"
          /\ exists token decoded,
               verify token = Resolved decoded
               /\ ~ In (jwt_role decoded) allowedRoles)
  end.
Proof.
  cbn [inOrder]. unfold authenticate.
  destruct (authorization req) as [authHeader|]; [|left; split; [reflexivity | now left]].
  destruct (JS.startsWith authHeader "Bearer ") eqn:Hstart; cbn [negb];
    [|left; split; [reflexivity | now left]].
  apply startsWith_spec in Hstart. destruct Hstart as (post & ->).
  change (list_ascii_of_string ("Bearer " ++ post))
    with (list_ascii_of_string "Bearer" ++ " "%char :: list_ascii_of_string post).
  rewrite split_at_separator
    by (intros H; cbn in H; repeat destruct H as [H | H]; discriminate || exact H).
  destruct (split_first " "%char (list_ascii_of_string post))
    as (part & parts & -> & Hno & Hpost).
  cbn [nth].
  destruct (verify (string_of_list_ascii part)) as [decoded | e] eqn:Hverify;
    [|left; split; [reflexivity | now right]].
  unfold authorize. cbn [user].
  destruct (existsb (String.eqb (jwt_role decoded)) allowedRoles) eqn:Hrole;
    cbn [negb].
  - apply existsb_exists in Hrole. destruct Hrole as (r & Hin & Hr).
    apply String.eqb_eq in Hr. subst r.
    exists (string_of_list_ascii part),
           (string_of_list_ascii
              (skipn (List.length part) (list_ascii_of_string post))),
           decoded.
    rewrite list_ascii_of_string_of_list_ascii.
    assert (Hsplit : list_ascii_of_string post
                     = part ++ skipn (List.length part)
                                     (list_ascii_of_string post)).
    { destruct Hpost as [-> | (rest & ->)].
      - now rewrite skipn_all, app_nil_r.
      - rewrite skipn_app, skipn_all, Nat.sub_diag. reflexivity. }
    split; [|split; [exact Hno | split; [|now repeat split]]].
    + f_equal. f_equal. rewrite <- string_of_list_ascii_app, <- Hsplit.
      now rewrite string_of_list_ascii_of_string.
    + destruct Hpost as [-> | (rest & ->)].
      * left. now rewrite skipn_all.
      * right. exists (string_of_list_ascii rest).
        rewrite skipn_app, skipn_all, Nat.sub_diag. reflexivity.
  - right. split; [reflexivity|]. split; [reflexivity|].
    exists (string_of_list_ascii part), decoded.
    split; [exact Hverify|]. intros Hin.
    assert (Hex : existsb (String.eqb (jwt_role decoded)) allowedRoles = true).
    { apply existsb_exists. exists (jwt_role decoded).
      split; [exact Hin | apply String.eqb_refl]. }
    congruence.
Qed.

(** ** The statement of getDecisionLogs *)

Lemma getDecisionLogsStatement_by_presence (tenantId tenantId' : string)
    (filters filters' : DecisionLogFilters) :
  filtersGiven filters' = filtersGiven filters ->
  query (getDecisionLogsStatement tenantId' filters')
  = query (getDecisionLogsStatement tenantId filters).
Proof.
  unfold filtersGiven, getDecisionLogsStatement.
  destruct (truthyText (filter_userId filters)),
           (truthyText (filter_userId filters'));
    try discriminate;
  destruct (truthyText (filter_agentId filters)),
           (truthyText (filter_agentId filters'));
    try discriminate;
  destruct (truthyText (filter_decision filters)),
           (truthyText (filter_decision filters'));
    try discriminate;
  destruct (truthyDate (filter_startDate filters)),
           (truthyDate (filter_startDate filters'));
    try discriminate;
  destruct (truthyDate (filter_endDate filters)),
           (truthyDate (filter_endDate filters'));
    try discriminate;
  destruct (truthyNumber (filter_limit filters)),
           (truthyNumber (filter_limit filters'));
    try discriminate;
  destruct (truthyNumber (filter_offset filters)),
           (truthyNumber (filter_offset filters'));
    try discriminate;
  reflexivity.
Qed.

(** X29. The statement of getDecisionLogs is parameterised throughout. For
    every tenant and every combination of filters, the placeholders in the
    statement are $1, $2, ... in this order, as many as there are parameters,
    the first parameter being the tenant the rows are restricted to; the
    text of the statement depends only on which filters are given, never on
    their values; and a limit of 0 is no limit: the statement is the one
    built without a limit. *)
Theorem getDecisionLogsStatement_is_parameterised
    (tenantId : string) (filters : DecisionLogFilters) :
  let st := getDecisionLogsStatement tenantId filters in
  placeholders (query st)
  = map Z.of_nat (seq 1 (List.length (params st)))
  /\ hd_error (params st) = Some (SqlText tenantId)
  /\ paramIndex st = Z.of_nat (List.length (params st)) + 1
  /\ (forall tenantId' filters',
        filtersGiven filters' = filtersGiven filters ->
        query (getDecisionLogsStatement tenantId' filters') = query st)
  /\ (filter_limit filters = Some 0 ->
      st = getDecisionLogsStatement tenantId (withLimit None filters)).
Proof.
  cbv zeta.
  assert (Hshape :
    placeholders (query (getDecisionLogsStatement tenantId filters))
    = map Z.of_nat
          (seq 1 (List.length (params (getDecisionLogsStatement tenantId filters))))
    /\ hd_error (params (getDecisionLogsStatement tenantId filters))
       = Some (SqlText tenantId)
    /\ paramIndex (getDecisionLogsStatement tenantId filters)
       = Z.of_nat (List.length
                     (params (getDecisionLogsStatement tenantId filters))) + 1).
  { unfold getDecisionLogsStatement.
    destruct (truthyText (filter_userId filters));
    destruct (truthyText (filter_agentId filters));
    destruct (truthyText (filter_decision filters));
    destruct (truthyDate (filter_startDate filters));
    destruct (truthyDate (filter_endDate filters));
    destruct (truthyNumber (filter_limit filters));
    destruct (truthyNumber (filter_offset filters));
    (split; [vm_compute; reflexivity | split; vm_compute; reflexivity]). }
  destruct Hshape as (H1 & H2 & H3).
  split; [exact H1|]. split; [exact H2|]. split; [exact H3|]. split.
  - intros tenantId' filters'. apply getDecisionLogsStatement_by_presence.
  - intros Hlimit. unfold getDecisionLogsStatement, withLimit.
    cbn [filter_userId filter_agentId filter_decision filter_startDate
         filter_endDate filter_limit filter_offset].
    now rewrite Hlimit.
Qed.

(** ** The kill switch, from the route to the chat *)

(** X30. The kill switch route switches on for [true] only, stays inside
    the tenant, and what it switches on stops the chat. The route answers
    200, 404 or 500, and unless it answers 200 it changes nothing; it
    answers 404 exactly when the store accepted the update and no agent of
    the caller's tenant has the id. When it answers 200, the agents with
    that id in that tenant, and no other row, have their kill switch set to
    whether [enabled] is the boolean [true], while the reply says [enabled]
    for every truthy value (so for the string [true] or the number 1 the
    reply says enabled and the switch is off). After a 200 for [true],
    every chat turn on that agent in that tenant returns the blocked
    response of the kill switch, or throws because the agent is not active,
    without any provider call. *)
Theorem killSwitchRoute_switches_on_true_only_and_stops_chat
    (refuses : RouteStatement -> bool) (req : AdminRequest)
    (enabled : JsonValue) (s : Server) :
  let res := fst (killSwitchRoute refuses req enabled s) in
  let s' := snd (killSwitchRoute refuses req enabled s) in
  (res_status res = 200 \/ res_status res = 404 \/ res_status res = 500)
  /\ (res_status res <> 200 -> s' = s)
  /\ (res_status res = 404 <->
      refuses UpdateAgent = false
      /\ forall a, In a (agents (db (world s))) ->
                   isAgentOf (params_id req) (admin_tenantId req) a = false)
  /\ (res_status res = 200 ->
      agents (db (world s'))
      = map (fun a => if isAgentOf (params_id req) (admin_tenantId req) a
                      then setKillSwitch (isTrue enabled) a else a)
            (agents (db (world s)))
      /\ res_text res
         = (if truthy enabled then "Kill switch enabled"
            else "Kill switch disabled")
      /\ (isTrue enabled = true ->
          forall env message userId conversation,
            exists out w',
              chat env message (params_id req) userId (admin_tenantId req)
                   conversation (world s') = (out, w')
              /\ calls w' = calls (world s')
              /\ (out = Throw "Agent not found or inactive"
                  \/ exists r,
                       out = Ok r /\ blocked r = true /\ tokensUsed r = 0
                       /\ blockReason r
                          = Some "Agent kill switch is enabled"))).
Proof.
  cbv zeta. unfold killSwitchRoute.
  destruct (refuses UpdateAgent) eqn:Hupdate; cbn [fst snd res_status].
  { split; [now right; right|]. split; [reflexivity|].
    split; [split; [discriminate | now intros [? _]]|]. discriminate. }
  destruct (filter _ (agents (db (world s)))) as [|row rows] eqn:Hrows;
    cbn [fst snd res_status res_text].
  { split; [now right; left|]. split; [reflexivity|]. split; [|discriminate].
    split; [|reflexivity]. intros _. split; [reflexivity|]. intros a Hin.
    destruct (isAgentOf (params_id req) (admin_tenantId req) a) eqn:E;
      [|reflexivity].
    assert (Hf : In a (filter (isAgentOf (params_id req) (admin_tenantId req))
                              (agents (db (world s)))))
      by (apply filter_In; now split).
    rewrite Hrows in Hf. contradiction. }
  split; [now left|]. split; [intros H; now destruct H|]. split.
  { split; [discriminate|]. intros [_ Hnone].
    assert (Hin : In row (filter (isAgentOf (params_id req) (admin_tenantId req))
                                 (agents (db (world s)))))
      by (rewrite Hrows; now left).
    apply filter_In in Hin. destruct Hin as [Hin Hrow].
    rewrite (Hnone row Hin) in Hrow. discriminate. }
  intros _.
  assert (Hagents :
    agents (db (world (logAdminAction refuses req "toggle_kill_switch" "agent"
                         (Some (params_id req)) [("enabled", enabled)]
                         (withDb (updateAgentOf (params_id req)
                                    (admin_tenantId req)
                                    (setKillSwitch (isTrue enabled))
                                    (db (world s))) s))))
    = map (fun a => if isAgentOf (params_id req) (admin_tenantId req) a
                    then setKillSwitch (isTrue enabled) a else a)
          (agents (db (world s)))).
  { unfold logAdminAction. now destruct (refuses InsertAdminAction). }
  split; [exact Hagents|]. split; [now destruct (truthy enabled)|].
  intros Htrue env message userId conversation. rewrite chat_run.
  destruct (selectActiveAgent _ (params_id req) (admin_tenantId req))
    as [|agent others] eqn:Hsel.
  { eexists; eexists. split; [reflexivity|]. split; [reflexivity | now left]. }
  destruct (selectActiveAgent_in _ _ _ _ _ Hsel) as (Hin & Hid & Htenant & _).
  rewrite Hagents in Hin. apply in_map_iff in Hin.
  destruct Hin as (a & Ha & _).
  assert (Hkill : kill_switch agent = true).
  { destruct (isAgentOf (params_id req) (admin_tenantId req) a) eqn:E.
    - subst agent. cbn [setKillSwitch kill_switch]. exact Htrue.
    - subst a. unfold isAgentOf in E.
      rewrite Hid, Htenant, !String.eqb_refl in E. discriminate. }
  unfold turn. rewrite Hkill.
  destruct (refuse _ _ _ _ _ _ _ _ _ _) as [out w'] eqn:Hrun.
  apply refuse_effect in Hrun. destruct Hrun as (c & -> & Hcalls & _).
  eexists; eexists. split; [reflexivity|]. split; [exact Hcalls|].
  right. eexists. now repeat split.
Qed.
